(** * NoChemicals: the job store, the analysis pipeline and the two endpoints

    A shallow embedding of
    - [src/lib/store.ts] (class [JobStore]: [getJobPath], [createJob],
      [updateJob], [getJob], [cleanup]),
    - the job-based analysis route ([cleanJsonResponse],
      [searchPubMedPapers], [analyzeImage], [POST]),
    - the status route ([GET]),
    - the older two-call route ([extractJsonFromText], [POST]) with the
      configuration it checks ([src/lib/config.ts]: the API key,
      [validateEnv]), and
    - the logic of the pages: the summary and the order of the ingredients
      ([calculateStats], [getRiskLevel], [sortByRisk]), the polling of the
      status route, the start of an upload, and the [handleUpload] of the
      older page.

    JavaScript strings are sequences of UTF-16 code units; they are modelled
    as lists of [N].  The library functions the code calls ([JSON.parse],
    [String.prototype.trim], [String.prototype.replace] with the fence
    pattern, [String.prototype.match] with the object pattern,
    [encodeURIComponent], [path.join], the [fs] calls) are modelled by the
    definitions of the modules [Js] and [Fs].

    What the model leaves to its inputs, or leaves out:
    - the clock: every reading of [Date.now()] is an argument, in
      milliseconds;
    - [crypto.randomUUID()]: the id it returns is an argument;
    - the inference service: the outcome of the call is an argument, the
      request sent to it is not modelled;
    - floating point: a JSON number is kept as its lexeme, the string of a
      number is given by a function left as a parameter, and a number is
      taken to survive serialisation;
    - the file system: regular files, readable or not, in the store
      directory and its ancestors; a file of the store holds a serialised
      job or text that does not parse; removing a file that exists
      succeeds;
    - the environment: the variable of the API key and whether the mode is
      development are arguments, the string of a thrown value is given by a
      function left as a parameter;
    - the pages: what a handler leaves on the page is its result; the state
      setters, the timers and the rendering are not modelled;
    - logging. *)

From Stdlib Require Import ZArith NArith Ascii String List Lia Bool.
From stdpp Require Import gmap list.

Open Scope Z_scope.

(** ** JavaScript strings and JSON values *)

Module Js.

(** A JavaScript string: its UTF-16 code units. *)
Abbreviation jstring := (list N).

(** The code units of an ASCII literal. *)
Definition lit (s : string) : jstring :=
  map N_of_ascii (list_ascii_of_string s).

(** Like [lit], with every apostrophe read as a double quote, to write JSON
    text inside a Rocq string. *)
Definition jtext (s : string) : jstring :=
  map (fun c : N => if (c =? 39)%N then 34%N else c) (lit s).

#[local] Set Warnings "-register-all".

(** Values that [JSON.parse] returns.  A number keeps its source lexeme; an
    object keeps its properties as an association list with distinct keys. *)
Inductive json : Type :=
| JNull
| JBool (b : bool)
| JNum (lexeme : jstring)
| JStr (s : jstring)
| JArr (items : list json)
| JObj (props : list (jstring * json)).

(** What the code throws and catches: an [Error] object with its [message],
    or some value that is not an instance of [Error]. *)
Inductive exn : Type :=
| ErrorObj (message : jstring)
| NotAnError.

(** The completion of a call that may throw. *)
Inductive completion (A : Type) : Type :=
| Return (a : A)
| Throw (e : exn).
Arguments Return {A} a.
Arguments Throw {A} e.

Definition bind {A B} (c : completion A) (k : A -> completion B) : completion B :=
  match c with
  | Return a => k a
  | Throw e => Throw e
  end.

#[global] Instance completion_bind : MBind completion :=
  fun A B k c => bind c k.

Definition eqs (a b : jstring) : bool := bool_decide (a = b).

(** Property read [o.k] on an object's own properties ([undefined] is [None]). *)
Fixpoint obj_get (props : list (jstring * json)) (k : jstring) : option json :=
  match props with
  | [] => None
  | (k', v) :: rest => if eqs k' k then Some v else obj_get rest k
  end.

(** Property write [o.k = v]: replaces the value in place or appends. *)
Fixpoint obj_set (props : list (jstring * json)) (k : jstring) (v : json)
  : list (jstring * json) :=
  match props with
  | [] => [(k, v)]
  | (k', v') :: rest =>
      if eqs k' k then (k', v) :: rest else (k', v') :: obj_set rest k v
  end.

(** *** JSON.parse *)

Definition is_json_ws (c : N) : bool :=
  ((c =? 32) || (c =? 9) || (c =? 10) || (c =? 13))%N.

Fixpoint skip_ws (s : jstring) : jstring :=
  match s with
  | c :: r => if is_json_ws c then skip_ws r else s
  | [] => []
  end.

Definition is_digit (c : N) : bool := ((48 <=? c) && (c <=? 57))%N.

Definition hex_val (c : N) : option N :=
  if is_digit c then Some (c - 48)%N
  else if ((97 <=? c) && (c <=? 102))%N then Some (c - 87)%N
  else if ((65 <=? c) && (c <=? 70))%N then Some (c - 55)%N
  else None.

Definition hex4 (a b c d : N) : option N :=
  match hex_val a, hex_val b, hex_val c, hex_val d with
  | Some x, Some y, Some z, Some w => Some (((x * 16 + y) * 16 + z) * 16 + w)%N
  | _, _, _, _ => None
  end.

(** The single-character escapes of a JSON string. *)
Definition simple_escape (e : N) : option N :=
  if (e =? 34)%N then Some 34%N          (* quote *)
  else if (e =? 92)%N then Some 92%N     (* backslash *)
  else if (e =? 47)%N then Some 47%N     (* slash *)
  else if (e =? 98)%N then Some 8%N      (* b: backspace *)
  else if (e =? 102)%N then Some 12%N    (* f: form feed *)
  else if (e =? 110)%N then Some 10%N    (* n: line feed *)
  else if (e =? 114)%N then Some 13%N    (* r: carriage return *)
  else if (e =? 116)%N then Some 9%N     (* t: tab *)
  else None.

(** The characters of a string after its opening quote, up to and including
    the closing quote. *)
Fixpoint parse_string_body (s : jstring) : option (jstring * jstring) :=
  match s with
  | [] => None
  | c :: r =>
      if (c =? 34)%N then Some ([], r)
      else if (c =? 92)%N then
        match r with
        | [] => None
        | e :: r1 =>
            if (e =? 117)%N then
              match r1 with
              | h1 :: h2 :: h3 :: h4 :: r2 =>
                  match hex4 h1 h2 h3 h4 with
                  | Some u =>
                      match parse_string_body r2 with
                      | Some (body, rest) => Some (u :: body, rest)
                      | None => None
                      end
                  | None => None
                  end
              | _ => None
              end
            else
              match simple_escape e with
              | Some u =>
                  match parse_string_body r1 with
                  | Some (body, rest) => Some (u :: body, rest)
                  | None => None
                  end
              | None => None
              end
        end
      else if (c <? 32)%N then None
      else
        match parse_string_body r with
        | Some (body, rest) => Some (c :: body, rest)
        | None => None
        end
  end.

Fixpoint span_digits (s : jstring) : jstring * jstring :=
  match s with
  | c :: r =>
      if is_digit c then let '(ds, rest) := span_digits r in (c :: ds, rest)
      else ([], s)
  | [] => ([], [])
  end.

(** A JSON number: an optional minus sign, an integer part (a single zero,
    or a non-zero digit and more digits), an optional fraction (a dot and at
    least one digit) and an optional exponent (e or E, an optional sign and
    at least one digit). *)
Definition parse_int_part (s : jstring) : option (jstring * jstring) :=
  match s with
  | c :: r =>
      if (c =? 48)%N then Some ([c], r)
      else if is_digit c then let '(ds, rest) := span_digits r in Some (c :: ds, rest)
      else None
  | [] => None
  end.

Definition parse_frac_part (s : jstring) : option (jstring * jstring) :=
  match s with
  | c :: r =>
      if (c =? 46)%N then
        match span_digits r with
        | ([], _) => None
        | (ds, rest) => Some (c :: ds, rest)
        end
      else Some ([], s)
  | [] => Some ([], [])
  end.

Definition parse_exp_digits (pre : jstring) (s : jstring) : option (jstring * jstring) :=
  match span_digits s with
  | ([], _) => None
  | (ds, rest) => Some (pre ++ ds, rest)
  end.

Definition parse_exp_part (s : jstring) : option (jstring * jstring) :=
  match s with
  | c :: r =>
      if ((c =? 101) || (c =? 69))%N then
        match r with
        | g :: r1 =>
            if ((g =? 43) || (g =? 45))%N then parse_exp_digits [c; g] r1
            else parse_exp_digits [c] r
        | [] => None
        end
      else Some ([], s)
  | [] => Some ([], [])
  end.

Definition parse_number (s : jstring) : option (jstring * jstring) :=
  let '(sign, s1) :=
    match s with
    | c :: r => if (c =? 45)%N then ([c], r) else ([], s)
    | [] => ([], [])
    end in
  match parse_int_part s1 with
  | None => None
  | Some (ip, s2) =>
      match parse_frac_part s2 with
      | None => None
      | Some (fp, s3) =>
          match parse_exp_part s3 with
          | None => None
          | Some (ep, s4) => Some (sign ++ ip ++ fp ++ ep, s4)
          end
      end
  end.

(** [expect w s]: [s] without its prefix [w], when it has that prefix. *)
Fixpoint expect (w s : jstring) : option jstring :=
  match w with
  | [] => Some s
  | a :: w' =>
      match s with
      | c :: r => if (a =? c)%N then expect w' r else None
      | [] => None
      end
  end.

(** The elements of an array after the first bracket, [pv] parsing a value:
    values separated by commas, up to the closing bracket.  [n] bounds the
    number of elements by the length of the text. *)
Fixpoint parse_elements (pv : jstring -> option (json * jstring))
    (n : nat) (acc : list json) (s : jstring) : option (json * jstring) :=
  match n with
  | O => None
  | S n' =>
      match pv s with
      | None => None
      | Some (v, rest) =>
          match skip_ws rest with
          | c :: r =>
              if (c =? 44)%N then parse_elements pv n' (acc ++ [v]) (skip_ws r)
              else if (c =? 93)%N then Some (JArr (acc ++ [v]), r)
              else None
          | [] => None
          end
      end
  end.

(** The members of an object after the opening brace: a string, a colon and
    a value, separated by commas, up to the closing brace.  A later member
    replaces an earlier one of the same key. *)
Fixpoint parse_members (pv : jstring -> option (json * jstring))
    (n : nat) (acc : list (jstring * json)) (s : jstring) : option (json * jstring) :=
  match n with
  | O => None
  | S n' =>
      match s with
      | q :: r0 =>
          if (q =? 34)%N then
            match parse_string_body r0 with
            | None => None
            | Some (k, r1) =>
                match skip_ws r1 with
                | c1 :: r2 =>
                    if (c1 =? 58)%N then
                      match pv (skip_ws r2) with
                      | None => None
                      | Some (v, r3) =>
                          match skip_ws r3 with
                          | c :: r =>
                              if (c =? 44)%N then
                                parse_members pv n' (obj_set acc k v) (skip_ws r)
                              else if (c =? 125)%N then Some (JObj (obj_set acc k v), r)
                              else None
                          | [] => None
                          end
                      end
                    else None
                | [] => None
                end
            end
          else None
      | [] => None
      end
  end.

(** The recursive-descent parser of a value.  [fuel] bounds the depth of
    nesting; [JSON_parse] supplies enough of it (see [parse_value_fuel]). *)
Fixpoint parse_value (fuel : nat) (s : jstring) : option (json * jstring) :=
  match fuel with
  | O => None
  | S fuel' =>
      match s with
      | [] => None
      | c :: r =>
          if (c =? 123)%N then
            match skip_ws r with
            | c' :: r' =>
                if (c' =? 125)%N then Some (JObj [], r')
                else parse_members (parse_value fuel') (length r) [] (c' :: r')
            | [] => None
            end
          else if (c =? 91)%N then
            match skip_ws r with
            | c' :: r' =>
                if (c' =? 93)%N then Some (JArr [], r')
                else parse_elements (parse_value fuel') (length r) [] (c' :: r')
            | [] => None
            end
          else if (c =? 34)%N then
            match parse_string_body r with
            | Some (str, rest) => Some (JStr str, rest)
            | None => None
            end
          else if (c =? 116)%N then
            match expect (lit "rue") r with
            | Some rest => Some (JBool true, rest)
            | None => None
            end
          else if (c =? 102)%N then
            match expect (lit "alse") r with
            | Some rest => Some (JBool false, rest)
            | None => None
            end
          else if (c =? 110)%N then
            match expect (lit "ull") r with
            | Some rest => Some (JNull, rest)
            | None => None
            end
          else
            match parse_number s with
            | Some (lexeme, rest) => Some (JNum lexeme, rest)
            | None => None
            end
      end
  end.

(** [JSON.parse(text)]: one value between optional white space; [None] when
    [JSON.parse] throws a [SyntaxError]. *)
Definition JSON_parse (text : jstring) : option json :=
  match parse_value (S (length text)) (skip_ws text) with
  | Some (v, rest) =>
      match skip_ws rest with
      | [] => Some v
      | _ :: _ => None
      end
  | None => None
  end.

(** Whether a number that ends where [t] starts is not continued by [t]. *)
Definition ends_number (t : jstring) : bool :=
  match t with
  | [] => true
  | c :: _ => negb (is_digit c || (c =? 46) || (c =? 101) || (c =? 69))%N
  end.

(** *** String.prototype.trim *)

(** White space and line terminators of ECMAScript, as [trim] removes them. *)
Definition is_js_space (c : N) : bool :=
  ((c =? 9) || (c =? 10) || (c =? 11) || (c =? 12) || (c =? 13) || (c =? 32)
   || (c =? 160) || (c =? 5760) || ((8192 <=? c) && (c <=? 8202))
   || (c =? 8232) || (c =? 8233) || (c =? 8239) || (c =? 8287)
   || (c =? 12288) || (c =? 65279))%N.

Fixpoint trim_start (s : jstring) : jstring :=
  match s with
  | c :: r => if is_js_space c then trim_start r else s
  | [] => []
  end.

Definition trim (s : jstring) : jstring :=
  rev (trim_start (rev (trim_start s))).

(** A text with no white space at either end. *)
Definition tight (c : jstring) : Prop :=
  (exists x c', c = x :: c' /\ is_js_space x = false)
  /\ (exists c' y, c = c' ++ [y] /\ is_js_space y = false).

(** A text that starts with a character that is not JSON white space. *)
Definition starts_nonws (x : jstring) : Prop :=
  match x with
  | c :: _ => is_json_ws c = false
  | [] => False
  end.

(** A text that does not start with a digit. *)
Definition nondigit_head (t : jstring) : Prop :=
  match t with
  | c :: _ => is_digit c = false
  | [] => True
  end.

(** A text that ends with a digit. *)
Definition ends_digit (l : jstring) : Prop :=
  exists l' y, l = l' ++ [y] /\ is_digit y = true.

(** A value parser whose result depends only on the text it consumes: the
    text is tight, and [parse_value] with enough fuel parses it again in
    front of any text that does not continue a number. *)
Definition local_pv (pv : jstring -> option (json * jstring)) : Prop :=
  forall s v rest,
    pv s = Some (v, rest) ->
    exists c, s = c ++ rest /\ tight c
              /\ forall f' t, (length c <= f')%nat -> ends_number t = true ->
                              parse_value f' (c ++ t) = Some (v, t).

(** *** The fence pattern: three backquotes and json and an optional line
    feed, or an optional line feed and three backquotes *)

Definition fence : jstring := [96; 96; 96]%N.
Definition fence_json : jstring := fence ++ lit "json".

(** Length of the match of the pattern at the start of [s], if any.  The
    first alternative is tried first; an optional line feed is taken when it
    is there. *)
Definition match_fence (s : jstring) : option nat :=
  match expect fence_json s with
  | Some (10%N :: _) => Some 8%nat
  | Some _ => Some 7%nat
  | None =>
      match expect (10%N :: fence) s with
      | Some _ => Some 4%nat
      | None =>
          match expect fence s with
          | Some _ => Some 3%nat
          | None => None
          end
      end
  end.

(** [text.replace(pattern, '')] with the global flag: every match, from left
    to right, is removed.  [skip] counts the code units of the current match
    that are still to be dropped. *)
Fixpoint remove_fences (skip : nat) (s : jstring) : jstring :=
  match s with
  | [] => []
  | c :: r =>
      match skip with
      | S k => remove_fences k r
      | O =>
          match match_fence s with
          | Some (S k) => remove_fences k r
          | _ => c :: remove_fences 0 r
          end
      end
  end.

(** *** The object pattern: an opening brace, any characters, a closing
    brace (the star is greedy) *)

Fixpoint from_first (c : N) (s : jstring) : option jstring :=
  match s with
  | [] => None
  | x :: r => if (x =? c)%N then Some s else from_first c r
  end.

Fixpoint through_last (c : N) (s : jstring) : option jstring :=
  match s with
  | [] => None
  | x :: r =>
      match through_last c r with
      | Some p => Some (x :: p)
      | None => if (x =? c)%N then Some [x] else None
      end
  end.

(** [text.match(pattern)[0]]: from the first opening brace through the last
    closing brace after it; [None] when the pattern does not match. *)
Definition match_object (s : jstring) : option jstring :=
  match from_first 123 s with
  | Some t => through_last 125 t
  | None => None
  end.

(** *** encodeURIComponent *)

Definition uri_unreserved (c : N) : bool :=
  (((65 <=? c) && (c <=? 90)) || ((97 <=? c) && (c <=? 122)) || is_digit c
   || (c =? 45) || (c =? 95) || (c =? 46) || (c =? 33) || (c =? 126)
   || (c =? 42) || (c =? 39) || (c =? 40) || (c =? 41))%N.

Definition hex_digit (n : N) : N :=
  if (n <? 10)%N then (48 + n)%N else (55 + n)%N.

Definition percent (byte : N) : jstring :=
  [37%N; hex_digit (byte / 16); hex_digit (byte mod 16)].

Definition utf8 (cp : N) : list N :=
  if (cp <? 128)%N then [cp]
  else if (cp <? 2048)%N then [192 + cp / 64; 128 + cp mod 64]%N
  else if (cp <? 65536)%N then
    [224 + cp / 4096; 128 + (cp / 64) mod 64; 128 + cp mod 64]%N
  else
    [240 + cp / 262144; 128 + (cp / 4096) mod 64;
     128 + (cp / 64) mod 64; 128 + cp mod 64]%N.

Definition escape_code_point (cp : N) : jstring :=
  concat (map percent (utf8 cp)).

Definition is_high_surrogate (c : N) : bool := ((55296 <=? c) && (c <=? 56319))%N.
Definition is_low_surrogate (c : N) : bool := ((56320 <=? c) && (c <=? 57343))%N.

(** [None] when [encodeURIComponent] throws a [URIError] (a lone surrogate). *)
Fixpoint encodeURIComponent (s : jstring) : option jstring :=
  match s with
  | [] => Some []
  | c :: r =>
      if uri_unreserved c then
        match encodeURIComponent r with
        | Some t => Some (c :: t)
        | None => None
        end
      else if is_low_surrogate c then None
      else if is_high_surrogate c then
        match r with
        | d :: r' =>
            if is_low_surrogate d then
              match encodeURIComponent r' with
              | Some t =>
                  Some (escape_code_point
                          (65536 + (c - 55296) * 1024 + (d - 56320))%N ++ t)
              | None => None
              end
            else None
        | [] => None
        end
      else
        match encodeURIComponent r with
        | Some t => Some (escape_code_point c ++ t)
        | None => None
        end
  end.

(** *** Conversion to string, and object spread *)

(** Decimal digits of an array index. *)
Fixpoint index_digits (fuel n : nat) (acc : jstring) : jstring :=
  match fuel with
  | O => acc
  | S fuel' =>
      let acc' := (48 + N.of_nat (n mod 10))%N :: acc in
      if (n <? 10)%nat then acc' else index_digits fuel' (n / 10) acc'
  end.

Definition index_key (i : nat) : jstring := index_digits (S i) i [].

Section ToString.

(** [Number::toString] of the number a JSON lexeme denotes: the conversion
    goes through the nearest double and is left to the environment. *)
Variable Number_toString : jstring -> jstring.

Definition join_comma (parts : list jstring) : jstring :=
  match parts with
  | [] => []
  | p :: ps => p ++ concat (map (fun q => 44%N :: q) ps)
  end.

(** [String(v)] as a template literal and [encodeURIComponent] apply it;
    [None] when the conversion throws a [TypeError].  An array is its
    elements joined with commas, [null] elements being empty.  An object is
    converted by the [toString] of [Object.prototype], unless it has an own
    property [toString]: a value parsed from JSON is not callable, and the
    conversion then throws. *)
Fixpoint ToString (v : json) : option jstring :=
  match v with
  | JNull => Some (lit "null")
  | JBool true => Some (lit "true")
  | JBool false => Some (lit "false")
  | JNum lexeme => Some (Number_toString lexeme)
  | JStr s => Some s
  | JArr items =>
      option_map join_comma
        ((fix all (l : list json) : option (list jstring) :=
            match l with
            | [] => Some []
            | x :: r =>
                match match x with JNull => Some [] | _ => ToString x end, all r with
                | Some p, Some ps => Some (p :: ps)
                | _, _ => None
                end
            end) items)
  | JObj props =>
      match obj_get props (lit "toString") with
      | Some _ => None
      | None => Some (lit "[object Object]")
      end
  end.

(** [String(x)] where [x] may be [undefined]. *)
Definition ToString_opt (x : option json) : option jstring :=
  match x with
  | None => Some (lit "undefined")
  | Some v => ToString v
  end.

End ToString.

(** Property read [v.k] for a key that names neither an index nor a
    built-in property: [Throw] on [null] (a [TypeError]), [undefined] on
    everything that is not an object with that own property. *)
Definition get_property (v : json) (k : jstring) : completion (option json) :=
  match v with
  | JNull => Throw (ErrorObj (lit "Cannot read properties of null"))
  | JObj props => Return (obj_get props k)
  | _ => Return None
  end.

Fixpoint indexed {A} (f : A -> json) (i : nat) (l : list A) : list (jstring * json) :=
  match l with
  | [] => []
  | x :: r => (index_key i, f x) :: indexed f (S i) r
  end.

(** The own enumerable properties that an object spread copies. *)
Definition own_enumerable (v : json) : list (jstring * json) :=
  match v with
  | JObj props => props
  | JArr items => indexed (fun x => x) 0 items
  | JStr s => indexed (fun c => JStr [c]) 0 s
  | JNull | JBool _ | JNum _ => []
  end.

End Js.

(** ** The file system under the store *)

Module Fs.
Import Js.

(** A normalised absolute path: its segments, the root being [[]]. *)
Abbreviation path := (list jstring).

(** A regular file: readable with some data, or unreadable (reading it
    throws; so does writing over it). *)
Inductive entry (D : Type) : Type :=
| Unreadable
| Readable (data : D).
Arguments Unreadable {D}.
Arguments Readable {D} data.

(** The regular files, by path. *)
Abbreviation files D := (gmap path (entry D)).

(** The segments between the slashes of [s]. *)
Fixpoint split_slash (s : jstring) : list jstring :=
  match s with
  | [] => [[]]
  | c :: r =>
      if (c =? 47)%N then [] :: split_slash r
      else
        match split_slash r with
        | seg :: segs => (c :: seg) :: segs
        | [] => [[c]]
        end
  end.

(** One step of [path.normalize] on an absolute path: empty and dot segments
    are dropped, a dot-dot segment removes the segment before it (and is
    dropped at the root). *)
Definition push_segment (stack : path) (seg : jstring) : path :=
  if bool_decide (seg = [] \/ seg = lit ".") then stack
  else if bool_decide (seg = lit "..") then removelast stack
  else stack ++ [seg].

(** [path.join(base, rel)] for a normalised absolute [base] and a [rel] that
    does not end with a slash. *)
Definition path_join (base : path) (rel : jstring) : path :=
  fold_left push_segment (split_slash rel) base.

(** The store directory, [/tmp/analysis-jobs]; the constructor creates it
    when it is missing. *)
Definition storePath : path := [lit "tmp"; lit "analysis-jobs"].

(** The directories: the store never creates one besides its own, so the
    model has the store directory and its ancestors and no other. *)
Definition directories : list path := [[]; [lit "tmp"]; storePath].

Definition is_dir (p : path) : bool := bool_decide (p ∈ directories).

Inductive node (D : Type) : Type :=
| Missing
| Directory
| File (e : entry D).
Arguments Missing {D}.
Arguments Directory {D}.
Arguments File {D} e.

(** What a path names: a file is found only in an existing directory. *)
Definition stat {D} (fs : files D) (p : path) : node D :=
  if is_dir p then Directory
  else if is_dir (removelast p) then
    match fs !! p with
    | Some e => File e
    | None => Missing
    end
  else Missing.

Definition ENOENT : exn := ErrorObj (lit "ENOENT: no such file or directory").
Definition EISDIR : exn := ErrorObj (lit "EISDIR: illegal operation on a directory").
Definition EACCES : exn := ErrorObj (lit "EACCES: permission denied").

Definition existsSync {D} (fs : files D) (p : path) : bool :=
  match stat fs p with
  | Missing => false
  | _ => true
  end.

Definition readFileSync {D} (fs : files D) (p : path) : completion D :=
  match stat fs p with
  | File (Readable d) => Return d
  | File Unreadable => Throw EACCES
  | Directory => Throw EISDIR
  | Missing => Throw ENOENT
  end.

Definition writeFileSync {D} (fs : files D) (p : path) (d : D) : completion (files D) :=
  match stat fs p with
  | Directory => Throw EISDIR
  | File Unreadable => Throw EACCES
  | File (Readable _) => Return (<[p := Readable d]> fs)
  | Missing =>
      if is_dir (removelast p) then Return (<[p := Readable d]> fs)
      else Throw ENOENT
  end.

Definition unlinkSync {D} (fs : files D) (p : path) : completion (files D) :=
  match stat fs p with
  | File _ => Return (delete p fs)
  | Directory => Throw EISDIR
  | Missing => Throw ENOENT
  end.

(** A file name: not empty, not dot or dot-dot, without a slash. *)
Definition valid_name (name : jstring) : bool :=
  bool_decide (name <> [] /\ name <> lit "." /\ name <> lit ".." /\ 47%N ∉ name).

(** The name of [p] inside the directory [d], when [p] is a file there. *)
Definition child_name (d p : path) : option jstring :=
  match last p with
  | Some name =>
      if bool_decide (p = d ++ [name]) && valid_name name && negb (is_dir p)
      then Some name else None
  | None => None
  end.

Definition child_dirs (d : path) : list jstring :=
  omap (fun q => match last q with
                 | Some name => if bool_decide (q = d ++ [name]) then Some name else None
                 | None => None
                 end) directories.

(** [fs.readdirSync(d)]: the names of the files and of the directories in
    [d], in the order the map enumerates them. *)
Definition readdirSync {D} (fs : files D) (d : path) : completion (list jstring) :=
  if is_dir d then
    Return (omap (fun kv => child_name d kv.1) (map_to_list fs) ++ child_dirs d)
  else Throw ENOENT.

(** [fs'] has lost files of [fs], and is otherwise the same. *)
Definition shrinks {D} (fs fs' : files D) : Prop :=
  forall p, fs' !! p = None \/ fs' !! p = fs !! p.

End Fs.

(** ** The job store ([src/lib/store.ts]) *)

Module Store.
Import Js Fs.

Inductive status : Type := pending | processing | completed | failed.

(** [interface AnalysisJob].  The [result] is kept as the JSON value the
    pipeline produced. *)
Record AnalysisJob : Type := mkJob {
  job_status : status;
  job_result : option json;
  job_error : option jstring;
  job_timestamp : Z
}.

(** [Partial<AnalysisJob>]: the fields an update carries. *)
Record JobUpdate : Type := mkUpdate {
  upd_status : option status;
  upd_result : option json;
  upd_error : option jstring;
  upd_timestamp : option Z
}.

(** The text of a file, up to what [JSON.parse] makes of it: the
    serialisation of a job, which parses back to that job, or text on which
    [JSON.parse] throws.  The store writes only the former; JSON text of
    another shape (a number, an object without a time stamp) is not
    modelled.  Inside a result, a number too large for a double would be
    serialised as [null]; like all of floating point, this is outside the
    model. *)
Inductive filedata : Type :=
| Garbage
| JobJson (j : AnalysisJob).

Definition JSON_stringify (j : AnalysisJob) : filedata := JobJson j.

Definition JSON_parse_job (d : filedata) : completion AnalysisJob :=
  match d with
  | JobJson j => Return j
  | Garbage => Throw (ErrorObj (lit "Unexpected token in JSON"))
  end.

Abbreviation store := (files filedata).

Definition getJobPath (id : jstring) : path :=
  path_join storePath (id ++ lit ".json").

Definition createJob (fs : store) (now : Z) (id : jstring) : completion (store * jstring) :=
  let job := mkJob pending None None now in
  fs' ← writeFileSync fs (getJobPath id) (JSON_stringify job);
  Return (fs', id).

(** One hour, in milliseconds. *)
Definition retention : Z := 60 * 60 * 1000.

(** [getJob]: the job, or [None] for [undefined].  The [try] block covers
    the read and the parse; its [catch] returns [undefined]. *)
Definition getJob (fs : store) (now : Z) (id : jstring) : store * option AnalysisJob :=
  let jobPath := getJobPath id in
  if negb (existsSync fs jobPath) then (fs, None)
  else
    match d ← readFileSync fs jobPath; JSON_parse_job d with
    | Throw _ => (fs, None)
    | Return job =>
        if now - job_timestamp job >? retention then
          match unlinkSync fs jobPath with
          | Return fs' => (fs', None)
          | Throw _ => (fs, None)
          end
        else (fs, Some job)
    end.

(** The object spread of [updateJob], with the new time stamp. *)
Definition merge (existingJob : AnalysisJob) (update : JobUpdate) (now : Z) : AnalysisJob :=
  {| job_status := default (job_status existingJob) (upd_status update);
     job_result := match upd_result update with
                   | Some r => Some r
                   | None => job_result existingJob
                   end;
     job_error := match upd_error update with
                  | Some e => Some e
                  | None => job_error existingJob
                  end;
     job_timestamp := now |}.

(** [updateJob]: [t_read] is the clock when [getJob] checks the age,
    [t_write] the clock when the new time stamp is taken. *)
Definition updateJob (fs : store) (t_read t_write : Z) (id : jstring) (update : JobUpdate)
  : store :=
  let jobPath := getJobPath id in
  let '(fs1, existingJob) := getJob fs t_read id in
  match existingJob with
  | Some existingJob =>
      let updatedJob := merge existingJob update t_write in
      match writeFileSync fs1 jobPath (JSON_stringify updatedJob) with
      | Return fs2 => fs2
      | Throw _ => fs1
      end
  | None => fs1
  end.

(** The body of the loop of [cleanup] for one file name: [None] when the
    [unlinkSync] of the inner [catch] throws, which ends the sweep. *)
Definition cleanup_file (oneHourAgo : Z) (fs : store) (file : jstring) : option store :=
  let jobPath := path_join storePath file in
  let attempt :=
    d ← readFileSync fs jobPath;
    job ← JSON_parse_job d;
    if job_timestamp job <? oneHourAgo then unlinkSync fs jobPath else Return fs in
  match attempt with
  | Return fs' => Some fs'
  | Throw _ =>
      match unlinkSync fs jobPath with
      | Return fs' => Some fs'
      | Throw _ => None
      end
  end.

Fixpoint cleanup_loop (oneHourAgo : Z) (names : list jstring) (fs : store) : store :=
  match names with
  | [] => fs
  | file :: rest =>
      match cleanup_file oneHourAgo fs file with
      | Some fs' => cleanup_loop oneHourAgo rest fs'
      | None => fs
      end
  end.

Definition cleanup (fs : store) (now : Z) : store :=
  let oneHourAgo := now - retention in
  match readdirSync fs storePath with
  | Return names => cleanup_loop oneHourAgo names fs
  | Throw _ => fs
  end.

End Store.

(** ** The analysis pipeline (the job-based analysis route) *)

Module Pipeline.
Import Js.

Definition cleanJsonResponse (text : jstring) : jstring :=
  let cleaned := trim (remove_fences 0 text) in
  cleaned.

(** What awaiting the call to the inference service gives: it throws, or it
    returns a response whose first choice has a message content, or has none
    ([None]). *)
Definition service_outcome : Type := completion (option jstring).

Section Analyze.

Variable Number_toString : jstring -> jstring.

Definition baseUrl : jstring := lit "https://pubmed.ncbi.nlm.nih.gov/?term=".

(** [searchPubMedPapers(ingredient)]; its argument is whatever
    [ingredient.name] is, [None] being [undefined]. *)
Definition searchPubMedPapers (ingredient : option json) : completion json :=
  match ToString_opt Number_toString ingredient with
  | None => Throw (ErrorObj (lit "Cannot convert object to primitive value"))
  | Some text =>
      match encodeURIComponent text with
      | None => Throw (ErrorObj (lit "URI malformed"))
      | Some searchTerm =>
          Return (JArr [JObj [(lit "title", JStr (lit "Research about " ++ text));
                              (lit "url", JStr (baseUrl ++ searchTerm))]])
      end
  end.

(** The function mapped over the ingredients: the ingredient with its
    [papers]. *)
Definition with_papers (ingredient : json) : completion json :=
  name ← get_property ingredient (lit "name");
  papers ← searchPubMedPapers name;
  Return (JObj (obj_set (own_enumerable ingredient) (lit "papers") papers)).

Fixpoint map_all {A B} (f : A -> completion B) (l : list A) : completion (list B) :=
  match l with
  | [] => Return []
  | x :: r =>
      y ← f x;
      ys ← map_all f r;
      Return (y :: ys)
  end.

(** [await Promise.all(parsedResponse.ingredients.map(...))]: calling [map]
    on anything but an array throws a [TypeError]. *)
Definition ingredientsWithPapers (parsedResponse : json) : completion (list json) :=
  ingredients ← get_property parsedResponse (lit "ingredients");
  match ingredients with
  | Some (JArr items) => map_all with_papers items
  | _ => Throw (ErrorObj (lit "parsedResponse.ingredients.map is not a function"))
  end.

(** The inner [try] block of [analyzeImage]. *)
Definition parse_and_enrich (cleanedContent : jstring) : completion json :=
  match JSON_parse cleanedContent with
  | None => Throw (ErrorObj (lit "Unexpected token in JSON"))
  | Some parsedResponse =>
      items ← ingredientsWithPapers parsedResponse;
      Return (JObj [(lit "ingredients", JArr items)])
  end.

(** The error of the inner [catch]. *)
Definition generic_failure : exn := ErrorObj (lit "Failed to parse analysis results").

(** The single citation that [searchPubMedPapers] builds for a name, given
    as a string, and its encoding. *)
Definition citation (name term : jstring) : json :=
  JArr [JObj [(lit "title", JStr (lit "Research about " ++ name));
              (lit "url", JStr (baseUrl ++ term))]].

Definition analyzeImage (service : service_outcome) : completion json :=
  content ← service;
  match content with
  | None | Some [] => Throw (ErrorObj (lit "No content in response"))
  | Some content =>
      let cleanedContent := cleanJsonResponse content in
      match parse_and_enrich cleanedContent with
      | Return result => Return result
      | Throw _ => Throw (ErrorObj (lit "Failed to parse analysis results"))
      end
  end.

End Analyze.

(** [extractJsonFromText] of the two-call route: the parsed value, or
    [JNull] for [null].  A [null] text makes [replace] throw, which the outer
    [catch] turns into [null]. *)
Definition extractJsonFromText (text : option jstring) : json :=
  match text with
  | None => JNull
  | Some text =>
      let cleanText := trim (remove_fences 0 text) in
      match JSON_parse cleanText with
      | Some v => v
      | None =>
          match match_object cleanText with
          | Some jsonMatch =>
              match JSON_parse jsonMatch with
              | Some v => v
              | None => JNull
              end
          | None => JNull
          end
      end
  end.

(** The closed set of classifications of the data model. *)
Definition classifications : list jstring :=
  [lit "high_risk"; lit "moderate_risk"; lit "healthy"].

(** The spec's wording of step 4 of the pipeline (shape validation), for
    comparison with the source.  An element passes when it is an
    object with a non-empty string [name], a [classification] in the closed
    set and a string [explanation]. *)
Definition spec_valid_ingredient (v : json) : bool :=
  match v with
  | JObj props =>
      match obj_get props (lit "name"), obj_get props (lit "classification"),
            obj_get props (lit "explanation") with
      | Some (JStr name), Some (JStr c), Some (JStr _) =>
          negb (bool_decide (name = [])) && bool_decide (c ∈ classifications)
      | _, _, _ => false
      end
  | _ => false
  end.

(** The spec's wording, continued: a parsed response passes validation when its
    [ingredients] is an array of valid elements. *)
Definition spec_valid_response (v : json) : bool :=
  match v with
  | JObj props =>
      match obj_get props (lit "ingredients") with
      | Some (JArr items) => forallb spec_valid_ingredient items
      | _ => false
      end
  | _ => false
  end.

(** The spec's wording of step 3 of the pipeline, for comparison with the
    source: the first top-level braced object of a text by brace matching, from the first opening brace to the closing brace that
    brings the nesting depth back to zero. *)
Fixpoint spec_matching_brace (depth : nat) (s : jstring) : option jstring :=
  match s with
  | [] => None
  | c :: r =>
      if (c =? 123)%N then
        match spec_matching_brace (S depth) r with
        | Some t => Some (c :: t)
        | None => None
        end
      else if (c =? 125)%N then
        match depth with
        | O => None
        | 1%nat => Some [c]
        | S d => match spec_matching_brace d r with
                 | Some t => Some (c :: t)
                 | None => None
                 end
        end
      else
        match spec_matching_brace depth r with
        | Some t => Some (c :: t)
        | None => None
        end
  end.

Definition spec_first_object (s : jstring) : option jstring :=
  match from_first 123 s with
  | Some t => spec_matching_brace 0 t
  | None => None
  end.

(** The spec's wording of the parse step (step 3); [None] is the
    ParseFailure. *)
Definition spec_parse_step (text : jstring) : option json :=
  let cleaned := cleanJsonResponse text in
  match JSON_parse cleaned with
  | Some v => Some v
  | None =>
      match spec_first_object cleaned with
      | Some obj => JSON_parse obj
      | None => None
      end
  end.

End Pipeline.

(** ** The endpoints *)

Module Routes.
Import Js Fs Store Pipeline.

Inductive body : Type :=
| ErrorBody (error : jstring)
| JobIdBody (jobId : jstring)
| JobBody (job : AnalysisJob).

(** A [NextResponse.json(body, {status})]. *)
Record response : Type := mkResponse {
  http_status : Z;
  http_body : body
}.

(** A value of a form field: text, or a file with its type and bytes. *)
Inductive form_value : Type :=
| FormText (s : jstring)
| FormFile (type : jstring) (bytes : list N).

(** What [await req.formData()] gives: the fields in order, or it throws. *)
Definition request : Type := completion (list (jstring * form_value)).

(** [formData.get(name)]: the first value of that name, [None] for [null]. *)
Fixpoint formData_get (fields : list (jstring * form_value)) (name : jstring)
  : option form_value :=
  match fields with
  | [] => None
  | (k, v) :: rest => if eqs k name then Some v else formData_get rest name
  end.

(** [!image] is false for a file and for a non-empty text. *)
Definition truthy (image : option form_value) : bool :=
  match image with
  | None => false
  | Some (FormText []) => false
  | Some _ => true
  end.

(** Where [POST] stands after its synchronous beginning: it has responded, or
    it has created the job and awaits [image.arrayBuffer()]. *)
Inductive post_state : Type :=
| Responded (r : response)
| Awaiting (jobId : jstring) (image : form_value).

Definition failed_to_start : response :=
  mkResponse 500 (ErrorBody (lit "Failed to start analysis")).

(** [POST] up to the creation of the job.  [uuid] is what
    [crypto.randomUUID()] returns, [now] the clock in [createJob]. *)
Definition POST_begin (fs : store) (req : request) (uuid : jstring) (now : Z)
  : store * post_state :=
  match req with
  | Throw _ => (fs, Responded failed_to_start)
  | Return formData =>
      let image := formData_get formData (lit "image") in
      if negb (truthy image) then
        (fs, Responded (mkResponse 400 (ErrorBody (lit "No image provided"))))
      else
        match image, createJob fs now uuid with
        | Some image, Return (fs', jobId) => (fs', Awaiting jobId image)
        | _, _ => (fs, Responded failed_to_start)
        end
  end.

(** [POST] from [image.arrayBuffer()] on: a text field has no such method
    (the outer [catch] answers 500); otherwise the job is set to processing,
    the detached task is started ([true]) and the job id is returned. *)
Definition POST_resume (fs : store) (jobId : jstring) (image : form_value)
    (t_read t_write : Z) : store * response * bool :=
  match image with
  | FormText _ => (fs, failed_to_start, false)
  | FormFile _ _ =>
      let fs' := updateJob fs t_read t_write jobId
                   (mkUpdate (Some processing) None None None) in
      (fs', mkResponse 200 (JobIdBody jobId), true)
  end.

(** The detached task: [service] is the outcome of the call to the inference
    service, [t_lit] the clock in the update literal, [t_read] and [t_write]
    the clocks inside [updateJob].  It returns the store: nothing is thrown. *)
Definition pipeline_task (Number_toString : jstring -> jstring) (fs : store)
    (jobId : jstring) (service : service_outcome) (t_lit t_read t_write : Z) : store :=
  match analyzeImage Number_toString service with
  | Return result =>
      updateJob fs t_read t_write jobId
        (mkUpdate (Some completed) (Some result) None (Some t_lit))
  | Throw error =>
      updateJob fs t_read t_write jobId
        (mkUpdate (Some failed) None
           (Some match error with
                 | ErrorObj message => message
                 | NotAnError => lit "Unknown error"
                 end)
           (Some t_lit))
  end.

(** The status route: [jobId] is [searchParams.get('jobId')]. *)
Definition GET (fs : store) (now : Z) (jobId : option jstring) : store * response :=
  match jobId with
  | None | Some [] => (fs, mkResponse 400 (ErrorBody (lit "No jobId provided")))
  | Some jobId =>
      let '(fs', job) := getJob fs now jobId in
      match job with
      | None => (fs', mkResponse 404 (ErrorBody (lit "Job not found")))
      | Some job => (fs', mkResponse 200 (JobBody job))
      end
  end.

End Routes.

(** ** Runs of the store and of one job *)

Module Runs.
Import Js Fs Store Pipeline Routes.

(** A call of the store's interface, with the clock readings it makes. *)
Inductive store_op : Type :=
| OpCreate (id : jstring) (now : Z)
| OpUpdate (id : jstring) (t_read t_write : Z) (update : JobUpdate)
| OpGet (id : jstring) (now : Z)
| OpCleanup (now : Z).

(** The store after a call; a [createJob] that throws leaves it as it was. *)
Definition run_op (fs : store) (op : store_op) : store :=
  match op with
  | OpCreate id now =>
      match createJob fs now id with
      | Return (fs', _) => fs'
      | Throw _ => fs
      end
  | OpUpdate id t_read t_write update => updateJob fs t_read t_write id update
  | OpGet id now => (getJob fs now id).1
  | OpCleanup now => cleanup fs now
  end.

Definition run_ops (fs : store) (ops : list store_op) : store :=
  fold_left run_op ops fs.

(** The ids that a run passes to [createJob]. *)
Definition created_ids (ops : list store_op) : list jstring :=
  omap (fun op => match op with OpCreate id _ => Some id | _ => None end) ops.

(** The job stored for [id], when its file holds one. *)
Definition record (fs : store) (id : jstring) : option AnalysisJob :=
  match stat fs (getJobPath id) with
  | File (Readable (JobJson j)) => Some j
  | _ => None
  end.

(** Where a submission stands: [POST] awaits the bytes of the image, the
    detached task runs, the task has ended, or [POST] has given up after
    creating the job. *)
Inductive phase : Type :=
| AwaitingBuffer (image : form_value)
| Running
| Done
| Aborted.

Definition rank (s : status) : nat :=
  match s with
  | pending => 0
  | processing => 1
  | completed | failed => 2
  end.

Definition terminal (s : status) : bool :=
  match s with
  | completed | failed => true
  | pending | processing => false
  end.

Section OneJob.

Variable Number_toString : jstring -> jstring.

(** The id that [crypto.randomUUID()] gave to the submission. *)
Variable jobId : jstring.

(** The steps of the system while the job of one submission lives: the
    continuation of its [POST], the end of its detached task, and around
    them any status check, any sweep, and the store calls made for jobs
    kept in other files. *)
Inductive step : store * phase -> store * phase -> Prop :=
| step_resume fs image t_read t_write fs' r :
    POST_resume fs jobId image t_read t_write = (fs', r, true) ->
    step (fs, AwaitingBuffer image) (fs', Running)
| step_abort fs image t_read t_write fs' r :
    POST_resume fs jobId image t_read t_write = (fs', r, false) ->
    step (fs, AwaitingBuffer image) (fs', Aborted)
| step_task fs service t_lit t_read t_write :
    step (fs, Running)
         (pipeline_task Number_toString fs jobId service t_lit t_read t_write, Done)
| step_status fs ph now id :
    step (fs, ph) ((GET fs now id).1, ph)
| step_cleanup fs ph now :
    step (fs, ph) (cleanup fs now, ph)
| step_other_create fs ph id now fs' :
    getJobPath id <> getJobPath jobId ->
    createJob fs now id = Return (fs', id) ->
    step (fs, ph) (fs', ph)
| step_other_update fs ph id t_read t_write update :
    getJobPath id <> getJobPath jobId ->
    step (fs, ph) (updateJob fs t_read t_write id update, ph).

(** The states of a submission: from the one in which [POST] has created
    the job, along the steps. *)
Inductive reachable : store * phase -> Prop :=
| reach_created fs req now fs' image :
    POST_begin fs req jobId now = (fs', Awaiting jobId image) ->
    reachable (fs', AwaitingBuffer image)
| reach_step s s' :
    reachable s -> step s s' -> reachable s'.

End OneJob.

(** At most one of [result] and [error], each only with its status. *)
Definition consistent (j : AnalysisJob) : Prop :=
  (job_result j <> None -> job_status j = completed /\ job_error j = None)
  /\ (job_error j <> None -> job_status j = failed /\ job_result j = None).

(** What the job of a submission looks like in each phase. *)
Definition phase_ok (ph : phase) (j : AnalysisJob) : Prop :=
  match ph with
  | AwaitingBuffer _ | Aborted =>
      job_status j = pending /\ job_result j = None /\ job_error j = None
  | Running =>
      job_status j = processing /\ job_result j = None /\ job_error j = None
  | Done =>
      (job_status j = completed /\ job_result j <> None /\ job_error j = None)
      \/ (job_status j = failed /\ job_result j = None /\ job_error j <> None)
  end.

(** The file of the job is missing, or it stores a job that fits the
    phase. *)
Definition lifecycle_inv (jobId : jstring) (s : store * phase) : Prop :=
  match stat s.1 (getJobPath jobId) with
  | Missing => True
  | File (Readable (JobJson j)) => phase_ok s.2 j
  | _ => False
  end.

(** The message that the detached task stores for what it caught. *)
Definition error_message (error : exn) : jstring :=
  match error with
  | ErrorObj message => message
  | NotAnError => lit "Unknown error"
  end.

(** Which entries a sweep at [now] removes. *)
Definition swept (now : Z) (e : entry filedata) : bool :=
  match e with
  | Unreadable => true
  | Readable Garbage => true
  | Readable (JobJson j) => job_timestamp j <? now - retention
  end.

(** Whether [p] is a file of the store directory. *)
Definition in_store_dir (p : path) : bool :=
  match child_name storePath p with
  | Some _ => true
  | None => false
  end.

End Runs.

(** ** The configuration ([src/lib/config.ts]) *)

Module Config.
Import Js.

(** [key.replace(pattern, '')] with the global pattern of the two quote
    characters, the double quote and the apostrophe. *)
Definition remove_quotes (key : jstring) : jstring :=
  List.filter (fun c : N => negb ((c =? 34) || (c =? 39))%N) key.

(** [cleanApiKey]; [env] is [process.env.OPENAI_API_KEY], [None] when the
    variable is not set. *)
Definition cleanApiKey (env : option jstring) : option jstring :=
  option_map (fun key => trim (remove_quotes key)) env.

(** [config.openai.apiKey]: the clean key, or the empty string. *)
Definition apiKey (env : option jstring) : jstring :=
  match cleanApiKey env with
  | Some (c :: key) => c :: key
  | Some [] | None => []
  end.

Definition key_required : exn :=
  ErrorObj (lit "OPENAI_API_KEY is required. Please check your .env file and ensure it contains your API key.").

Definition validateEnv (env : option jstring) : completion unit :=
  match apiKey env with
  | [] => Throw key_required
  | _ :: _ => Return tt
  end.

End Config.

(** ** The two-call analysis route *)

Module TwoCall.
Import Js Pipeline Routes Config.

(** The body of an answer: an error with its optional details, or the
    analysis with the text that the first call extracted ([None] for
    [null]). *)
Inductive reply_body : Type :=
| Failure (error : jstring) (details : option jstring)
| Analysed (analysis : json) (extractedText : option jstring).

Record reply : Type := mkReply {
  reply_status : Z;
  reply_body_of : reply_body
}.

Section Post.

(** Whether the number a JSON lexeme denotes is zero, as a double; like the
    string of a number, this is left to the environment. *)
Variable Number_is_zero : jstring -> bool.

(** [String(error)] of what was thrown. *)
Variable String_of_error : exn -> jstring.

(** Whether [process.env.NODE_ENV] is [development]. *)
Variable development : bool.

(** [!analysis] is false for these values. *)
Definition truthy_json (v : json) : bool :=
  match v with
  | JNull => false
  | JBool b => b
  | JNum lexeme => negb (Number_is_zero lexeme)
  | JStr s => negb (bool_decide (s = []))
  | JArr _ | JObj _ => true
  end.

Definition parse_failure : exn := ErrorObj (lit "Failed to parse analysis results").

(** The [try] block of [POST].  [env] is the variable of the API key, [req]
    what awaiting the form data gives, [textExtraction] and [analysis] what
    awaiting the first and the second call to the inference service gives:
    the content of the message of the first choice, or the call throws (so
    does reading the content of a response without a first choice). *)
Definition POST_try (env : option jstring) (req : request)
    (textExtraction analysis : service_outcome) : completion reply :=
  validateEnv env;;
  formData ← req;
  let image := formData_get formData (lit "image") in
  if negb (truthy image) then
    Return (mkReply 400 (Failure (lit "No image provided") None))
  else
    match image with
    | Some (FormFile _ _) =>
        extractedText ← textExtraction;
        analysisText ← analysis;
        let analysis := extractJsonFromText analysisText in
        if negb (truthy_json analysis) then Throw parse_failure
        else Return (mkReply 200 (Analysed analysis extractedText))
    | _ => Throw (ErrorObj (lit "image.arrayBuffer is not a function"))
    end.

(** The answer of the [catch] of [POST]. *)
Definition caught (error : exn) : reply :=
  mkReply 500
    (Failure
       match error with
       | ErrorObj message => message
       | NotAnError => lit "Failed to analyze image"
       end
       (if development then Some (String_of_error error) else None)).

Definition POST (env : option jstring) (req : request)
    (textExtraction analysis : service_outcome) : reply :=
  match POST_try env req textExtraction analysis with
  | Return r => r
  | Throw error => caught error
  end.

End Post.

End TwoCall.

(** ** The page that submits and polls *)

Module Client.
Import Js Store Pipeline Routes.

Record SummaryStats : Type := mkStats {
  total : nat;
  highRisk : nat;
  moderateRisk : nat;
  healthy : nat
}.

(** [classification === name], for what [ingredient.classification] reads. *)
Definition is_class (classification : option json) (name : jstring) : bool :=
  match classification with
  | Some (JStr s) => eqs s name
  | _ => false
  end.

Definition one_if (b : bool) : nat := if b then 1%nat else 0%nat.

(** The function that [calculateStats] folds over the ingredients. *)
Definition count (acc : SummaryStats) (ingredient : json) : completion SummaryStats :=
  classification ← get_property ingredient (lit "classification");
  Return {| total := (total acc + 1)%nat;
            highRisk :=
              (highRisk acc + one_if (is_class classification (lit "high_risk")))%nat;
            moderateRisk :=
              (moderateRisk acc + one_if (is_class classification (lit "moderate_risk")))%nat;
            healthy :=
              (healthy acc + one_if (is_class classification (lit "healthy")))%nat |}.

(** [array.reduce(f, init)]. *)
Fixpoint reduce {A B} (f : B -> A -> completion B) (l : list A) (acc : B) : completion B :=
  match l with
  | [] => Return acc
  | x :: r =>
      acc' ← f acc x;
      reduce f r acc'
  end.

Definition calculateStats (ingredients : list json) : completion SummaryStats :=
  reduce count ingredients (mkStats 0 0 0 0).

Definition getRiskLevel (classification : option json) : Z :=
  if is_class classification (lit "high_risk") then 3
  else if is_class classification (lit "moderate_risk") then 2
  else if is_class classification (lit "healthy") then 1
  else 0.

(** [Array.prototype.sort] with a comparison function.  The sort is stable:
    for a consistent comparison its result is that of inserting the
    elements, from the last to the first, each in front of the first element
    that it does not follow.  A comparison that throws ends the sort. *)
Fixpoint insert_by {A} (compare : A -> A -> completion Z) (a : A) (sorted : list A)
  : completion (list A) :=
  match sorted with
  | [] => Return [a]
  | b :: rest =>
      order ← compare a b;
      if order <=? 0 then Return (a :: sorted)
      else
        rest' ← insert_by compare a rest;
        Return (b :: rest')
  end.

Fixpoint sort {A} (compare : A -> A -> completion Z) (l : list A) : completion (list A) :=
  match l with
  | [] => Return []
  | a :: rest =>
      sorted ← sort compare rest;
      insert_by compare a sorted
  end.

(** The comparison function of [sortByRisk]; reading the classification of
    [null] throws. *)
Definition compare_risk (a b : json) : completion Z :=
  classification_b ← get_property b (lit "classification");
  classification_a ← get_property a (lit "classification");
  Return (getRiskLevel classification_b - getRiskLevel classification_a).

(** [sortByRisk]: a sorted copy of the list. *)
Definition sortByRisk (ingredients : list json) : completion (list json) :=
  sort compare_risk ingredients.

(** The risk level of an ingredient that is not [null]. *)
Definition risk_level (ingredient : json) : Z :=
  match ingredient with
  | JObj props => getRiskLevel (obj_get props (lit "classification"))
  | _ => 0
  end.

(** The ingredients of a level, in the order of the list. *)
Definition of_level (k : Z) (ingredients : list json) : list json :=
  List.filter (fun x => risk_level x =? k) ingredients.

(** The ingredients by falling level, and in each level as received. *)
Definition by_level (ingredients : list json) : list json :=
  of_level 3 ingredients ++ of_level 2 ingredients
  ++ of_level 1 ingredients ++ of_level 0 ingredients.

(** What one tick of the polling does to the page. *)
Inductive page_update : Type :=
| KeepPolling
| ShowAnalysis (analysis : option json)
| ShowError (message : jstring).

(** [message || fallback], for a string or [undefined]. *)
Definition or_else (message : option jstring) (fallback : jstring) : jstring :=
  match message with
  | Some (c :: r) => c :: r
  | Some [] | None => fallback
  end.

(** The property [error] of the body of an answer. *)
Definition body_error (b : body) : option jstring :=
  match b with
  | ErrorBody error => Some error
  | JobBody job => job_error job
  | JobIdBody _ => None
  end.

(** [response.ok]. *)
Definition ok (r : response) : bool :=
  (200 <=? http_status r) && (http_status r <=? 299).

(** The callback of the polling interval in [handleUpload]; [fetched] is
    what awaiting the [fetch] of the status route gives. *)
Definition poll (fetched : completion response) : page_update :=
  match fetched with
  | Throw (ErrorObj message) => ShowError message
  | Throw NotAnError => ShowError (lit "Failed to check analysis status")
  | Return statusResponse =>
      if http_status statusResponse =? 404 then
        ShowError (lit "Analysis job not found - please try again")
      else if negb (ok statusResponse) then
        ShowError (or_else (body_error (http_body statusResponse))
                     (lit "Failed to check analysis status"))
      else
        match http_body statusResponse with
        | JobBody job =>
            match job_status job with
            | completed => ShowAnalysis (job_result job)
            | failed => ShowError (or_else (job_error job) (lit "Analysis failed"))
            | pending | processing => KeepPolling
            end
        | ErrorBody _ | JobIdBody _ => KeepPolling
        end
  end.

End Client.

(** ** The page that waits for the answer of the two-call route *)

Module OlderPage.
Import Js TwoCall Client.

(** What [handleUpload] leaves on the page: the analysis it has set
    ([None] for [undefined]), or an error text. *)
Inductive page : Type :=
| Analysis (analysis : option json)
| ErrorShown (error : jstring).

(** [response.ok]. *)
Definition replied_ok (r : reply) : bool :=
  (200 <=? reply_status r) && (reply_status r <=? 299).

(** The properties [error] and [analysis] of the body of an answer. *)
Definition data_error (b : reply_body) : option jstring :=
  match b with
  | Failure error _ => Some error
  | Analysed _ _ => None
  end.

Definition data_analysis (b : reply_body) : option json :=
  match b with
  | Analysed analysis _ => Some analysis
  | Failure _ _ => None
  end.

(** The text of [setError] in the [catch]. *)
Definition advice (errorMessage : jstring) : jstring :=
  lit "Error: " ++ errorMessage ++ lit ". Please check your API key and try again.".

(** [handleUpload] once a file is selected; [fetched] is what awaiting the
    [fetch] of the route gives. *)
Definition handleUpload (fetched : completion reply) : page :=
  match fetched with
  | Throw (ErrorObj message) => ErrorShown (advice message)
  | Throw NotAnError => ErrorShown (advice (lit "Something went wrong"))
  | Return response =>
      let data := reply_body_of response in
      if negb (replied_ok response) then
        ErrorShown (advice (or_else (data_error data) (lit "Failed to analyze image")))
      else Analysis (data_analysis data)
  end.

End OlderPage.

(** ** The start of an upload on the polling page *)

Module Upload.
Import Js Store Routes Client.

(** The answer of [POST] as the page receives it: the two halves of [POST]
    in sequence, with the store they leave. *)
Definition POST_answer (fs : store) (req : request) (uuid : jstring)
    (t_create t_read t_write : Z) : store * response :=
  match POST_begin fs req uuid t_create with
  | (fs1, Responded r) => (fs1, r)
  | (fs1, Awaiting jobId image) =>
      let '(fs2, r, _) := POST_resume fs1 jobId image t_read t_write in
      (fs2, r)
  end.

(** Where [handleUpload] stands before the first tick of the polling: it
    polls for a job id ([None] for [undefined]), or it has set an error. *)
Inductive started : Type :=
| Polling (jobId : option jstring)
| StartError (message : jstring).

(** The property [jobId] of the body of an answer. *)
Definition body_jobId (b : body) : option jstring :=
  match b with
  | JobIdBody jobId => Some jobId
  | ErrorBody _ | JobBody _ => None
  end.

(** [handleUpload] up to the start of the polling.  [uploadFile] is the file
    to upload, [None] when none is selected; [fetch] stands for the request
    to the analysis route: it takes the form data and gives what awaiting
    the [fetch] gives. *)
Definition handleUpload (uploadFile : option form_value)
    (fetch : request -> completion response) : started :=
  match uploadFile with
  | None => StartError (lit "Please select an image first")
  | Some file =>
      match fetch (Return [(lit "image", file)]) with
      | Throw (ErrorObj message) => StartError message
      | Throw NotAnError => StartError (lit "Failed to analyze image")
      | Return startResponse =>
          if negb (ok startResponse) then
            StartError (or_else (body_error (http_body startResponse))
                          (lit "Failed to start analysis"))
          else Polling (body_jobId (http_body startResponse))
      end
  end.

End Upload.

(** * Properties *)

Import Js Fs Store Pipeline Routes Runs.

(** ** The file system *)

Section FsFacts.

Context {D : Type}.
Implicit Types (fs : files D) (p q : path).

Lemma stat_File_inv fs p e :
  stat fs p = File e ->
  is_dir p = false /\ is_dir (removelast p) = true /\ fs !! p = Some e.
Proof.
  unfold stat. destruct (is_dir p); [discriminate|].
  destruct (is_dir (removelast p)); [|discriminate].
  destruct (fs !! p); intros [=]; subst; auto.
Qed.

Lemma stat_File_intro fs p e :
  is_dir p = false -> is_dir (removelast p) = true -> fs !! p = Some e ->
  stat fs p = File e.
Proof. intros Hp Hd He. unfold stat. by rewrite Hp, Hd, He. Qed.

Lemma stat_insert_ne fs p q e : p <> q -> stat (<[p := e]> fs) q = stat fs q.
Proof. intros Hne. unfold stat. by rewrite lookup_insert_ne. Qed.

Lemma stat_delete_ne fs p q : p <> q -> stat (delete p fs) q = stat fs q.
Proof. intros Hne. unfold stat. by rewrite lookup_delete_ne. Qed.

Lemma stat_insert_eq fs p e e' :
  stat fs p = File e -> stat (<[p := e']> fs) p = File e'.
Proof.
  intros (Hp & Hd & _)%stat_File_inv. apply stat_File_intro; auto.
  apply lookup_insert_eq.
Qed.

Lemma stat_delete_eq fs p e : stat fs p = File e -> stat (delete p fs) p = Missing.
Proof.
  intros (Hp & Hd & _)%stat_File_inv. unfold stat.
  by rewrite Hp, Hd, lookup_delete_eq.
Qed.

Lemma shrinks_refl fs : shrinks fs fs.
Proof. intros p. by right. Qed.

Lemma shrinks_delete fs p : shrinks fs (delete p fs).
Proof.
  intros q. destruct (decide (p = q)) as [->|Hne].
  - left. apply lookup_delete_eq.
  - right. by apply lookup_delete_ne.
Qed.

Lemma shrinks_trans fs1 fs2 fs3 : shrinks fs1 fs2 -> shrinks fs2 fs3 -> shrinks fs1 fs3.
Proof.
  intros H12 H23 p. destruct (H23 p) as [?|E23]; [by left|].
  rewrite E23. apply H12.
Qed.

Lemma shrinks_Missing fs fs' p : shrinks fs fs' -> stat fs p = Missing -> stat fs' p = Missing.
Proof.
  intros Hs. unfold stat. destruct (is_dir p); [done|].
  destruct (is_dir (removelast p)); [|done].
  destruct (Hs p) as [-> | ->]; [done|]. by destruct (fs !! p).
Qed.

End FsFacts.

(** ** Paths of jobs *)

Lemma split_slash_plain (s : jstring) : 47%N ∉ s -> split_slash s = [s].
Proof.
  induction s as [|c r IH]; [done|]. intros Hnot.
  apply not_elem_of_cons in Hnot as [Hc Hr]. simpl.
  destruct (N.eqb_spec c 47) as [->|_]; [done|]. by rewrite IH.
Qed.

Lemma push_segment_name (stack : path) (name : jstring) :
  valid_name name = true -> push_segment stack name = stack ++ [name].
Proof.
  unfold valid_name, push_segment. intros (H1 & H2 & H3 & _)%bool_decide_eq_true.
  rewrite bool_decide_eq_false_2 by tauto.
  by rewrite bool_decide_eq_false_2.
Qed.

(** Inside the store directory, [path.join] with a file name appends it. *)
Lemma path_join_name (name : jstring) :
  valid_name name = true -> path_join storePath name = storePath ++ [name].
Proof.
  intros Hv. unfold path_join. rewrite split_slash_plain.
  - simpl. by apply push_segment_name.
  - apply bool_decide_eq_true in Hv. tauto.
Qed.

Lemma json_name_valid (id : jstring) : 47%N ∉ id -> valid_name (id ++ lit ".json") = true.
Proof.
  intros Hid. apply bool_decide_eq_true. repeat split.
  - by destruct id.
  - intros E. apply (f_equal length) in E. rewrite length_app in E. simpl in E. lia.
  - intros E. apply (f_equal length) in E. rewrite length_app in E. simpl in E. lia.
  - rewrite elem_of_app. intros [?|Hin]; [done|].
    vm_compute in Hin. repeat (apply elem_of_cons in Hin as [Hin|Hin]; [done|]).
    by apply elem_of_nil in Hin.
Qed.

(** An id without a slash names the file [id.json] of the store directory. *)
Lemma getJobPath_plain (id : jstring) :
  47%N ∉ id -> getJobPath id = storePath ++ [id ++ lit ".json"].
Proof. intros Hid. apply path_join_name. by apply json_name_valid. Qed.

Lemma getJobPath_plain_inj (id id' : jstring) :
  47%N ∉ id -> 47%N ∉ id' -> getJobPath id = getJobPath id' -> id = id'.
Proof.
  intros H1 H2. rewrite !getJobPath_plain by done.
  intros E. apply app_inv_head in E. injection E as E. by apply app_inv_tail in E.
Qed.

(** ** The store, call by call *)


Lemma getJob_unfold (fs : store) (now : Z) (id : jstring) :
  getJob fs now id =
  match stat fs (getJobPath id) with
  | File (Readable (JobJson j)) =>
      if now - job_timestamp j >? retention
      then (delete (getJobPath id) fs, None)
      else (fs, Some j)
  | _ => (fs, None)
  end.
Proof.
  unfold getJob, existsSync, readFileSync, unlinkSync.
  destruct (stat fs (getJobPath id)) as [| |[|[|j]]]; simpl; done.
Qed.

Lemma updateJob_unfold (fs : store) (t_read t_write : Z) (id : jstring) (u : JobUpdate) :
  updateJob fs t_read t_write id u =
  match stat fs (getJobPath id) with
  | File (Readable (JobJson j)) =>
      if t_read - job_timestamp j >? retention
      then delete (getJobPath id) fs
      else <[getJobPath id := Readable (JSON_stringify (merge j u t_write))]> fs
  | _ => fs
  end.
Proof.
  unfold updateJob. rewrite getJob_unfold.
  destruct (stat fs (getJobPath id)) as [| |[|[|j]]] eqn:Hst; try done.
  destruct (t_read - job_timestamp j >? retention); [done|].
  unfold writeFileSync. by rewrite Hst.
Qed.

Lemma createJob_unfold (fs : store) (now : Z) (id : jstring) :
  createJob fs now id =
  match stat fs (getJobPath id) with
  | File (Readable _) =>
      Return (<[getJobPath id := Readable (JobJson (mkJob pending None None now))]> fs, id)
  | Missing =>
      if is_dir (removelast (getJobPath id))
      then Return (<[getJobPath id := Readable (JobJson (mkJob pending None None now))]> fs, id)
      else Throw ENOENT
  | File Unreadable => Throw EACCES
  | Directory => Throw EISDIR
  end.
Proof.
  unfold createJob, writeFileSync.
  destruct (stat fs (getJobPath id)) as [| |[|d]]; try done.
  by destruct (is_dir (removelast (getJobPath id))).
Qed.

Lemma getJob_shrinks (fs : store) now id : shrinks fs (getJob fs now id).1.
Proof.
  rewrite getJob_unfold.
  destruct (stat fs (getJobPath id)) as [| |[|[|j]]]; try apply shrinks_refl.
  destruct (now - job_timestamp j >? retention); [apply shrinks_delete|apply shrinks_refl].
Qed.

(** ** The sweep *)

Lemma child_name_Some (d p : path) (name : jstring) :
  child_name d p = Some name <->
  p = d ++ [name] /\ valid_name name = true /\ is_dir p = false.
Proof.
  unfold child_name. split.
  - destruct (last p) as [n|]; [|done].
    destruct (bool_decide (p = d ++ [n])) eqn:E1; [|done].
    destruct (valid_name n) eqn:E2; [|done].
    destruct (is_dir p) eqn:E3; [done|]. simpl.
    intros [= ->]. by apply bool_decide_eq_true in E1.
  - intros (-> & Hv & Hd). rewrite last_snoc, Hv, Hd.
    by rewrite bool_decide_eq_true_2.
Qed.

Lemma is_dir_storePath : is_dir storePath = true.
Proof. by vm_compute. Qed.

Lemma removelast_snoc {A} (l : list A) (x : A) : removelast (l ++ [x]) = l.
Proof. by rewrite removelast_app, app_nil_r. Qed.

(** The loop body on the name of a file of the directory: the file goes when
    it is unreadable, unparsable or old, and the loop goes on. *)
Lemma cleanup_file_listed (oneHourAgo : Z) (fs : store) (name : jstring) e :
  valid_name name = true ->
  is_dir (storePath ++ [name]) = false ->
  fs !! (storePath ++ [name]) = Some e ->
  cleanup_file oneHourAgo fs name =
  Some (if swept (oneHourAgo + retention) e
        then delete (storePath ++ [name]) fs else fs).
Proof.
  intros Hv Hd He. unfold cleanup_file. rewrite path_join_name by done.
  assert (Hst : stat fs (storePath ++ [name]) = File e).
  { apply stat_File_intro; [done| |done]. by rewrite removelast_snoc. }
  unfold readFileSync, unlinkSync. rewrite Hst.
  destruct e as [|[|j]]; simpl; try done.
  replace (oneHourAgo + retention - retention) with oneHourAgo by lia.
  by destruct (job_timestamp j <? oneHourAgo).
Qed.

Lemma cleanup_loop_lookup (oneHourAgo : Z) (names : list jstring) :
  forall fs : store,
  NoDup names ->
  (forall n, n ∈ names ->
     valid_name n = true /\ is_dir (storePath ++ [n]) = false
     /\ is_Some (fs !! (storePath ++ [n]))) ->
  forall p,
    (forall n e, n ∈ names -> p = storePath ++ [n] -> fs !! p = Some e ->
       cleanup_loop oneHourAgo names fs !! p =
       if swept (oneHourAgo + retention) e then None else Some e)
    /\ ((forall n, n ∈ names -> p <> storePath ++ [n]) ->
        cleanup_loop oneHourAgo names fs !! p = fs !! p).
Proof.
  induction names as [|n0 names IH]; intros fs Hnd Hall p.
  - split; [intros n e Hn; by apply elem_of_nil in Hn|done].
  - apply NoDup_cons in Hnd as [Hn0 Hnd].
    destruct (Hall n0) as (Hv0 & Hd0 & [e0 He0]); [by left|].
    cbn [cleanup_loop]. rewrite (cleanup_file_listed _ _ _ e0) by done.
    set (fs' := if swept (oneHourAgo + retention) e0
                then delete (storePath ++ [n0]) fs else fs).
    assert (Hother : forall q, q <> storePath ++ [n0] -> fs' !! q = fs !! q).
    { intros q Hq. unfold fs'. destruct (swept _ e0); [|done].
      by rewrite lookup_delete_ne. }
    assert (Hall' : forall n, n ∈ names ->
              valid_name n = true /\ is_dir (storePath ++ [n]) = false
              /\ is_Some (fs' !! (storePath ++ [n]))).
    { intros n Hn. destruct (Hall n) as (? & ? & ?); [by right|].
      repeat split; try done. rewrite Hother; [done|].
      intros E. apply app_inv_head in E. injection E as ->. done. }
    destruct (IH fs' Hnd Hall' p) as [IH1 IH2]. split.
    + intros n e Hn -> He. apply elem_of_cons in Hn as [->|Hn].
      * rewrite He in He0. injection He0 as ->.
        rewrite IH2.
        -- unfold fs'. destruct (swept _ e0); [apply lookup_delete_eq|done].
        -- intros n Hn E. apply app_inv_head in E. injection E as ->. done.
      * apply (IH1 n e Hn eq_refl). rewrite Hother; [done|].
        intros E. apply app_inv_head in E. injection E as ->. done.
    + intros Hp. rewrite IH2.
      * apply Hother. apply Hp. by left.
      * intros n Hn. apply Hp. by right.
Qed.

Lemma readdirSync_storePath (fs : store) :
  readdirSync fs storePath =
  Return (omap (fun kv => child_name storePath kv.1) (map_to_list fs)).
Proof.
  unfold readdirSync. rewrite is_dir_storePath.
  replace (child_dirs storePath) with (@nil jstring) by (by vm_compute).
  by rewrite app_nil_r.
Qed.

Lemma NoDup_listing (fs : store) :
  NoDup (omap (fun kv : path * entry filedata => child_name storePath kv.1) (map_to_list fs)).
Proof.
  pose proof (NoDup_fst_map_to_list fs) as Hnd.
  induction (map_to_list fs) as [|[p e] l IH]; [constructor|].
  simpl in *. apply NoDup_cons in Hnd as [Hp Hnd].
  destruct (child_name storePath p) as [n|] eqn:Hn; [|by apply IH].
  apply NoDup_cons. split; [|by apply IH].
  intros ([q e'] & Hin & Hq)%list_elem_of_omap. simpl in Hq.
  apply child_name_Some in Hn as (-> & _). apply child_name_Some in Hq as (-> & _).
  apply Hp. apply list_elem_of_fmap. by exists (storePath ++ [n], e').
Qed.

Lemma listing_spec (fs : store) (n : jstring) :
  n ∈ omap (fun kv : path * entry filedata => child_name storePath kv.1) (map_to_list fs)
  <-> child_name storePath (storePath ++ [n]) = Some n
      /\ is_Some (fs !! (storePath ++ [n])).
Proof.
  rewrite list_elem_of_omap. split.
  - intros ([p e] & Hin & Hn). simpl in Hn.
    pose proof Hn as (-> & _)%child_name_Some.
    split; [done|]. apply elem_of_map_to_list in Hin. by exists e.
  - intros (Hn & [e He]). exists (storePath ++ [n], e). split; [|done].
    by apply elem_of_map_to_list.
Qed.

Lemma cleanup_lookup (fs : store) (now : Z) (p : path) :
  cleanup fs now !! p =
  match fs !! p with
  | Some e => if in_store_dir p && swept now e then None else Some e
  | None => None
  end.
Proof.
  unfold cleanup. cbv zeta. rewrite readdirSync_storePath. cbv beta iota.
  set (names := omap _ _).
  assert (Hall : forall n, n ∈ names ->
            valid_name n = true /\ is_dir (storePath ++ [n]) = false
            /\ is_Some (fs !! (storePath ++ [n]))).
  { intros n (Hn & Hs)%listing_spec. apply child_name_Some in Hn as (_ & ? & ?). done. }
  destruct (cleanup_loop_lookup (now - retention) names fs (NoDup_listing fs) Hall p)
    as [H1 H2].
  replace (now - retention + retention) with now in H1 by lia.
  unfold in_store_dir.
  destruct (child_name storePath p) as [n|] eqn:Hn.
  - pose proof Hn as (Hp & _)%child_name_Some.
    destruct (fs !! p) as [e|] eqn:He.
    + apply (H1 n e); [|done|done]. apply listing_spec. subst p. eauto.
    + etrans; [apply H2|done]. intros n' (_ & Hs)%listing_spec E.
      rewrite <- E, He in Hs. by destruct Hs.
  - etrans; [apply H2|by destruct (fs !! p)].
    intros n' (Hn' & _)%listing_spec ->. by rewrite Hn' in Hn.
Qed.

Lemma cleanup_shrinks (fs : store) (now : Z) : shrinks fs (cleanup fs now).
Proof.
  intros p. rewrite cleanup_lookup. destruct (fs !! p) as [e|]; [|by left].
  destruct (in_store_dir p && swept now e); [by left|by right].
Qed.

(** ** Runs of the store's interface *)

Lemma created_ids_spec (ops : list store_op) (id : jstring) :
  id ∈ created_ids ops <-> exists now, OpCreate id now ∈ ops.
Proof.
  unfold created_ids. rewrite list_elem_of_omap. split.
  - intros ([] & Hin & [=]); subst. eauto.
  - intros [now Hin]. by exists (OpCreate id now).
Qed.

(** Only [createJob] brings a file into being, and only at the path of its
    id. *)
Lemma run_op_keeps_missing (fs : store) (op : store_op) (p : path) :
  stat fs p = Missing ->
  (forall id now, op = OpCreate id now -> getJobPath id <> p) ->
  stat (run_op fs op) p = Missing.
Proof.
  intros Hp Hop. destruct op as [id now|id t_read t_write u|id now|now]; cbn [run_op].
  - rewrite createJob_unfold.
    destruct (stat fs (getJobPath id)) as [| |[|d]]; try done.
    + destruct (is_dir (removelast (getJobPath id))); [|done].
      rewrite stat_insert_ne; [done|]. by eapply Hop.
    + rewrite stat_insert_ne; [done|]. by eapply Hop.
  - rewrite updateJob_unfold.
    destruct (stat fs (getJobPath id)) as [| |[|[|j]]] eqn:Hst; try done.
    assert (getJobPath id <> p) by (intros E; rewrite E in Hst; congruence).
    destruct (t_read - job_timestamp j >? retention).
    + by rewrite stat_delete_ne.
    + by rewrite stat_insert_ne.
  - eapply shrinks_Missing; [apply getJob_shrinks|done].
  - eapply shrinks_Missing; [apply cleanup_shrinks|done].
Qed.

Lemma run_ops_keeps_missing (ops : list store_op) :
  forall (fs : store) (p : path),
  stat fs p = Missing ->
  (forall id, id ∈ created_ids ops -> getJobPath id <> p) ->
  stat (run_ops fs ops) p = Missing.
Proof.
  induction ops as [|op ops IH]; intros fs p Hp Hids; [done|].
  simpl. apply IH.
  - apply run_op_keeps_missing; [done|]. intros id now ->.
    apply Hids, created_ids_spec. exists now. by left.
  - intros id (now & Hin)%created_ids_spec. apply Hids, created_ids_spec.
    exists now. by right.
Qed.

(** ** The claims on the store *)

(** C3, as amended.  [getJob] returns absent, without changing the store,
    for an id whose file is missing at the start of a run in which no id
    passed to [createJob] names the same file; among ids without a slash,
    different ids name different files.  It returns absent and removes the
    file when the stored job is older than one hour (3600000 ms, strictly);
    it returns absent, changing nothing, when the file is unreadable or
    does not parse; otherwise it returns the stored job, changing nothing. *)
Theorem getJob_cases :
  (forall (fs0 : store) ops id now,
     stat fs0 (getJobPath id) = Missing ->
     (forall id', id' ∈ created_ids ops -> getJobPath id' <> getJobPath id) ->
     getJob (run_ops fs0 ops) now id = (run_ops fs0 ops, None))
  /\ (forall id id' : jstring,
        47%N ∉ id -> 47%N ∉ id' -> id' <> id -> getJobPath id' <> getJobPath id)
  /\ (forall (fs : store) now id j,
        stat fs (getJobPath id) = File (Readable (JobJson j)) ->
        now - job_timestamp j > 3600000 ->
        getJob fs now id = (delete (getJobPath id) fs, None)
        /\ stat (delete (getJobPath id) fs) (getJobPath id) = Missing)
  /\ (forall (fs : store) now id,
        stat fs (getJobPath id) = File Unreadable
        \/ stat fs (getJobPath id) = File (Readable Garbage) ->
        getJob fs now id = (fs, None))
  /\ (forall (fs : store) now id j,
        stat fs (getJobPath id) = File (Readable (JobJson j)) ->
        now - job_timestamp j <= 3600000 ->
        getJob fs now id = (fs, Some j)).
Proof.
  repeat split.
  - intros fs0 ops id now Hmiss Hids. rewrite getJob_unfold.
    by rewrite (run_ops_keeps_missing ops fs0 _ Hmiss Hids).
  - intros id id' Hid Hid' Hne E. apply Hne. by apply getJobPath_plain_inj.
  - rewrite getJob_unfold, H. unfold retention.
    destruct (Z.gtb_spec (now - job_timestamp j) (60 * 60 * 1000)); [done|lia].
  - by eapply stat_delete_eq.
  - intros fs now id [H|H]; by rewrite getJob_unfold, H.
  - intros fs now id j H Hage. rewrite getJob_unfold, H. unfold retention.
    destruct (Z.gtb_spec (now - job_timestamp j) (60 * 60 * 1000)); [lia|done].
Qed.

(** C4, as amended.  When the path of the id holds no job (nothing, or an
    unreadable or unparsable file), [updateJob] leaves the store unchanged
    and [getJob] is still absent.  When it holds a job not older than one
    hour, [updateJob] writes back the stored job with the supplied fields
    merged over it and the time stamp renewed.  When the stored job is older
    than one hour, [updateJob] removes the file and writes nothing. *)
Theorem updateJob_cases :
  (forall (fs : store) t_read t_write id u now,
     record fs id = None ->
     updateJob fs t_read t_write id u = fs /\ getJob fs now id = (fs, None))
  /\ (forall (fs : store) t_read t_write id u j,
        record fs id = Some j ->
        t_read - job_timestamp j <= 3600000 ->
        updateJob fs t_read t_write id u =
          <[getJobPath id := Readable (JobJson (merge j u t_write))]> fs
        /\ record (updateJob fs t_read t_write id u) id = Some (merge j u t_write)
        /\ job_timestamp (merge j u t_write) = t_write
        /\ job_status (merge j u t_write) = default (job_status j) (upd_status u))
  /\ (forall (fs : store) t_read t_write id u j,
        record fs id = Some j ->
        t_read - job_timestamp j > 3600000 ->
        updateJob fs t_read t_write id u = delete (getJobPath id) fs
        /\ record (updateJob fs t_read t_write id u) id = None).
Proof.
  unfold record. repeat split.
  - rewrite updateJob_unfold.
    by destruct (stat fs (getJobPath id)) as [| |[|[|j]]].
  - rewrite getJob_unfold.
    by destruct (stat fs (getJobPath id)) as [| |[|[|j]]].
  - rewrite updateJob_unfold.
    destruct (stat fs (getJobPath id)) as [| |[|[|j']]]; try done.
    injection H as ->. unfold retention.
    destruct (Z.gtb_spec (t_read - job_timestamp j) (60 * 60 * 1000)); [lia|done].
  - rewrite updateJob_unfold.
    destruct (stat fs (getJobPath id)) as [| |[|[|j']]] eqn:Hst; try done.
    injection H as ->. unfold retention.
    destruct (Z.gtb_spec (t_read - job_timestamp j) (60 * 60 * 1000)); [lia|].
    by rewrite (stat_insert_eq _ _ _ _ Hst).
  - rewrite updateJob_unfold.
    destruct (stat fs (getJobPath id)) as [| |[|[|j']]]; try done.
    injection H as ->. unfold retention.
    destruct (Z.gtb_spec (t_read - job_timestamp j) (60 * 60 * 1000)); [done|lia].
  - rewrite updateJob_unfold.
    destruct (stat fs (getJobPath id)) as [| |[|[|j']]] eqn:Hst; try done.
    injection H as ->. unfold retention.
    destruct (Z.gtb_spec (t_read - job_timestamp j) (60 * 60 * 1000)); [|lia].
    by rewrite (stat_delete_eq _ _ _ Hst).
Qed.

(** C8.  After [cleanup] at [now], a file of the store directory is gone
    when it was unreadable, unparsable, or a job whose time stamp is earlier
    than [now] minus one hour (3600000 ms); every other file, in the
    directory or not, is as before, and no file appears. *)
Theorem cleanup_removes_exactly (fs : store) (now : Z) :
  (forall p : path,
     cleanup fs now !! p =
     match fs !! p with
     | Some e => if in_store_dir p && swept now e then None else Some e
     | None => None
     end)
  /\ swept now Unreadable = true
  /\ swept now (Readable Garbage) = true
  /\ (forall j, swept now (Readable (JobJson j)) = true
                <-> job_timestamp j < now - 3600000).
Proof.
  split; [apply cleanup_lookup|]. repeat split; try done.
  - simpl. unfold retention. intros ?%Z.ltb_lt. lia.
  - simpl. unfold retention. intros ?. apply Z.ltb_lt. lia.
Qed.

(** C9.  When the path of the id holds a readable file, whatever job it
    stores, [createJob] does not throw: it replaces the file by the fresh
    job with status pending, no result, no error and time stamp [now],
    leaves every other file alone, and [getJob] then returns that fresh job
    for as long as it is not older than one hour. *)
Theorem createJob_overwrites (fs : store) (now : Z) (id : jstring) (d : filedata) :
  stat fs (getJobPath id) = File (Readable d) ->
  let fresh := mkJob pending None None now in
  let fs' := <[getJobPath id := Readable (JobJson fresh)]> fs in
  createJob fs now id = Return (fs', id)
  /\ record fs' id = Some fresh
  /\ (forall p, p <> getJobPath id -> fs' !! p = fs !! p)
  /\ (forall t, t - now <= 3600000 -> getJob fs' t id = (fs', Some fresh)).
Proof.
  intros Hst fresh fs'. repeat split.
  - by rewrite createJob_unfold, Hst.
  - unfold record, fs'. by rewrite (stat_insert_eq _ _ _ _ Hst).
  - intros p Hp. unfold fs'. by rewrite lookup_insert_ne.
  - intros t Ht. rewrite getJob_unfold. unfold fs'.
    rewrite (stat_insert_eq _ _ _ _ Hst). simpl. unfold retention.
    destruct (Z.gtb_spec (t - now) (60 * 60 * 1000)); [lia|done].
Qed.

(** ** Concrete runs of the store *)

Ltac decide_closed := apply (bool_decide_unpack _); by vm_compute.

Lemma getJob_cases_witness :
  let ops := [OpCreate (lit "a") 0; OpCleanup 5] in
  let fs := run_ops ∅ [OpCreate (lit "a") 1000] in
  let bad : store := <[getJobPath (lit "c") := Readable Garbage]> ∅ in
  getJob (run_ops ∅ ops) 7 (lit "b") = (run_ops ∅ ops, None)
  /\ getJobPath (lit "a") <> getJobPath (lit "b")
  /\ getJob fs 3601001 (lit "a") = (delete (getJobPath (lit "a")) fs, None)
  /\ getJob bad 0 (lit "c") = (bad, None)
  /\ getJob fs 3601000 (lit "a") = (fs, Some (mkJob pending None None 1000)).
Proof.
  intros ops fs bad.
  destruct getJob_cases as (Hnever & Hplain & Hold & Hbad & Hlive).
  split; [|split; [|split; [|split]]].
  - apply Hnever; [by vm_compute|].
    intros id' Hin. vm_compute in Hin. apply list_elem_of_singleton in Hin.
    subst id'. by vm_compute.
  - apply Hplain; [decide_closed|decide_closed|by vm_compute].
  - apply (Hold fs 3601001 (lit "a") (mkJob pending None None 1000));
      [by vm_compute|by vm_compute].
  - apply Hbad. right. by vm_compute.
  - apply Hlive; [by vm_compute|by vm_compute].
Defined.

(** C3, where the claim as stated fails: [createJob] is called with the id
    x only; the id ./x, never passed to [createJob], names the same file
    ([path.join] normalises it), and [getJob] returns the job for it. *)
Lemma getJob_alias_counterexample :
  (lit "./x" ∉ created_ids [OpCreate (lit "x") 0])
  /\ (getJob (run_ops ∅ [OpCreate (lit "x") 0]) 0 (lit "./x")).2
     = Some (mkJob pending None None 0).
Proof.
  split; [|by vm_compute].
  intros Hin. vm_compute in Hin. apply list_elem_of_singleton in Hin. discriminate.
Qed.

Lemma updateJob_cases_witness :
  let fs := run_ops ∅ [OpCreate (lit "a") 1000] in
  let u := mkUpdate (Some processing) None None None in
  (updateJob fs 0 0 (lit "b") u = fs /\ getJob fs 0 (lit "b") = (fs, None))
  /\ record (updateJob fs 2000 2001 (lit "a") u) (lit "a")
     = Some (mkJob processing None None 2001)
  /\ record (updateJob fs 3601001 3601002 (lit "a") u) (lit "a") = None.
Proof.
  intros fs u. destruct updateJob_cases as (Hnone & Hlive & Hold).
  split; [|split].
  - apply Hnone. by vm_compute.
  - apply (Hlive fs 2000 2001 (lit "a") u (mkJob pending None None 1000));
      [by vm_compute|by vm_compute].
  - apply (Hold fs 3601001 3601002 (lit "a") u (mkJob pending None None 1000));
      [by vm_compute|by vm_compute].
Defined.

(** C4, where the claim as stated fails: the record of the id exists in the
    store, but it is older than one hour; [updateJob] does not merge the
    fields and write back, it removes the file. *)
Lemma updateJob_expired_counterexample :
  record (run_ops ∅ [OpCreate (lit "a") 0]) (lit "a") = Some (mkJob pending None None 0)
  /\ stat (updateJob (run_ops ∅ [OpCreate (lit "a") 0]) 3600001 3600001 (lit "a")
             (mkUpdate (Some processing) None None None))
          (getJobPath (lit "a")) = Missing
  /\ updateJob (run_ops ∅ [OpCreate (lit "a") 0]) 3600001 3600001 (lit "a")
       (mkUpdate (Some processing) None None None)
     <> run_ops ∅ [OpCreate (lit "a") 0].
Proof.
  split; [by vm_compute|]. split; [by vm_compute|].
  intros E. apply (f_equal (fun s : store => stat s (getJobPath (lit "a")))) in E.
  vm_compute in E. discriminate.
Qed.

Lemma createJob_overwrites_witness :
  let done_job := mkJob completed (Some (JObj [(lit "ingredients", JArr [])])) None 1 in
  let fs : store := <[getJobPath (lit "a") := Readable (JobJson done_job)]> ∅ in
  record fs (lit "a") = Some done_job
  /\ getJob (<[getJobPath (lit "a") := Readable (JobJson (mkJob pending None None 50))]> fs)
       60 (lit "a")
     = (<[getJobPath (lit "a") := Readable (JobJson (mkJob pending None None 50))]> fs,
        Some (mkJob pending None None 50)).
Proof.
  intros done_job fs. split; [by vm_compute|].
  assert (Hst : stat fs (getJobPath (lit "a")) = File (Readable (JobJson done_job)))
    by (by vm_compute).
  destruct (createJob_overwrites fs 50 (lit "a") _ Hst) as (_ & _ & _ & Hget).
  apply Hget. lia.
Defined.

(** ** Objects *)

Lemma eqs_true (a b : jstring) : eqs a b = true <-> a = b.
Proof. apply bool_decide_eq_true. Qed.

Lemma obj_get_set_eq (props : list (jstring * json)) (k : jstring) (v : json) :
  obj_get (obj_set props k v) k = Some v.
Proof.
  induction props as [|[k' v'] props IH]; simpl.
  - unfold eqs. by rewrite bool_decide_eq_true_2.
  - destruct (eqs k' k) eqn:E; simpl; by rewrite E.
Qed.

Lemma obj_get_set_ne (props : list (jstring * json)) (k k' : jstring) (v : json) :
  k' <> k -> obj_get (obj_set props k v) k' = obj_get props k'.
Proof.
  intros Hne. induction props as [|[k0 v0] props IH]; simpl.
  - unfold eqs. by rewrite bool_decide_eq_false_2.
  - destruct (eqs k0 k) eqn:E; simpl; [|by rewrite IH].
    apply eqs_true in E as ->. unfold eqs. by rewrite bool_decide_eq_false_2.
Qed.

Lemma index_digits_digits (fuel n : nat) (acc : jstring) :
  Forall (fun c => is_digit c = true) acc ->
  Forall (fun c => is_digit c = true) (index_digits fuel n acc).
Proof.
  revert n acc. induction fuel as [|fuel IH]; intros n acc Hacc; [done|].
  simpl. assert (Hd : is_digit (48 + N.of_nat (n mod 10)) = true).
  { pose proof (Nat.mod_upper_bound n 10). unfold is_digit.
    apply andb_true_iff. split; apply N.leb_le; lia. }
  destruct (n <? 10)%nat; [by constructor|]. apply IH. by constructor.
Qed.

Lemma index_key_digits (i : nat) : Forall (fun c => is_digit c = true) (index_key i).
Proof. apply index_digits_digits. constructor. Qed.

(** An index is not a name that starts with a letter. *)
Lemma obj_get_indexed {A} (f : A -> json) (l : list A) (i : nat) (c : N) (k : jstring) :
  is_digit c = false -> obj_get (indexed f i l) (c :: k) = None.
Proof.
  intros Hc. revert i. induction l as [|x l IH]; intros i; [done|].
  simpl. destruct (eqs (index_key i) (c :: k)) eqn:E; [|apply IH].
  apply eqs_true in E. pose proof (index_key_digits i) as Hd.
  rewrite E in Hd. apply Forall_cons in Hd as [Hd _]. congruence.
Qed.

(** The spread of an ingredient has the [name] that [ingredient.name] reads. *)
Lemma own_enumerable_get (v : json) (c : N) (k : jstring) (x : option json) :
  is_digit c = false ->
  get_property v (c :: k) = Return x ->
  obj_get (own_enumerable v) (c :: k) = x.
Proof.
  intros Hc. destruct v; simpl; intros [=]; subst; try done;
    by apply obj_get_indexed.
Qed.

(** ** The pipeline *)

Section PipelineFacts.

Variable Number_toString : jstring -> jstring.

Abbreviation ToStr := (ToString_opt Number_toString).

Lemma searchPubMedPapers_Return (name : option json) (papers : json) :
  searchPubMedPapers Number_toString name = Return papers <->
  exists text term,
    ToStr name = Some text /\ encodeURIComponent text = Some term
    /\ papers = citation text term.
Proof.
  unfold searchPubMedPapers, citation.
  destruct (ToStr name) as [text|]; [|split; [done|by intros (? & ? & [=] & _)]].
  destruct (encodeURIComponent text) as [term|] eqn:Hterm; split.
  - intros [= <-]. eauto.
  - intros (? & ? & [= <-] & E & ->). congruence.
  - done.
  - intros (? & ? & [= <-] & E & _). congruence.
Qed.

(** What [with_papers] returns: an object with the properties of the
    ingredient, and [papers] set to the citation built from its [name]. *)
Lemma with_papers_Return (ingredient item : json) :
  with_papers Number_toString ingredient = Return item ->
  exists text term,
    ToStr (obj_get (own_enumerable ingredient) (lit "name")) = Some text
    /\ encodeURIComponent text = Some term
    /\ item = JObj (obj_set (own_enumerable ingredient) (lit "papers")
                      (citation text term)).
Proof.
  unfold with_papers.
  destruct (get_property ingredient (lit "name")) as [name|] eqn:Hname; [|done].
  apply (own_enumerable_get _ 110%N (lit "ame")) in Hname; [|done].
  change (110%N :: lit "ame") with (lit "name") in Hname. subst name. simpl.
  destruct (searchPubMedPapers _ _) as [papers|] eqn:Hp; [|done].
  apply searchPubMedPapers_Return in Hp as (text & term & Htext & Hterm & ->).
  simpl. intros [= <-]. eauto.
Qed.

Lemma map_all_Return {A B} (f : A -> completion B) (l : list A) (out : list B) :
  map_all f l = Return out -> Forall2 (fun x y => f x = Return y) l out.
Proof.
  revert out. induction l as [|x l IH]; intros out; simpl.
  - intros [= <-]. constructor.
  - destruct (f x) as [y|] eqn:Hy; [|done]. simpl.
    destruct (map_all f l) as [ys|]; [|done]. simpl.
    intros [= <-]. constructor; auto.
Qed.

Lemma map_all_intro {A B} (f : A -> completion B) (l : list A) :
  Forall (fun x => exists y, f x = Return y) l ->
  exists out, map_all f l = Return out.
Proof.
  induction 1 as [|x l [y Hy] _ [ys Hys]]; simpl; [by eexists|].
  rewrite Hy, Hys. simpl. by eexists.
Qed.

(** [analyzeImage] on a non-empty content, by what the inner [try] does. *)
Lemma analyzeImage_content (c : N) (text : jstring) :
  analyzeImage Number_toString (Return (Some (c :: text))) =
  match parse_and_enrich Number_toString (cleanJsonResponse (c :: text)) with
  | Return result => Return result
  | Throw _ => Throw generic_failure
  end.
Proof. done. Qed.

Lemma analyzeImage_Return (service : service_outcome) (result : json) :
  analyzeImage Number_toString service = Return result ->
  exists text parsed items out,
    service = Return (Some text)
    /\ JSON_parse (cleanJsonResponse text) = Some parsed
    /\ get_property parsed (lit "ingredients") = Return (Some (JArr items))
    /\ map_all (with_papers Number_toString) items = Return out
    /\ result = JObj [(lit "ingredients", JArr out)].
Proof.
  destruct service as [[[|c text]|]|e]; try done.
  rewrite analyzeImage_content. unfold parse_and_enrich, ingredientsWithPapers.
  destruct (JSON_parse _) as [parsed|] eqn:Hparse; [|done].
  destruct (get_property parsed _) as [[[]|]|] eqn:Hing; try done. simpl.
  destruct (map_all _ items) as [out|] eqn:Hout; [|done]. simpl.
  intros [= <-]. by exists (c :: text), parsed, items, out.
Qed.

End PipelineFacts.

(** C10.  Whenever [analyzeImage] returns, its result is an object whose
    [ingredients] is an array of objects, each with [papers] equal to the
    array of one citation: its title is [Research about ] followed by the
    (string of the) ingredient's name, its url is the PubMed search address
    followed by [encodeURIComponent] of that name.  The list of papers is
    never empty. *)
Theorem analyzeImage_one_citation (Number_toString : jstring -> jstring)
    (service : service_outcome) (result : json) :
  analyzeImage Number_toString service = Return result ->
  exists items,
    result = JObj [(lit "ingredients", JArr items)]
    /\ Forall (fun item =>
         exists props name term,
           item = JObj props
           /\ ToString_opt Number_toString (obj_get props (lit "name")) = Some name
           /\ encodeURIComponent name = Some term
           /\ obj_get props (lit "papers") =
              Some (JArr [JObj [(lit "title", JStr (lit "Research about " ++ name));
                                (lit "url",
                                  JStr (lit "https://pubmed.ncbi.nlm.nih.gov/?term="
                                        ++ term))]])) items.
Proof.
  intros (text & parsed & ings & out & _ & _ & _ & Hmap & ->)%analyzeImage_Return.
  exists out. split; [done|].
  apply map_all_Return in Hmap.
  induction Hmap as [|ing item ings out Hitem _ IH]; constructor; [|done].
  apply with_papers_Return in Hitem as (name & term & Hname & Hterm & ->).
  eexists _, name, term. split; [done|].
  rewrite obj_get_set_eq, obj_get_set_ne by done. done.
Qed.

Lemma analyzeImage_one_citation_witness :
  exists result,
    analyzeImage (fun lexeme => lexeme)
      (Return (Some (jtext "{'ingredients':[{'name':'Red 40','classification':'high_risk','explanation':'A dye.'}]}")))
    = Return result
    /\ obj_get (own_enumerable result) (lit "ingredients")
       = Some (JArr [JObj [(lit "name", JStr (lit "Red 40"));
                  (lit "classification", JStr (lit "high_risk"));
                  (lit "explanation", JStr (lit "A dye."));
                  (lit "papers",
                    JArr [JObj [(lit "title", JStr (lit "Research about Red 40"));
                                (lit "url",
                                  JStr (lit "https://pubmed.ncbi.nlm.nih.gov/?term=Red%2040"))]])]])
    /\ exists items,
         result = JObj [(lit "ingredients", JArr items)]
         /\ Forall (fun item =>
              exists props name term,
                item = JObj props
                /\ ToString_opt (fun lexeme => lexeme) (obj_get props (lit "name"))
                   = Some name
                /\ encodeURIComponent name = Some term
                /\ obj_get props (lit "papers") =
                   Some (JArr [JObj [(lit "title", JStr (lit "Research about " ++ name));
                                     (lit "url",
                                       JStr (lit "https://pubmed.ncbi.nlm.nih.gov/?term="
                                             ++ term))]])) items.
Proof.
  eexists. split; [by vm_compute|]. split; [by vm_compute|].
  apply (analyzeImage_one_citation (fun lexeme => lexeme)
           (Return (Some (jtext "{'ingredients':[{'name':'Red 40','classification':'high_risk','explanation':'A dye.'}]}")))).
  by vm_compute.
Defined.

Section SchemaFacts.

Variable Number_toString : jstring -> jstring.

Lemma map_all_Throw {A B} (f : A -> completion B) (l : list A) (x : A) (e : exn) :
  x ∈ l -> f x = Throw e -> exists e', map_all f l = Throw e'.
Proof.
  intros Hin Hx. induction l as [|y l IH]; [by apply elem_of_nil in Hin|].
  simpl. apply elem_of_cons in Hin as [<-|Hin].
  - rewrite Hx. by eexists.
  - destruct (f y); [|by eexists]. simpl.
    destruct (IH Hin) as [e' ->]. by eexists.
Qed.

Lemma with_papers_object (props : list (jstring * json)) (name term : jstring) :
  ToString_opt Number_toString (obj_get props (lit "name")) = Some name ->
  encodeURIComponent name = Some term ->
  with_papers Number_toString (JObj props) =
  Return (JObj (obj_set props (lit "papers") (citation name term))).
Proof.
  intros Hname Hterm. unfold with_papers, searchPubMedPapers. simpl.
  by rewrite Hname, Hterm.
Qed.

Lemma map_all_objects (items : list json) :
  Forall (fun it => exists ps name,
            it = JObj ps
            /\ ToString_opt Number_toString (obj_get ps (lit "name")) = Some name
            /\ encodeURIComponent name <> None) items ->
  exists out,
    map_all (with_papers Number_toString) items = Return out
    /\ Forall2 (fun it o => exists ps qs,
                  it = JObj ps /\ o = JObj qs
                  /\ forall k, k <> lit "papers" -> obj_get qs k = obj_get ps k)
         items out.
Proof.
  induction 1 as [|it items (ps & name & -> & Hname & Henc) _ (out & Hout & Hall)].
  - exists []. by split; [|constructor].
  - destruct (encodeURIComponent name) as [term|] eqn:Hterm; [|done].
    eexists. simpl. rewrite (with_papers_object _ _ _ Hname Hterm), Hout. simpl.
    split; [done|]. constructor; [|done].
    eexists _, _. repeat split. intros k Hk. by apply obj_get_set_ne.
Qed.

End SchemaFacts.

(** C1, as amended.  [analyzeImage] checks no schema.  When the cleaned
    content parses to an object whose [ingredients] is an array of objects
    (with names that convert to strings that [encodeURIComponent] accepts:
    any string without a lone surrogate does, and so does a missing name),
    it returns them all,
    each with every property but [papers] as received: classification,
    name and explanation are returned whatever they are, present or not.
    It fails when [ingredients] is not an array, when an element is [null],
    and when the content is not JSON, each time with the one error
    [Failed to parse analysis results]. *)
Theorem analyzeImage_checks_no_schema (Number_toString : jstring -> jstring) :
  (forall text props items,
     text <> [] ->
     JSON_parse (cleanJsonResponse text) = Some (JObj props) ->
     obj_get props (lit "ingredients") = Some (JArr items) ->
     Forall (fun it => exists ps name,
               it = JObj ps
               /\ ToString_opt Number_toString (obj_get ps (lit "name")) = Some name
               /\ encodeURIComponent name <> None)
       items ->
     exists out,
       analyzeImage Number_toString (Return (Some text))
         = Return (JObj [(lit "ingredients", JArr out)])
       /\ Forall2 (fun it o => exists ps qs,
                     it = JObj ps /\ o = JObj qs
                     /\ forall k, k <> lit "papers" -> obj_get qs k = obj_get ps k)
            items out)
  /\ (forall text parsed,
        text <> [] ->
        JSON_parse (cleanJsonResponse text) = Some parsed ->
        (forall items,
           get_property parsed (lit "ingredients") <> Return (Some (JArr items))) ->
        analyzeImage Number_toString (Return (Some text)) = Throw generic_failure)
  /\ (forall text parsed items,
        text <> [] ->
        JSON_parse (cleanJsonResponse text) = Some parsed ->
        get_property parsed (lit "ingredients") = Return (Some (JArr items)) ->
        JNull ∈ items ->
        analyzeImage Number_toString (Return (Some text)) = Throw generic_failure)
  /\ (forall text,
        text <> [] ->
        JSON_parse (cleanJsonResponse text) = None ->
        analyzeImage Number_toString (Return (Some text)) = Throw generic_failure).
Proof.
  split; [|split; [|split]].
  - intros [|c text] props items Hne Hparse Hing Hitems; [done|].
    destruct (map_all_objects Number_toString items Hitems) as (out & Hout & Hall).
    exists out. split; [|done].
    rewrite analyzeImage_content. unfold parse_and_enrich, ingredientsWithPapers.
    rewrite Hparse. simpl. by rewrite Hing, Hout.
  - intros [|c text] parsed Hne Hparse Hnot; [done|].
    rewrite analyzeImage_content. unfold parse_and_enrich, ingredientsWithPapers.
    rewrite Hparse.
    destruct (get_property parsed (lit "ingredients")) as [[[]|]|] eqn:Hing; try done.
    by destruct (Hnot items).
  - intros [|c text] parsed items Hne Hparse Hing Hnull; [done|].
    rewrite analyzeImage_content. unfold parse_and_enrich, ingredientsWithPapers.
    rewrite Hparse, Hing. simpl.
    destruct (map_all_Throw (with_papers Number_toString) items JNull
                (ErrorObj (lit "Cannot read properties of null")) Hnull eq_refl)
      as [e' ->].
    done.
  - intros [|c text] Hne Hparse; [done|].
    rewrite analyzeImage_content. unfold parse_and_enrich. by rewrite Hparse.
Qed.

Lemma analyzeImage_checks_no_schema_witness :
  (exists out,
     analyzeImage (fun lexeme => lexeme)
       (Return (Some (jtext "{'ingredients':[{'name':'Salt','classification':'fine'}]}")))
     = Return (JObj [(lit "ingredients", JArr out)])
     /\ Forall2 (fun it o => exists ps qs,
                   it = JObj ps /\ o = JObj qs
                   /\ forall k, k <> lit "papers" -> obj_get qs k = obj_get ps k)
          [JObj [(lit "name", JStr (lit "Salt")); (lit "classification", JStr (lit "fine"))]]
          out)
  /\ analyzeImage (fun lexeme => lexeme)
       (Return (Some (jtext "{'ingredients':'Salt'}"))) = Throw generic_failure
  /\ analyzeImage (fun lexeme => lexeme)
       (Return (Some (jtext "{'ingredients':[null]}"))) = Throw generic_failure
  /\ analyzeImage (fun lexeme => lexeme)
       (Return (Some (lit "I cannot read this label."))) = Throw generic_failure.
Proof.
  destruct (analyzeImage_checks_no_schema (fun lexeme => lexeme))
    as (Hok & Hnotarr & Hnull & Hnojson).
  split; [|split; [|split]].
  - apply (Hok _ [(lit "ingredients",
                   JArr [JObj [(lit "name", JStr (lit "Salt"));
                               (lit "classification", JStr (lit "fine"))]])]);
      [done|by vm_compute|by vm_compute|].
    constructor; [|constructor]. eexists _, (lit "Salt"). by vm_compute.
  - apply (Hnotarr _ (JObj [(lit "ingredients", JStr (lit "Salt"))]));
      [done|by vm_compute|]. intros items. by vm_compute.
  - apply (Hnull _ (JObj [(lit "ingredients", JArr [JNull])]) [JNull]);
      [done|by vm_compute|by vm_compute|by left].
  - apply Hnojson; [done|by vm_compute].
Defined.

(** C1, where the claim as stated fails: a response with the classification
    unhealthy, which the spec's validation rejects, is returned by
    [analyzeImage] with that value; so is an ingredient that has neither a
    name nor an explanation. *)
Lemma analyzeImage_unhealthy_counterexample :
  (spec_valid_response
     (JObj [(lit "ingredients",
             JArr [JObj [(lit "name", JStr (lit "x"));
                         (lit "classification", JStr (lit "unhealthy"));
                         (lit "explanation", JStr (lit "e"))]])]) = false
   /\ analyzeImage (fun lexeme => lexeme)
        (Return (Some (jtext "{'ingredients':[{'name':'x','classification':'unhealthy','explanation':'e'}]}")))
      = Return (JObj [(lit "ingredients",
          JArr [JObj [(lit "name", JStr (lit "x"));
                      (lit "classification", JStr (lit "unhealthy"));
                      (lit "explanation", JStr (lit "e"));
                      (lit "papers",
                        JArr [JObj [(lit "title", JStr (lit "Research about x"));
                                    (lit "url",
                                      JStr (lit "https://pubmed.ncbi.nlm.nih.gov/?term=x"))]])]])]))
  /\ analyzeImage (fun lexeme => lexeme)
       (Return (Some (jtext "{'ingredients':[{'classification':'healthy'}]}")))
     = Return (JObj [(lit "ingredients",
         JArr [JObj [(lit "classification", JStr (lit "healthy"));
                     (lit "papers",
                       JArr [JObj [(lit "title", JStr (lit "Research about undefined"));
                                   (lit "url",
                                     JStr (lit "https://pubmed.ncbi.nlm.nih.gov/?term=undefined"))]])]])]).
Proof. by vm_compute. Qed.

(** ** Locality of the JSON parser *)

Lemma skip_ws_spec (s : jstring) :
  exists ws, s = ws ++ skip_ws s /\ Forall (fun c => is_json_ws c = true) ws.
Proof.
  induction s as [|c r (ws & E & Hws)]; [by exists []|]. simpl.
  destruct (is_json_ws c) eqn:Hc.
  - exists (c :: ws). split; [by rewrite E at 1|by constructor].
  - by exists [].
Qed.

Lemma skip_ws_app (ws x : jstring) :
  Forall (fun c => is_json_ws c = true) ws -> skip_ws (ws ++ x) = skip_ws x.
Proof. induction 1 as [|c ws Hc _ IH]; [done|]. simpl. by rewrite Hc. Qed.

Lemma skip_ws_starts (x : jstring) : starts_nonws x -> skip_ws x = x.
Proof. destruct x as [|c x]; [done|]. simpl. by intros ->. Qed.

Lemma skip_ws_result (s : jstring) (c : N) (r : jstring) :
  skip_ws s = c :: r -> starts_nonws (c :: r).
Proof.
  induction s as [|x s IH]; [done|]. simpl.
  destruct (is_json_ws x) eqn:Hx; [done|]. by intros [= <- <-].
Qed.

Lemma starts_nonws_app (c rest t : jstring) :
  c <> [] -> starts_nonws (c ++ rest) -> starts_nonws (c ++ t).
Proof. by destruct c. Qed.

Lemma ws_ends_number (c : N) (t : jstring) :
  is_json_ws c = true -> ends_number (c :: t) = true.
Proof.
  unfold is_json_ws, ends_number, is_digit.
  intros H. repeat (apply orb_true_iff in H as [H|H]);
    apply N.eqb_eq in H; by subst c.
Qed.

Lemma ws_app_ends_number (ws : jstring) (c : N) (t : jstring) :
  Forall (fun c => is_json_ws c = true) ws ->
  ends_number (c :: t) = true -> ends_number (ws ++ c :: t) = true.
Proof. intros [|x ws' Hx _] Hc; [done|]. by apply ws_ends_number. Qed.

Lemma expect_local (w s rest : jstring) :
  expect w s = Some rest -> s = w ++ rest /\ forall t, expect w (w ++ t) = Some t.
Proof.
  revert s. induction w as [|a w IH]; intros s; simpl.
  - intros [= ->]. done.
  - destruct s as [|c r]; [done|]. destruct (N.eqb_spec a c) as [->|]; [|done].
    intros (-> & Ht)%IH. split; [done|]. intros t. by rewrite N.eqb_refl.
Qed.

Lemma parse_string_body_local (n : nat) :
  forall s str rest,
    (length s < n)%nat ->
    parse_string_body s = Some (str, rest) ->
    exists c, s = c ++ 34%N :: rest
              /\ forall t, parse_string_body (c ++ 34%N :: t) = Some (str, t).
Proof.
  induction n as [|n IH]; intros s str rest Hlen; [lia|].
  destruct s as [|c r]; [done|]. simpl in Hlen. cbn [parse_string_body].
  destruct (N.eqb_spec c 34) as [->|Hq].
  { intros [= <- <-]. exists []. split; [done|]. intros t. simpl. done. }
  destruct (N.eqb_spec c 92) as [->|Hb].
  - destruct r as [|e r1]; [done|]. simpl in Hlen.
    destruct (N.eqb_spec e 117) as [->|Hu].
    + destruct r1 as [|h1 [|h2 [|h3 [|h4 r2]]]]; try done. simpl in Hlen.
      destruct (hex4 h1 h2 h3 h4) as [u|] eqn:Hhex; [|done].
      destruct (parse_string_body r2) as [[body rest']|] eqn:Hr2; [|done].
      intros [= <- <-]. destruct (IH r2 body rest' ltac:(lia) Hr2) as (c2 & -> & Hc2).
      exists (92%N :: 117%N :: h1 :: h2 :: h3 :: h4 :: c2). split; [done|].
      intros t. cbn [app parse_string_body]. simpl N.eqb. cbv iota.
      by rewrite Hhex, Hc2.
    + destruct (simple_escape e) as [u|] eqn:Hesc; [|done].
      destruct (parse_string_body r1) as [[body rest']|] eqn:Hr1; [|done].
      intros [= <- <-]. destruct (IH r1 body rest' ltac:(lia) Hr1) as (c1 & -> & Hc1).
      exists (92%N :: e :: c1). split; [done|].
      intros t. cbn [app parse_string_body]. simpl N.eqb. cbv iota.
      destruct (N.eqb_spec e 117); [done|]. by rewrite Hesc, Hc1.
  - destruct (c <? 32)%N eqn:Hctl; [done|].
    destruct (parse_string_body r) as [[body rest']|] eqn:Hr; [|done].
    intros [= <- <-]. destruct (IH r body rest' ltac:(lia) Hr) as (c1 & -> & Hc1).
    exists (c :: c1). split; [done|].
    intros t. cbn [app parse_string_body].
    destruct (N.eqb_spec c 34); [done|]. destruct (N.eqb_spec c 92); [done|].
    by rewrite Hctl, Hc1.
Qed.

Lemma ends_number_nondigit (t : jstring) : ends_number t = true -> nondigit_head t.
Proof.
  destruct t as [|c t]; [done|]. simpl. intros H%negb_true_iff.
  repeat (apply orb_false_iff in H as [H ?]). done.
Qed.

Lemma ends_number_head (t : jstring) (c : N) :
  ends_number t = true -> is_digit c = true \/ c = 46%N \/ c = 101%N \/ c = 69%N ->
  head t <> Some c.
Proof.
  destruct t as [|x t]; [done|]. simpl. intros H%negb_true_iff Hc [= ->].
  repeat (apply orb_false_iff in H as [H ?]).
  destruct Hc as [?|[?|[?|?]]]; subst; simpl in *; congruence.
Qed.

Lemma ends_digit_app (a b : jstring) : ends_digit b -> ends_digit (a ++ b).
Proof. intros (l' & y & -> & Hy). exists (a ++ l'), y. by rewrite app_assoc. Qed.

Lemma ends_digit_digits (ds : jstring) :
  ds <> [] -> Forall (fun c => is_digit c = true) ds -> ends_digit ds.
Proof.
  induction ds as [|y l' _] using rev_ind; [done|]. intros _ Hall.
  exists l', y. split; [done|]. apply Forall_app in Hall as [_ Hy].
  by inversion Hy.
Qed.

Lemma span_digits_spec (s ds rest : jstring) :
  span_digits s = (ds, rest) ->
  s = ds ++ rest
  /\ Forall (fun c => is_digit c = true) ds
  /\ forall t, nondigit_head t -> span_digits (ds ++ t) = (ds, t).
Proof.
  revert ds rest. induction s as [|c r IH]; intros ds rest; simpl.
  - intros [= <- <-]. split_and!; [done|constructor|].
    intros [|x t]; simpl; [done|by intros -> ].
  - destruct (is_digit c) eqn:Hc.
    + destruct (span_digits r) as [ds' rest'] eqn:Hr. intros [= <- <-].
      destruct (IH ds' rest' eq_refl) as (-> & Hds & Ht).
      split_and!; [done|by constructor|]. intros t Hnd. simpl. by rewrite Hc, Ht.
    + intros [= <- <-]. split_and!; [done|constructor|].
      intros [|x t]; simpl; [done|by intros -> ].
Qed.

Lemma parse_int_part_local (s ip s2 : jstring) :
  parse_int_part s = Some (ip, s2) ->
  s = ip ++ s2
  /\ (exists x ip', ip = x :: ip' /\ is_digit x = true)
  /\ ends_digit ip
  /\ forall t, nondigit_head t -> parse_int_part (ip ++ t) = Some (ip, t).
Proof.
  destruct s as [|c r]; [done|]. simpl.
  destruct (N.eqb_spec c 48) as [->|Hz].
  - intros [= <- <-]. split_and!; [done|by eexists _, _|by exists [], 48%N|done].
  - destruct (is_digit c) eqn:Hc; [|done].
    destruct (span_digits r) as [ds rest] eqn:Hr. intros [= <- <-].
    apply span_digits_spec in Hr as (-> & Hds & Ht).
    split_and!; [done|by eexists _, _| |].
    + apply ends_digit_digits; [done|by constructor].
    + intros t Hnd. simpl. destruct (N.eqb_spec c 48); [done|]. by rewrite Hc, Ht.
Qed.

Lemma parse_frac_part_local (s fp s3 : jstring) :
  parse_frac_part s = Some (fp, s3) ->
  s = fp ++ s3
  /\ (fp = [] \/ (head fp = Some 46%N /\ ends_digit fp))
  /\ forall t, nondigit_head t -> head t <> Some 46%N ->
               parse_frac_part (fp ++ t) = Some (fp, t).
Proof.
  assert (Hnil : forall t, head t <> Some 46%N -> parse_frac_part t = Some ([], t)).
  { intros [|x t] Hx; [done|]. simpl. destruct (N.eqb_spec x 46) as [->|]; done. }
  destruct s as [|c r]; simpl.
  - intros [= <- <-]. split_and!; [done|by left|]. intros t _. apply Hnil.
  - destruct (N.eqb_spec c 46) as [->|Hdot].
    + destruct (span_digits r) as [[|d ds] rest] eqn:Hr; [done|]. intros [= <- <-].
      apply span_digits_spec in Hr as (-> & Hds & Ht).
      split_and!; [done| |].
      * right. split; [done|]. apply (ends_digit_app [46%N]).
        by apply ends_digit_digits.
      * intros t Hnd _.
        change ((46%N :: d :: ds) ++ t) with (46%N :: ((d :: ds) ++ t)).
        unfold parse_frac_part. rewrite N.eqb_refl, (Ht t Hnd). done.
    + intros [= <- <-]. split_and!; [done|by left|]. intros t _. apply Hnil.
Qed.

Lemma parse_exp_digits_local (pre s ep rest : jstring) :
  parse_exp_digits pre s = Some (ep, rest) ->
  exists ds, ep = pre ++ ds /\ s = ds ++ rest /\ ds <> []
             /\ Forall (fun c => is_digit c = true) ds
             /\ forall t, nondigit_head t ->
                          parse_exp_digits pre (ds ++ t) = Some (pre ++ ds, t).
Proof.
  unfold parse_exp_digits.
  destruct (span_digits s) as [[|d ds] rest'] eqn:Hs; [done|]. intros [= <- <-].
  apply span_digits_spec in Hs as (-> & Hds & Ht).
  exists (d :: ds). split_and!; try done. intros t Hnd. by rewrite (Ht t Hnd).
Qed.

Lemma parse_exp_part_local (s ep s4 : jstring) :
  parse_exp_part s = Some (ep, s4) ->
  s = ep ++ s4
  /\ (ep = [] \/ ((head ep = Some 101%N \/ head ep = Some 69%N) /\ ends_digit ep))
  /\ forall t, ends_number t = true -> parse_exp_part (ep ++ t) = Some (ep, t).
Proof.
  assert (Hnil : forall t, ends_number t = true -> parse_exp_part t = Some ([], t)).
  { intros [|x t] Hx; [done|]. simpl in *. apply negb_true_iff in Hx.
    repeat (apply orb_false_iff in Hx as [Hx ?]).
    replace ((x =? 101)%N || (x =? 69)%N) with false; [done|].
    symmetry. by apply orb_false_iff. }
  destruct s as [|c r]; simpl.
  - intros [= <- <-]. split_and!; [done|by left|]. apply Hnil.
  - destruct ((c =? 101)%N || (c =? 69)%N) eqn:He.
    + assert (Hhead : Some c = Some 101%N \/ Some c = Some 69%N).
      { apply orb_true_iff in He as [->%N.eqb_eq| ->%N.eqb_eq]; auto. }
      destruct r as [|g r1]; [done|].
      destruct ((g =? 43)%N || (g =? 45)%N) eqn:Hg.
      * intros (ds & -> & -> & Hne & Hds & Ht)%parse_exp_digits_local.
        split_and!; [done| |].
        -- right. split; [done|]. apply (ends_digit_app [c; g]).
           by apply ends_digit_digits.
        -- intros t Hend. simpl. rewrite He, Hg.
           by apply Ht, ends_number_nondigit.
      * intros (ds & -> & E & Hne & Hds & Ht)%parse_exp_digits_local.
        destruct ds as [|d ds]; [done|]. injection E as <- ->.
        split_and!; [done| |].
        -- right. split; [done|]. apply (ends_digit_app [c]).
           by apply ends_digit_digits.
        -- intros t Hend. simpl. rewrite He, Hg.
           by apply (Ht t), ends_number_nondigit.
    + intros [= <- <-]. split_and!; [done|by left|]. apply Hnil.
Qed.

Lemma digit_not_space (c : N) : is_digit c = true -> is_js_space c = false.
Proof.
  unfold is_digit. intros [H1%N.leb_le H2%N.leb_le]%andb_true_iff.
  unfold is_js_space. repeat (apply orb_false_iff; split);
    try (apply N.eqb_neq; lia).
  apply andb_false_iff. left. apply N.leb_gt. lia.
Qed.

Lemma parse_number_local (s lex rest : jstring) :
  parse_number s = Some (lex, rest) ->
  s = lex ++ rest
  /\ tight lex
  /\ forall t, ends_number t = true -> parse_number (lex ++ t) = Some (lex, t).
Proof.
  unfold parse_number.
  set (split_sign := fun s : jstring =>
         match s with
         | c :: r => if (c =? 45)%N then ([c], r) else ([], s)
         | [] => ([], [])
         end).
  change (match s with
          | c :: r => if (c =? 45)%N then ([c], r) else ([], s)
          | [] => ([], [])
          end) with (split_sign s).
  destruct (split_sign s) as [sign s1] eqn:Hsign.
  destruct (parse_int_part s1) as [[ip s2]|] eqn:Hip; [|done].
  destruct (parse_frac_part s2) as [[fp s3]|] eqn:Hfp; [|done].
  destruct (parse_exp_part s3) as [[ep s4]|] eqn:Hep; [|done].
  intros [= <- <-].
  apply parse_int_part_local in Hip as (-> & (x & ip' & -> & Hx) & Hipd & Hipt).
  apply parse_frac_part_local in Hfp as (-> & Hfpd & Hfpt).
  apply parse_exp_part_local in Hep as (-> & Hepd & Hept).
  assert (Hs : s = sign ++ (x :: ip') ++ fp ++ ep ++ s4
               /\ (sign = [] \/ sign = [45%N])).
  { unfold split_sign in Hsign. destruct s as [|c r]; [done|].
    destruct (N.eqb_spec c 45) as [->|]; injection Hsign as <- E; subst; auto. }
  destruct Hs as [-> Hsg].
  assert (Hlast : ends_digit (sign ++ (x :: ip') ++ fp ++ ep)).
  { apply ends_digit_app. destruct Hepd as [->|[_ Hepd]].
    - rewrite app_nil_r. destruct Hfpd as [->|[_ Hfpd]].
      + by rewrite app_nil_r.
      + by apply ends_digit_app.
    - rewrite app_assoc. by apply ends_digit_app. }
  split; [by rewrite <- !app_assoc|]. split.
  - split.
    + destruct Hsg as [->| ->]; eexists _, _; (split; [done|]);
        [by apply digit_not_space|done].
    + destruct Hlast as (l' & y & E & Hy). exists l', y.
      split; [done|by apply digit_not_space].
  - intros t Hend.
    assert (Hsign' : split_sign ((sign ++ (x :: ip') ++ fp ++ ep) ++ t)
                     = (sign, (x :: ip') ++ fp ++ ep ++ t)).
    { destruct Hsg as [->| ->]; simpl.
      - destruct (N.eqb_spec x 45) as [->|]; [done|]. by rewrite <- !app_assoc.
      - by rewrite <- !app_assoc. }
    change (match (sign ++ (x :: ip') ++ fp ++ ep) ++ t with
            | c :: r => if (c =? 45)%N then ([c], r) else ([], (sign ++ (x :: ip') ++ fp ++ ep) ++ t)
            | [] => ([], [])
            end) with (split_sign ((sign ++ (x :: ip') ++ fp ++ ep) ++ t)).
    rewrite Hsign'.
    rewrite Hipt, Hfpt, Hept; [done|done| | |].
    + destruct Hepd as [->|[[He|He] _]]; [by apply ends_number_nondigit| |];
        destruct ep as [|e ep]; try done; injection He as ->; done.
    + destruct Hepd as [->|[[He|He] _]];
        [by apply ends_number_head; auto| |];
        destruct ep as [|e ep]; try done; injection He as ->; done.
    + destruct Hfpd as [->|[Hf _]].
      * destruct Hepd as [->|[[He|He] _]]; [by apply ends_number_nondigit| |];
          destruct ep as [|e ep]; try done; injection He as ->; done.
      * destruct fp as [|f fp]; [done|]. injection Hf as ->. done.
Qed.

Lemma json_ws_js_space (c : N) : is_js_space c = false -> is_json_ws c = false.
Proof.
  unfold is_js_space, is_json_ws. intros H.
  repeat (apply orb_false_iff in H as [H ?]).
  repeat (apply orb_false_iff; split); done.
Qed.

Lemma tight_starts (c t : jstring) : tight c -> starts_nonws (c ++ t).
Proof. intros [(x & c' & -> & Hx) _]. simpl. by apply json_ws_js_space. Qed.

Lemma starts_nonws_close (c rest t : jstring) (b : N) :
  is_json_ws b = false -> starts_nonws (c ++ b :: rest) -> starts_nonws (c ++ b :: t).
Proof. by destruct c. Qed.

Lemma skip_ws_close (ws : jstring) (b : N) (t : jstring) :
  Forall (fun c => is_json_ws c = true) ws -> is_json_ws b = false ->
  skip_ws (ws ++ b :: t) = b :: t.
Proof. intros Hws Hb. rewrite skip_ws_app by done. simpl. by rewrite Hb. Qed.

Ltac step_close :=
  rewrite skip_ws_close by done;
  cbn -[parse_value parse_elements parse_members skip_ws app].

Lemma tight_length (c : jstring) : tight c -> (1 <= length c)%nat.
Proof. intros [(x & c' & -> & _) _]. simpl. lia. Qed.

Ltac list_eq :=
  repeat (rewrite <- app_assoc || rewrite <- app_comm_cons); reflexivity.

Lemma parse_elements_local (pv : jstring -> option (json * jstring)) :
  local_pv pv ->
  forall n acc s v rest,
    parse_elements pv n acc s = Some (v, rest) ->
    exists c, s = c ++ 93%N :: rest
              /\ forall f' n' t, (length c <= f')%nat -> (length c <= n')%nat ->
                   starts_nonws (c ++ 93%N :: t)
                   /\ parse_elements (parse_value f') n' acc (c ++ 93%N :: t) = Some (v, t).
Proof.
  intros Hpv. induction n as [|n IH]; intros acc s v rest; [done|].
  cbn [parse_elements].
  destruct (pv s) as [[v1 rest1]|] eqn:Hv1; [|done].
  destruct (Hpv _ _ _ Hv1) as (c1 & -> & Htight & Hloc).
  destruct (skip_ws_spec rest1) as (ws & Erest1 & Hws).
  destruct (skip_ws rest1) as [|x r]; [done|].
  destruct (N.eqb_spec x 44) as [->|Hcomma].
  - intros Hrec. destruct (IH _ _ _ _ Hrec) as (c2 & Er & Hloc2).
    destruct (skip_ws_spec r) as (ws2 & Er2 & Hws2). rewrite Er in Er2.
    exists (c1 ++ ws ++ 44%N :: ws2 ++ c2). split.
    { rewrite Erest1, Er2. list_eq. }
    intros f' n' t Hf Hn. rewrite !length_app in Hf, Hn. simpl in Hf, Hn.
    rewrite !length_app in Hf, Hn.
    split; [rewrite <- app_assoc; by apply tight_starts|].
    destruct n' as [|n'']; [pose proof (tight_length _ Htight); lia|].
    cbn [parse_elements].
    replace ((c1 ++ ws ++ 44%N :: ws2 ++ c2) ++ 93%N :: t)
      with (c1 ++ (ws ++ 44%N :: ws2 ++ c2 ++ 93%N :: t)) by list_eq.
    rewrite Hloc; [|lia|by apply ws_app_ends_number].
    step_close. rewrite skip_ws_app by done.
    destruct (Hloc2 f' n'' t ltac:(lia) ltac:(pose proof (tight_length _ Htight); lia))
      as [Hst Hpe].
    by rewrite (skip_ws_starts _ Hst).
  - destruct (N.eqb_spec x 93) as [->|]; [|done]. intros [= <- <-].
    exists (c1 ++ ws). split; [rewrite Erest1; list_eq|].
    intros f' n' t Hf Hn. rewrite !length_app in Hf, Hn.
    split; [rewrite <- app_assoc; by apply tight_starts|].
    destruct n' as [|n'']; [pose proof (tight_length _ Htight); lia|].
    cbn [parse_elements].
    replace ((c1 ++ ws) ++ 93%N :: t) with (c1 ++ (ws ++ 93%N :: t)) by list_eq.
    rewrite Hloc; [|lia|by apply ws_app_ends_number].
    step_close. done.
Qed.

Lemma parse_members_local (pv : jstring -> option (json * jstring)) :
  local_pv pv ->
  forall n acc s v rest,
    parse_members pv n acc s = Some (v, rest) ->
    exists c, s = c ++ 125%N :: rest
              /\ forall f' n' t, (length c <= f')%nat -> (length c <= n')%nat ->
                   starts_nonws (c ++ 125%N :: t)
                   /\ parse_members (parse_value f') n' acc (c ++ 125%N :: t) = Some (v, t).
Proof.
  intros Hpv. induction n as [|n IH]; intros acc s v rest; [done|].
  cbn [parse_members].
  destruct s as [|q r0]; [done|].
  destruct (N.eqb_spec q 34) as [->|]; [|done].
  destruct (parse_string_body r0) as [[k r1]|] eqn:Hk; [|done].
  apply (parse_string_body_local (S (length r0))) in Hk as (ck & -> & Hkloc); [|lia].
  destruct (skip_ws_spec r1) as (wsa & Er1 & Hwsa).
  destruct (skip_ws r1) as [|c1 r2]; [done|].
  destruct (N.eqb_spec c1 58) as [->|]; [|done].
  destruct (skip_ws_spec r2) as (wsb & Er2 & Hwsb).
  destruct (pv (skip_ws r2)) as [[v1 r3]|] eqn:Hv1; [|done].
  destruct (Hpv _ _ _ Hv1) as (cv & Ecv & Htight & Hloc).
  destruct (skip_ws_spec r3) as (wsc & Er3 & Hwsc).
  destruct (skip_ws r3) as [|x r]; [done|].
  assert (Hone : forall tail,
            34%N :: (ck ++ 34%N :: wsa ++ 58%N :: wsb ++ cv ++ tail)
            = (34%N :: ck ++ 34%N :: wsa ++ 58%N :: wsb ++ cv) ++ tail)
    by (intros; list_eq).
  destruct (N.eqb_spec x 44) as [->|Hcomma].
  - intros Hrec. destruct (IH _ _ _ _ Hrec) as (c2 & Er & Hloc2).
    destruct (skip_ws_spec r) as (wsd & Erd & Hwsd). rewrite Er in Erd.
    exists (34%N :: ck ++ 34%N :: wsa ++ 58%N :: wsb ++ cv ++ wsc ++ 44%N :: wsd ++ c2).
    split.
    { rewrite Er1, Er2, Ecv, Er3, Erd. list_eq. }
    intros f' n' t Hf Hn. simpl in Hf, Hn.
    rewrite ?length_app in Hf, Hn. simpl in Hf, Hn.
    rewrite ?length_app in Hf, Hn. simpl in Hf, Hn.
    rewrite ?length_app in Hf, Hn. simpl in Hf, Hn.
    rewrite ?length_app in Hf, Hn.
    split; [done|].
    destruct n' as [|n'']; [lia|].
    replace ((34%N :: ck ++ 34%N :: wsa ++ 58%N :: wsb ++ cv ++ wsc ++ 44%N :: wsd ++ c2)
             ++ 125%N :: t)
      with (34%N :: (ck ++ 34%N :: (wsa ++ 58%N :: (wsb ++ (cv ++
              (wsc ++ 44%N :: (wsd ++ (c2 ++ 125%N :: t))))))))
      by list_eq.
    cbn [parse_members]. rewrite N.eqb_refl, Hkloc.
    step_close. rewrite skip_ws_app by done.
    rewrite (skip_ws_starts (cv ++ _)) by (by apply tight_starts).
    rewrite Hloc; [|lia|by apply ws_app_ends_number].
    step_close. rewrite skip_ws_app by done.
    destruct (Hloc2 f' n'' t ltac:(lia) ltac:(lia)) as [Hst Hpe].
    by rewrite (skip_ws_starts _ Hst).
  - destruct (N.eqb_spec x 125) as [->|]; [|done]. intros [= <- <-].
    exists (34%N :: ck ++ 34%N :: wsa ++ 58%N :: wsb ++ cv ++ wsc).
    split.
    { rewrite Er1, Er2, Ecv, Er3. list_eq. }
    intros f' n' t Hf Hn. simpl in Hf, Hn.
    rewrite ?length_app in Hf, Hn. simpl in Hf, Hn.
    rewrite ?length_app in Hf, Hn. simpl in Hf, Hn.
    rewrite ?length_app in Hf, Hn.
    split; [done|].
    destruct n' as [|n'']; [lia|].
    replace ((34%N :: ck ++ 34%N :: wsa ++ 58%N :: wsb ++ cv ++ wsc) ++ 125%N :: t)
      with (34%N :: (ck ++ 34%N :: (wsa ++ 58%N :: (wsb ++ (cv ++
              (wsc ++ 125%N :: t))))))
      by list_eq.
    cbn [parse_members]. rewrite N.eqb_refl, Hkloc.
    step_close. rewrite skip_ws_app by done.
    rewrite (skip_ws_starts (cv ++ _)) by (by apply tight_starts).
    rewrite Hloc; [|lia|by apply ws_app_ends_number].
    step_close. done.
Qed.

Lemma tight_ends (x y : N) (mid : jstring) :
  is_js_space x = false -> is_js_space y = false -> tight (x :: mid ++ [y]).
Proof.
  intros Hx Hy. split; [by eexists _, _|]. exists (x :: mid), y. done.
Qed.

Lemma parse_value_local (f : nat) : local_pv (parse_value f).
Proof.
  induction f as [|f IH]; [done|]. intros s v rest.
  cbn [parse_value]. destruct s as [|c r]; [done|].
  destruct (N.eqb_spec c 123) as [->|Hobj].
  { destruct (skip_ws_spec r) as (ws & Er & Hws).
    pose proof (skip_ws_result r) as Hres.
    destruct (skip_ws r) as [|c' r']; [done|]. specialize (Hres _ _ eq_refl).
    destruct (N.eqb_spec c' 125) as [->|Hclose].
    - intros [= <- <-]. exists (123%N :: ws ++ [125%N]).
      split; [rewrite Er; list_eq|]. split; [by apply tight_ends|].
      intros [|f'] t Hf _; [simpl in Hf; lia|].
      replace ((123%N :: ws ++ [125%N]) ++ t) with (123%N :: (ws ++ 125%N :: t)) by list_eq.
      cbn [parse_value]. rewrite N.eqb_refl. step_close. done.
    - intros (cm & Ecm & Hloc)%(parse_members_local _ IH).
      exists (123%N :: ws ++ cm ++ [125%N]).
      split; [rewrite Er, Ecm; list_eq|]. split.
      { replace (ws ++ cm ++ [125%N]) with ((ws ++ cm) ++ [125%N]) by list_eq.
        by apply tight_ends. }
      intros [|f'] t Hf _; [simpl in Hf; lia|].
      simpl in Hf. rewrite !length_app in Hf. simpl in Hf.
      replace ((123%N :: ws ++ cm ++ [125%N]) ++ t)
        with (123%N :: (ws ++ cm ++ 125%N :: t)) by list_eq.
      cbn [parse_value]. rewrite N.eqb_refl. rewrite skip_ws_app by done.
      destruct (Hloc f' (length (ws ++ cm ++ 125%N :: t)) t) as [Hst Hpm];
        [lia|rewrite !length_app; lia|].
      rewrite (skip_ws_starts _ Hst).
      destruct cm as [|x cm'].
      + by injection Ecm as -> _.
      + injection Ecm as <- _. cbn [app].
        destruct (N.eqb_spec c' 125); [done|]. exact Hpm. }
  destruct (N.eqb_spec c 91) as [->|Harr].
  { destruct (skip_ws_spec r) as (ws & Er & Hws).
    pose proof (skip_ws_result r) as Hres.
    destruct (skip_ws r) as [|c' r']; [done|]. specialize (Hres _ _ eq_refl).
    destruct (N.eqb_spec c' 93) as [->|Hclose].
    - intros [= <- <-]. exists (91%N :: ws ++ [93%N]).
      split; [rewrite Er; list_eq|]. split; [by apply tight_ends|].
      intros [|f'] t Hf _; [simpl in Hf; lia|].
      replace ((91%N :: ws ++ [93%N]) ++ t) with (91%N :: (ws ++ 93%N :: t)) by list_eq.
      cbn [parse_value]. simpl N.eqb. cbv iota. step_close. done.
    - intros (ce & Ece & Hloc)%(parse_elements_local _ IH).
      exists (91%N :: ws ++ ce ++ [93%N]).
      split; [rewrite Er, Ece; list_eq|]. split.
      { replace (ws ++ ce ++ [93%N]) with ((ws ++ ce) ++ [93%N]) by list_eq.
        by apply tight_ends. }
      intros [|f'] t Hf _; [simpl in Hf; lia|].
      simpl in Hf. rewrite !length_app in Hf. simpl in Hf.
      replace ((91%N :: ws ++ ce ++ [93%N]) ++ t)
        with (91%N :: (ws ++ ce ++ 93%N :: t)) by list_eq.
      cbn [parse_value]. simpl N.eqb. cbv iota. rewrite skip_ws_app by done.
      destruct (Hloc f' (length (ws ++ ce ++ 93%N :: t)) t) as [Hst Hpe];
        [lia|rewrite !length_app; lia|].
      rewrite (skip_ws_starts _ Hst).
      destruct ce as [|x ce'].
      + by injection Ece as -> _.
      + injection Ece as <- _. cbn [app].
        destruct (N.eqb_spec c' 93); [done|]. exact Hpe. }
  destruct (N.eqb_spec c 34) as [->|Hstr].
  { destruct (parse_string_body r) as [[str rest']|] eqn:Hs; [|done].
    intros [= <- <-].
    apply (parse_string_body_local (S (length r))) in Hs as (cs & -> & Hloc); [|lia].
    exists (34%N :: cs ++ [34%N]). split; [list_eq|]. split; [by apply tight_ends|].
    intros [|f'] t Hf _; [simpl in Hf; lia|].
    replace ((34%N :: cs ++ [34%N]) ++ t) with (34%N :: (cs ++ 34%N :: t)) by list_eq.
    cbn [parse_value]. simpl N.eqb. cbv iota. by rewrite Hloc. }
  destruct (N.eqb_spec c 116) as [->|Ht].
  { destruct (expect (lit "rue") r) as [rest'|] eqn:He; [|done].
    intros [= <- <-]. apply expect_local in He as (-> & Hloc).
    exists (lit "true"). split; [done|]. split; [by apply (tight_ends 116 101 (lit "ru"))|].
    intros [|f'] t Hf _; [simpl in Hf; lia|].
    change (lit "true" ++ t) with (116%N :: (lit "rue" ++ t)).
    cbn [parse_value]. simpl N.eqb. cbv iota. by rewrite Hloc. }
  destruct (N.eqb_spec c 102) as [->|Hf].
  { destruct (expect (lit "alse") r) as [rest'|] eqn:He; [|done].
    intros [= <- <-]. apply expect_local in He as (-> & Hloc).
    exists (lit "false"). split; [done|]. split; [by apply (tight_ends 102 101 (lit "als"))|].
    intros [|f'] t Hf' _; [simpl in Hf'; lia|].
    change (lit "false" ++ t) with (102%N :: (lit "alse" ++ t)).
    cbn [parse_value]. simpl N.eqb. cbv iota. by rewrite Hloc. }
  destruct (N.eqb_spec c 110) as [->|Hn].
  { destruct (expect (lit "ull") r) as [rest'|] eqn:He; [|done].
    intros [= <- <-]. apply expect_local in He as (-> & Hloc).
    exists (lit "null"). split; [done|]. split; [by apply (tight_ends 110 108 (lit "ul"))|].
    intros [|f'] t Hf' _; [simpl in Hf'; lia|].
    change (lit "null" ++ t) with (110%N :: (lit "ull" ++ t)).
    cbn [parse_value]. simpl N.eqb. cbv iota. by rewrite Hloc. }
  destruct (parse_number (c :: r)) as [[lex rest']|] eqn:Hnum; [|done].
  intros [= <- <-]. apply parse_number_local in Hnum as (E & Htight & Hloc).
  exists lex. split; [exact E|]. split; [exact Htight|].
  intros [|f'] t Hf' Hend; [pose proof (tight_length _ Htight); lia|].
  destruct lex as [|x lex']; [by destruct Htight as [(? & ? & ? & _) _]|].
  injection E as <- E.
  change ((c :: lex') ++ t) with (c :: (lex' ++ t)). cbn [parse_value].
  destruct (N.eqb_spec c 123); [done|]. destruct (N.eqb_spec c 91); [done|].
  destruct (N.eqb_spec c 34); [done|]. destruct (N.eqb_spec c 116); [done|].
  destruct (N.eqb_spec c 102); [done|]. destruct (N.eqb_spec c 110); [done|].
  change (c :: (lex' ++ t)) with ((c :: lex') ++ t). by rewrite Hloc.
Qed.

(** The fuel of [JSON_parse] is enough: a value that some fuel parses is
    parsed with the fuel that [JSON_parse] supplies. *)
Lemma parse_value_fuel (f : nat) (s : jstring) (v : json) (rest : jstring) :
  parse_value f (skip_ws s) = Some (v, rest) ->
  skip_ws rest = [] ->
  JSON_parse s = Some v.
Proof.
  intros Hparse Hrest. unfold JSON_parse.
  destruct (parse_value_local f _ _ _ Hparse) as (c & Ec & Htight & Hloc).
  destruct (skip_ws_spec rest) as (ws & Erest & Hws). rewrite Hrest, app_nil_r in Erest.
  subst rest.
  destruct (skip_ws_spec s) as (ws0 & Es & _).
  assert (Hlen : (length c <= S (length s))%nat).
  { rewrite Es, Ec, !length_app. lia. }
  rewrite Ec.
  destruct ws as [|w ws'].
  - rewrite (Hloc _ [] Hlen eq_refl). done.
  - rewrite (Hloc _ (w :: ws') Hlen).
    + by rewrite Hrest.
    + apply ws_ends_number. by inversion Hws.
Qed.

Lemma trim_start_app_ws (ws x : jstring) :
  Forall (fun c => is_json_ws c = true) ws -> trim_start (ws ++ x) = trim_start x.
Proof.
  induction 1 as [|c ws Hc _ IH]; [done|]. simpl.
  destruct (is_js_space c) eqn:Hs; [done|]. apply json_ws_js_space in Hs. congruence.
Qed.

Lemma trim_start_tight (c t : jstring) : tight c -> trim_start (c ++ t) = c ++ t.
Proof. intros [(x & c' & -> & Hx) _]. simpl. by rewrite Hx. Qed.

(** [trim] takes white space off a JSON text and nothing else. *)
Lemma trim_JSON (ws0 c ws : jstring) :
  Forall (fun c => is_json_ws c = true) ws0 ->
  Forall (fun c => is_json_ws c = true) ws ->
  tight c ->
  trim (ws0 ++ c ++ ws) = c.
Proof.
  intros Hws0 Hws Htight. unfold trim.
  rewrite trim_start_app_ws, trim_start_tight by done.
  rewrite rev_app_distr, trim_start_app_ws by (by apply Forall_rev).
  destruct Htight as [_ (c' & y & -> & Hy)].
  rewrite rev_app_distr. simpl. rewrite Hy. simpl.
  by rewrite rev_involutive.
Qed.

(** A text that [JSON.parse] accepts is accepted, with the same value, after
    [trim]. *)
Lemma JSON_parse_trim (s : jstring) (v : json) :
  JSON_parse s = Some v -> JSON_parse (trim s) = Some v.
Proof.
  unfold JSON_parse at 1.
  destruct (parse_value (S (length s)) (skip_ws s)) as [[v' rest]|] eqn:Hparse; [|done].
  destruct (skip_ws rest) as [|? ?] eqn:Hrest; [|done]. intros [= ->].
  destruct (parse_value_local _ _ _ _ Hparse) as (c & Ec & Htight & Hloc).
  destruct (skip_ws_spec rest) as (ws & Erest & Hws). rewrite Hrest, app_nil_r in Erest.
  destruct (skip_ws_spec s) as (ws0 & Es & Hws0).
  rewrite Es, Ec, Erest, trim_JSON by done.
  apply (parse_value_fuel (S (length c)) c v []); [|done].
  rewrite skip_ws_starts.
  - rewrite <- (app_nil_r c) at 2. apply Hloc; [lia|done].
  - rewrite <- (app_nil_r c). by apply tight_starts.
Qed.

(** ** The parse step *)

Lemma from_first_spec (c : N) (s t : jstring) :
  from_first c s = Some t <->
  exists pre r, s = pre ++ c :: r /\ t = c :: r /\ c ∉ pre.
Proof.
  split.
  - revert t. induction s as [|x s IH]; intros t; [done|]. simpl.
    destruct (N.eqb_spec x c) as [->|Hne].
    + intros [= <-]. exists [], s. split; [done|]. split; [done|]. apply not_elem_of_nil.
    + intros (pre & r & -> & -> & Hpre)%IH. exists (x :: pre), r.
      split; [done|]. split; [done|]. apply not_elem_of_cons. split; [congruence|done].
  - intros (pre & r & -> & -> & Hpre). induction pre as [|x pre IH]; simpl.
    + by rewrite N.eqb_refl.
    + apply not_elem_of_cons in Hpre as [Hx Hpre].
      destruct (N.eqb_spec x c) as [->|_]; [done|]. by apply IH.
Qed.

Lemma through_last_None (c : N) (s : jstring) : through_last c s = None <-> c ∉ s.
Proof.
  induction s as [|x s IH]; simpl.
  - split; [intros _; apply not_elem_of_nil|done].
  - destruct (through_last c s) as [p|].
    + split; [done|]. intros [_ Hs]%not_elem_of_cons. by apply IH in Hs.
    + destruct (N.eqb_spec x c) as [->|Hne].
      * split; [done|]. intros []. by left.
      * split; [|done]. intros _. apply not_elem_of_cons.
        split; [congruence|]. by apply IH.
Qed.

Lemma through_last_spec (c : N) (s m : jstring) :
  through_last c s = Some m <->
  exists m0 post, s = m0 ++ c :: post /\ m = m0 ++ [c] /\ c ∉ post.
Proof.
  split.
  - revert m. induction s as [|x s IH]; intros m; [done|]. simpl.
    destruct (through_last c s) as [p|] eqn:Hp.
    + intros [= <-]. destruct (IH p eq_refl) as (m0 & post & -> & -> & Hpost).
      by exists (x :: m0), post.
    + destruct (N.eqb_spec x c) as [->|_]; [|done].
      intros [= <-]. exists [], s. split; [done|]. split; [done|].
      by apply through_last_None.
  - intros (m0 & post & -> & -> & Hpost). induction m0 as [|x m0 IH]; simpl.
    + apply through_last_None in Hpost. by rewrite Hpost, N.eqb_refl.
    + by rewrite IH.
Qed.

(** What the object pattern matches: the text from the first opening brace
    through the last closing brace after it. *)
Lemma match_object_spec (s m : jstring) :
  match_object s = Some m <->
  exists pre mid post,
    s = pre ++ 123%N :: mid ++ 125%N :: post
    /\ m = 123%N :: mid ++ [125%N]
    /\ (123%N ∉ pre) /\ (125%N ∉ post).
Proof.
  unfold match_object. split.
  - destruct (from_first 123 s) as [t|] eqn:Ht; [|done].
    apply from_first_spec in Ht as (pre & r & -> & -> & Hpre).
    intros ([|x m0] & post & E & -> & Hpost)%through_last_spec; [done|].
    injection E as <- ->. by exists pre, m0, post.
  - intros (pre & mid & post & -> & -> & Hpre & Hpost).
    assert (Ht : from_first 123 (pre ++ 123%N :: mid ++ 125%N :: post)
                 = Some (123%N :: mid ++ 125%N :: post)).
    { apply from_first_spec. by exists pre, (mid ++ 125%N :: post). }
    rewrite Ht. apply through_last_spec. by exists (123%N :: mid), post.
Qed.

Lemma expect_cons_ne (a c : N) (w s : jstring) :
  a <> c -> expect (a :: w) (c :: s) = None.
Proof. intros Hne. cbn [expect]. by destruct (N.eqb_spec a c). Qed.

Lemma expect_cons_eq (a : N) (w s : jstring) :
  expect (a :: w) (a :: s) = expect w s.
Proof. cbn [expect]. by rewrite N.eqb_refl. Qed.

(** No fence starts at a character that is neither a backquote nor a line
    feed before a backquote. *)
Lemma match_fence_None (c : N) (s : jstring) :
  c <> 96%N -> (c = 10%N -> head s <> Some 96%N) -> match_fence (c :: s) = None.
Proof.
  intros Hc Hs. unfold match_fence.
  change fence_json with (96%N :: 96%N :: 96%N :: lit "json").
  change fence with [96%N; 96%N; 96%N].
  rewrite (expect_cons_ne 96 c) by congruence.
  rewrite (expect_cons_ne 96 c [_; _]) by congruence.
  destruct (decide (c = 10%N)) as [->|Hne].
  - rewrite expect_cons_eq. destruct s as [|c' s']; [done|].
    rewrite expect_cons_ne; [done|]. intros <-. by apply Hs.
  - by rewrite expect_cons_ne.
Qed.

(** A text without backquotes, followed by a line feed and the closing
    fence, loses the fence and nothing else. *)
Lemma remove_fences_closing (body : jstring) :
  96%N ∉ body -> remove_fences 0 (body ++ 10%N :: fence) = body.
Proof.
  induction body as [|c r IH]; [done|].
  intros [Hc Hr]%not_elem_of_cons.
  change ((c :: r) ++ 10%N :: fence) with (c :: (r ++ 10%N :: fence)).
  cbn [remove_fences]. rewrite match_fence_None.
  - by rewrite IH.
  - congruence.
  - intros _. destruct r as [|c' r']; [done|].
    apply not_elem_of_cons in Hr as [Hc' _]. simpl. congruence.
Qed.

(** The content of a fenced response, once cleaned. *)
Lemma cleanJsonResponse_fenced (body : jstring) :
  96%N ∉ body ->
  cleanJsonResponse (fence_json ++ 10%N :: body ++ 10%N :: fence) = trim body.
Proof.
  intros Hbody. unfold cleanJsonResponse.
  change (remove_fences 0 (fence_json ++ 10%N :: body ++ 10%N :: fence))
    with (remove_fences 0 (body ++ 10%N :: fence)).
  by rewrite remove_fences_closing.
Qed.

(** C2, as amended.  The parse step removes the code fences, trims, and
    attempts a direct JSON parse.  In [extractJsonFromText] a failed direct
    parse is followed by one more attempt, on the text from the first
    opening brace through the last closing brace after it (the greedy
    pattern, not brace matching); the function returns [null] when both
    attempts fail.  In [analyzeImage] there is no second attempt: a failed
    direct parse is a failure.  JSON text without backquotes, wrapped in a
    json fence, parses to the same value in both. *)
Theorem parse_step_cases (Number_toString : jstring -> jstring) :
  (forall text v,
     JSON_parse (cleanJsonResponse text) = Some v ->
     extractJsonFromText (Some text) = v)
  /\ (forall text,
        JSON_parse (cleanJsonResponse text) = None ->
        extractJsonFromText (Some text) =
        match match_object (cleanJsonResponse text) with
        | Some m => default JNull (JSON_parse m)
        | None => JNull
        end)
  /\ (forall s m,
        match_object s = Some m <->
        exists pre mid post,
          s = pre ++ 123%N :: mid ++ 125%N :: post
          /\ m = 123%N :: mid ++ [125%N]
          /\ (123%N ∉ pre) /\ (125%N ∉ post))
  /\ (forall text,
        text <> [] ->
        JSON_parse (cleanJsonResponse text) = None ->
        analyzeImage Number_toString (Return (Some text)) = Throw generic_failure)
  /\ (forall body v,
        96%N ∉ body ->
        JSON_parse body = Some v ->
        JSON_parse (cleanJsonResponse (fence_json ++ 10%N :: body ++ 10%N :: fence))
          = Some v
        /\ extractJsonFromText (Some (fence_json ++ 10%N :: body ++ 10%N :: fence)) = v).
Proof.
  split_and!.
  - intros text v Hparse. unfold extractJsonFromText.
    change (trim (remove_fences 0 text)) with (cleanJsonResponse text).
    by rewrite Hparse.
  - intros text Hparse. unfold extractJsonFromText.
    change (trim (remove_fences 0 text)) with (cleanJsonResponse text).
    rewrite Hparse. destruct (match_object _) as [m|]; [|done].
    by destruct (JSON_parse m).
  - apply match_object_spec.
  - intros [|c text] Hne Hparse; [done|].
    rewrite analyzeImage_content. unfold parse_and_enrich. by rewrite Hparse.
  - intros body v Hbody Hparse.
    assert (Hclean : JSON_parse
              (cleanJsonResponse (fence_json ++ 10%N :: body ++ 10%N :: fence)) = Some v).
    { rewrite cleanJsonResponse_fenced by done. by apply JSON_parse_trim. }
    split; [done|]. unfold extractJsonFromText.
    change (trim (remove_fences 0 ?t)) with (cleanJsonResponse t).
    by rewrite Hclean.
Qed.

Lemma parse_step_cases_witness :
  extractJsonFromText (Some (jtext " {'a':1} ")) = JObj [(lit "a", JNum (lit "1"))]
  /\ extractJsonFromText (Some (jtext "Here it is: {'a':1}. Enjoy"))
     = JObj [(lit "a", JNum (lit "1"))]
  /\ match_object (jtext "x {'a':1} y {'b':2} z") = Some (jtext "{'a':1} y {'b':2}")
  /\ analyzeImage (fun lexeme => lexeme) (Return (Some (jtext "Here it is: {'a':1}")))
     = Throw generic_failure
  /\ JSON_parse (cleanJsonResponse
                   (fence_json ++ 10%N :: jtext " {'ingredients':[]} " ++ 10%N :: fence))
     = Some (JObj [(lit "ingredients", JArr [])]).
Proof.
  destruct (parse_step_cases (fun lexeme => lexeme))
    as (Hdirect & Hsecond & Hmatch & Hnone & Hfenced).
  split_and!.
  - apply Hdirect. by vm_compute.
  - rewrite Hsecond; by vm_compute.
  - apply Hmatch. exists (jtext "x "), (jtext "'a':1} y {'b':2"), (jtext " z").
    split_and!; [by vm_compute|by vm_compute|decide_closed|decide_closed].
  - apply Hnone; [done|by vm_compute].
  - apply Hfenced; [decide_closed|by vm_compute].
Defined.

(** C2, where the claim as stated fails.  On a text with two objects the
    parse step of the spec (brace matching) finds the first object, while
    [extractJsonFromText] (first brace through last brace) returns [null];
    on an object after some prose the parse step of the spec succeeds,
    while [analyzeImage], which has no second attempt, fails. *)
Lemma parse_step_counterexample :
  spec_parse_step (jtext "{'a':1} {'b':2}") = Some (JObj [(lit "a", JNum (lit "1"))])
  /\ extractJsonFromText (Some (jtext "{'a':1} {'b':2}")) = JNull
  /\ spec_parse_step (jtext "Sure: {'ingredients':[]}")
     = Some (JObj [(lit "ingredients", JArr [])])
  /\ analyzeImage (fun lexeme => lexeme) (Return (Some (jtext "Sure: {'ingredients':[]}")))
     = Throw generic_failure.
Proof. by vm_compute. Qed.

(** ** The endpoints and the detached task *)

Lemma GET_absent (fs : store) (t : Z) (id : jstring) :
  id <> [] -> record fs id = None ->
  GET fs t (Some id) = (fs, mkResponse 404 (ErrorBody (lit "Job not found"))).
Proof.
  intros Hid Hrec. destruct id as [|c id]; [done|].
  unfold GET, record in *. rewrite getJob_unfold.
  by destruct (stat fs (getJobPath (c :: id))) as [| |[|[|j]]].
Qed.

(** C7.  For a submission without an image field, [POST] answers at once
    with status 400 and the error message [No image provided]: the answer
    carries no job id and the store is unchanged.  A status check afterwards,
    for any (non-empty) id under which the store holds no job, answers 404
    with [Job not found]. *)
Theorem POST_without_image (fs : store) (fields : list (jstring * form_value))
    (uuid : jstring) (now : Z) :
  formData_get fields (lit "image") = None ->
  exists r,
    POST_begin fs (Return fields) uuid now = (fs, Responded r)
    /\ http_status r = 400
    /\ http_body r = ErrorBody (lit "No image provided")
    /\ forall t id,
         id <> [] -> record fs id = None ->
         GET fs t (Some id)
         = (fs, mkResponse 404 (ErrorBody (lit "Job not found"))).
Proof.
  intros Himage. eexists. unfold POST_begin. rewrite Himage. simpl.
  split_and!; try done. intros t id. apply GET_absent.
Qed.

(** In a store without files no id has a record. *)
Lemma record_empty (id : jstring) : record ∅ id = None.
Proof.
  unfold record, stat. destruct (is_dir (getJobPath id)); [done|].
  destruct (is_dir (removelast (getJobPath id))); [|done]. by rewrite lookup_empty.
Qed.

Lemma POST_without_image_witness :
  formData_get [(lit "note", FormText (lit "hello"))] (lit "image") = None
  /\ exists r,
       POST_begin ∅ (Return [(lit "note", FormText (lit "hello"))]) (lit "u-1") 5
       = (∅, Responded r)
       /\ http_status r = 400
       /\ http_body r = ErrorBody (lit "No image provided")
       /\ GET ∅ 6 (Some (lit "no-such-job"))
          = (∅, mkResponse 404 (ErrorBody (lit "Job not found"))).
Proof.
  split; [by vm_compute|].
  destruct (POST_without_image ∅ [(lit "note", FormText (lit "hello"))] (lit "u-1") 5)
    as (r & Hpost & Hstatus & Hbody & Hget); [by vm_compute|].
  exists r. split; [exact Hpost|]. split; [exact Hstatus|]. split; [exact Hbody|].
  apply Hget; [done|apply record_empty].
Defined.

Lemma pipeline_task_unfold (Number_toString : jstring -> jstring) (fs : store)
    (jobId : jstring) (service : service_outcome) (t_lit t_read t_write : Z) :
  pipeline_task Number_toString fs jobId service t_lit t_read t_write =
  updateJob fs t_read t_write jobId
    match analyzeImage Number_toString service with
    | Return result => mkUpdate (Some completed) (Some result) None (Some t_lit)
    | Throw error => mkUpdate (Some failed) None (Some (error_message error)) (Some t_lit)
    end.
Proof. unfold pipeline_task. by destruct (analyzeImage _ _) as [?|[]]. Qed.

Lemma record_updateJob_live (fs : store) (t_read t_write : Z) (id : jstring)
    (u : JobUpdate) (j : AnalysisJob) :
  record fs id = Some j ->
  t_read - job_timestamp j <= 3600000 ->
  record (updateJob fs t_read t_write id u) id = Some (merge j u t_write).
Proof.
  intros Hrec Hage. unfold record in *. rewrite updateJob_unfold.
  destruct (stat fs (getJobPath id)) as [| |[|[|j']]] eqn:Hst; try done.
  injection Hrec as ->. unfold retention.
  destruct (Z.gtb_spec (t_read - job_timestamp j) (60 * 60 * 1000)); [lia|].
  by rewrite (stat_insert_eq _ _ _ _ Hst).
Qed.

Lemma record_updateJob_gone (fs : store) (t_read t_write : Z) (id : jstring)
    (u : JobUpdate) :
  (record fs id = None
   \/ exists j, record fs id = Some j /\ t_read - job_timestamp j > 3600000) ->
  record (updateJob fs t_read t_write id u) id = None.
Proof.
  unfold record. rewrite updateJob_unfold. intros [Hrec|(j & Hrec & Hage)].
  - by destruct (stat fs (getJobPath id)) as [| |[|[|j']]] eqn:Hst; rewrite ?Hst.
  - destruct (stat fs (getJobPath id)) as [| |[|[|j']]] eqn:Hst; try done.
    injection Hrec as ->. unfold retention.
    destruct (Z.gtb_spec (t_read - job_timestamp j) (60 * 60 * 1000)); [|lia].
    by rewrite (stat_delete_eq _ _ _ Hst).
Qed.

(** C6, as amended.  The detached task never throws: it is a function to
    the store.  A failure of the pipeline is caught, whatever it is: an
    error of the service is passed on by [analyzeImage] as it is, a content
    that does not parse becomes the error [Failed to parse analysis
    results].  When the record of the job is still there and not older than
    one hour, the task rewrites it with status failed, the message of the
    error and the result as it was (absent, for a job in processing); on
    success it rewrites it with status completed and the result.  When the
    record is gone or older than one hour, the task writes nothing and the
    job has no record afterwards. *)
Theorem pipeline_task_cases (Number_toString : jstring -> jstring) (fs : store)
    (jobId : jstring) (service : service_outcome) (t_lit t_read t_write : Z) :
  let fs' := pipeline_task Number_toString fs jobId service t_lit t_read t_write in
  (forall e, service = Throw e -> analyzeImage Number_toString service = Throw e)
  /\ (forall text, service = Return (Some text) -> text <> [] ->
        JSON_parse (cleanJsonResponse text) = None ->
        analyzeImage Number_toString service = Throw generic_failure)
  /\ (forall e j,
        analyzeImage Number_toString service = Throw e ->
        record fs jobId = Some j ->
        t_read - job_timestamp j <= 3600000 ->
        record fs' jobId
        = Some (mkJob failed (job_result j) (Some (error_message e)) t_write))
  /\ (forall result j,
        analyzeImage Number_toString service = Return result ->
        record fs jobId = Some j ->
        t_read - job_timestamp j <= 3600000 ->
        record fs' jobId
        = Some (mkJob completed (Some result) (job_error j) t_write))
  /\ (record fs jobId = None
      \/ (exists j, record fs jobId = Some j /\ t_read - job_timestamp j > 3600000) ->
      record fs' jobId = None).
Proof.
  intros fs'. unfold fs'. rewrite pipeline_task_unfold. split_and!.
  - by intros e ->.
  - intros [|c text] -> Hne Hparse; [done|].
    rewrite analyzeImage_content. unfold parse_and_enrich. by rewrite Hparse.
  - intros e j -> Hrec Hage. by rewrite (record_updateJob_live _ _ _ _ _ j).
  - intros result j -> Hrec Hage. by rewrite (record_updateJob_live _ _ _ _ _ j).
  - apply record_updateJob_gone.
Qed.

Lemma pipeline_task_cases_witness :
  let fs := run_ops ∅ [OpCreate (lit "u-1") 0;
                       OpUpdate (lit "u-1") 1 1 (mkUpdate (Some processing) None None None)] in
  let timeout : service_outcome := Throw (ErrorObj (lit "Request timed out.")) in
  let okay : service_outcome := Return (Some (jtext "{'ingredients':[]}")) in
  let prose : service_outcome := Return (Some (lit "I cannot read this label.")) in
  record (pipeline_task (fun l => l) fs (lit "u-1") timeout 50 51 52) (lit "u-1")
  = Some (mkJob failed None (Some (lit "Request timed out.")) 52)
  /\ record (pipeline_task (fun l => l) fs (lit "u-1") prose 50 51 52) (lit "u-1")
     = Some (mkJob failed None (Some (lit "Failed to parse analysis results")) 52)
  /\ record (pipeline_task (fun l => l) fs (lit "u-1") okay 50 51 52) (lit "u-1")
     = Some (mkJob completed (Some (JObj [(lit "ingredients", JArr [])])) None 52)
  /\ record (pipeline_task (fun l => l) fs (lit "u-2") timeout 50 51 52) (lit "u-2")
     = None.
Proof.
  intros fs timeout okay prose. split_and!.
  - destruct (pipeline_task_cases (fun l => l) fs (lit "u-1") timeout 50 51 52)
      as (Hpass & _ & Hfail & _).
    apply (Hfail (ErrorObj (lit "Request timed out.")) (mkJob processing None None 1));
      [by apply Hpass|by vm_compute|by vm_compute].
  - destruct (pipeline_task_cases (fun l => l) fs (lit "u-1") prose 50 51 52)
      as (_ & Hparse & Hfail & _).
    apply (Hfail generic_failure (mkJob processing None None 1));
      [|by vm_compute|by vm_compute].
    apply (Hparse (lit "I cannot read this label.")); [done|done|by vm_compute].
  - destruct (pipeline_task_cases (fun l => l) fs (lit "u-1") okay 50 51 52)
      as (_ & _ & _ & Hok & _).
    apply (Hok (JObj [(lit "ingredients", JArr [])]) (mkJob processing None None 1));
      [by vm_compute|by vm_compute|by vm_compute].
  - destruct (pipeline_task_cases (fun l => l) fs (lit "u-2") timeout 50 51 52)
      as (_ & _ & _ & _ & Hgone).
    apply Hgone. left. by vm_compute.
Defined.

(** C6, where the claim as stated fails: the job is in processing since
    time 1; the service times out and the task ends at a time when the
    record is older than one hour.  The failure is not written into the
    record: the record is removed, and the job ends with no record instead
    of the status failed. *)
Lemma pipeline_task_expired_counterexample :
  record (run_ops ∅ [OpCreate (lit "u-1") 0;
                     OpUpdate (lit "u-1") 1 1 (mkUpdate (Some processing) None None None)])
    (lit "u-1")
  = Some (mkJob processing None None 1)
  /\ record
       (pipeline_task (fun l => l)
          (run_ops ∅ [OpCreate (lit "u-1") 0;
                      OpUpdate (lit "u-1") 1 1 (mkUpdate (Some processing) None None None)])
          (lit "u-1") (Throw (ErrorObj (lit "Request timed out.")))
          3600002 3600002 3600002)
       (lit "u-1")
     = None.
Proof. by vm_compute. Qed.

(** ** The life of one job *)

Lemma stat_shrinks (fs fs' : store) (p : path) :
  shrinks fs fs' -> stat fs' p = Missing \/ stat fs' p = stat fs p.
Proof.
  intros Hs. unfold stat. destruct (is_dir p); [by right|].
  destruct (is_dir (removelast p)); [|by right].
  destruct (Hs p) as [-> | ->]; [by left|by right].
Qed.

Lemma stat_other_update (fs : store) (t_read t_write : Z) (id : jstring)
    (u : JobUpdate) (p : path) :
  getJobPath id <> p -> stat (updateJob fs t_read t_write id u) p = stat fs p.
Proof.
  intros Hne. rewrite updateJob_unfold.
  destruct (stat fs (getJobPath id)) as [| |[|[|j]]]; try done.
  destruct (t_read - job_timestamp j >? retention).
  - by apply stat_delete_ne.
  - by apply stat_insert_ne.
Qed.

Lemma stat_other_create (fs fs' : store) (now : Z) (id id' : jstring) (p : path) :
  createJob fs now id = Return (fs', id') -> getJobPath id <> p ->
  stat fs' p = stat fs p.
Proof.
  rewrite createJob_unfold. intros Hc Hne.
  destruct (stat fs (getJobPath id)) as [| |[|d]]; try done.
  - destruct (is_dir (removelast (getJobPath id))); [|done].
    injection Hc as <- _. by apply stat_insert_ne.
  - injection Hc as <- _. by apply stat_insert_ne.
Qed.

Lemma createJob_stat (fs fs' : store) (now : Z) (id id' : jstring) :
  createJob fs now id = Return (fs', id') ->
  stat fs' (getJobPath id) = File (Readable (JobJson (mkJob pending None None now))).
Proof.
  rewrite createJob_unfold.
  destruct (stat fs (getJobPath id)) as [| |[|d]] eqn:Hst; try done.
  - destruct (is_dir (removelast (getJobPath id))) eqn:Hd; [|done].
    intros [= <- _]. apply stat_File_intro; [|done|apply lookup_insert_eq].
    unfold stat in Hst. by destruct (is_dir (getJobPath id)).
  - intros [= <- _]. by apply (stat_insert_eq _ _ _ _ Hst).
Qed.

Lemma createJob_id (fs fs' : store) (now : Z) (id id' : jstring) :
  createJob fs now id = Return (fs', id') -> id' = id.
Proof.
  unfold createJob. destruct (writeFileSync _ _ _); simpl; [|done]. by intros [= _ <-].
Qed.

Lemma POST_begin_created (fs fs' : store) (req : request) (uuid jobId : jstring)
    (now : Z) (image : form_value) :
  POST_begin fs req uuid now = (fs', Awaiting jobId image) ->
  jobId = uuid
  /\ stat fs' (getJobPath uuid) = File (Readable (JobJson (mkJob pending None None now))).
Proof.
  unfold POST_begin. destruct req as [formData|]; [|done].
  destruct (truthy _); [|done]. simpl.
  destruct (formData_get formData (lit "image")); [|done].
  destruct (createJob fs now uuid) as [[fs1 id1]|] eqn:Hc; [|done].
  intros [= <- <- <-]. split; [by eapply createJob_id|by eapply createJob_stat].
Qed.

Lemma GET_shrinks (fs : store) (now : Z) (id : option jstring) :
  shrinks fs (GET fs now id).1.
Proof.
  unfold GET. destruct id as [[|c id]|]; try apply shrinks_refl.
  pose proof (getJob_shrinks fs now (c :: id)) as Hs.
  destruct (getJob fs now (c :: id)) as [fs' [j|]]; exact Hs.
Qed.

Section Lifecycle.

Variable Number_toString : jstring -> jstring.
Variable jobId : jstring.

Lemma lifecycle_inv_shrinks (fs fs' : store) (ph : phase) :
  shrinks fs fs' -> lifecycle_inv jobId (fs, ph) -> lifecycle_inv jobId (fs', ph).
Proof.
  unfold lifecycle_inv. simpl. intros Hs Hinv.
  by destruct (stat_shrinks fs fs' (getJobPath jobId) Hs) as [-> | ->].
Qed.

Lemma record_shrinks (fs fs' : store) (j' : AnalysisJob) :
  shrinks fs fs' -> record fs' jobId = Some j' -> record fs jobId = Some j'.
Proof.
  unfold record. intros Hs.
  by destruct (stat_shrinks fs fs' (getJobPath jobId) Hs) as [-> | ->].
Qed.

Lemma step_preserves_inv (s s' : store * phase) :
  lifecycle_inv jobId s -> step Number_toString jobId s s' -> lifecycle_inv jobId s'.
Proof.
  intros Hinv Hstep. destruct Hstep as
    [fs image t_read t_write fs' r Hres|fs image t_read t_write fs' r Hres
    |fs service t_lit t_read t_write|fs ph now id|fs ph now
    |fs ph id now fs' Hne Hc|fs ph id t_read t_write u Hne].
  - unfold POST_resume in Hres. destruct image; [done|]. injection Hres as <- _.
    unfold lifecycle_inv in *. simpl in *. rewrite updateJob_unfold.
    destruct (stat fs (getJobPath jobId)) as [| |[|[|j]]] eqn:Hst; rewrite ?Hst; try done.
    destruct (t_read - job_timestamp j >? retention).
    + by rewrite (stat_delete_eq _ _ _ Hst).
    + rewrite (stat_insert_eq _ _ _ _ Hst). simpl. tauto.
  - unfold POST_resume in Hres. destruct image; [|done]. by injection Hres as <- _.
  - rewrite pipeline_task_unfold. unfold lifecycle_inv in *. simpl in *.
    rewrite updateJob_unfold.
    destruct (stat fs (getJobPath jobId)) as [| |[|[|j]]] eqn:Hst; rewrite ?Hst; try done.
    destruct (t_read - job_timestamp j >? retention).
    + by rewrite (stat_delete_eq _ _ _ Hst).
    + rewrite (stat_insert_eq _ _ _ _ Hst). destruct Hinv as (_ & Hres & Herr).
      destruct (analyzeImage _ _); simpl; rewrite ?Hres, ?Herr; [left|right]; done.
  - eapply lifecycle_inv_shrinks; [apply GET_shrinks|done].
  - eapply lifecycle_inv_shrinks; [apply cleanup_shrinks|done].
  - unfold lifecycle_inv in *. simpl in *.
    by rewrite (stat_other_create _ _ _ _ _ _ Hc Hne).
  - unfold lifecycle_inv in *. simpl in *. by rewrite stat_other_update.
Qed.

Lemma reachable_inv (s : store * phase) :
  reachable Number_toString jobId s -> lifecycle_inv jobId s.
Proof.
  induction 1 as [fs req now fs' image Hbegin|s s' _ IH Hstep].
  - apply POST_begin_created in Hbegin as [_ Hst].
    unfold lifecycle_inv. simpl. by rewrite Hst.
  - by eapply step_preserves_inv.
Qed.

Lemma phase_ok_consistent (ph : phase) (j : AnalysisJob) : phase_ok ph j -> consistent j.
Proof.
  unfold consistent.
  destruct ph; simpl; intros H; try (destruct H as (? & -> & ->); by split).
  destruct H as [(-> & ? & ->)|(-> & -> & ?)]; by split.
Qed.

Lemma step_forward (s s' : store * phase) (j j' : AnalysisJob) :
  lifecycle_inv jobId s -> step Number_toString jobId s s' ->
  record s.1 jobId = Some j -> record s'.1 jobId = Some j' ->
  (rank (job_status j) <= rank (job_status j'))%nat
  /\ (terminal (job_status j) = true -> j' = j).
Proof.
  intros Hinv Hstep. destruct Hstep as
    [fs image t_read t_write fs' r Hres|fs image t_read t_write fs' r Hres
    |fs service t_lit t_read t_write|fs ph now id|fs ph now
    |fs ph id now fs' Hne Hc|fs ph id t_read t_write u Hne];
    unfold lifecycle_inv, record in *; simpl in *.
  - unfold POST_resume in Hres. destruct image; [done|]. injection Hres as <- _.
    rewrite updateJob_unfold.
    destruct (stat fs (getJobPath jobId)) as [| |[|[|j0]]] eqn:Hst; try done.
    intros [= ->]. destruct Hinv as (Hstat & _).
    destruct (t_read - job_timestamp j >? retention).
    + by rewrite (stat_delete_eq _ _ _ Hst).
    + rewrite (stat_insert_eq _ _ _ _ Hst). intros [= <-]. simpl.
      rewrite Hstat. simpl. split; [lia|done].
  - unfold POST_resume in Hres. destruct image; [|done]. injection Hres as <- _.
    intros -> [= ->]. done.
  - rewrite pipeline_task_unfold, updateJob_unfold.
    destruct (stat fs (getJobPath jobId)) as [| |[|[|j0]]] eqn:Hst; try done.
    intros [= ->]. destruct Hinv as (Hstat & _).
    destruct (t_read - job_timestamp j >? retention).
    + by rewrite (stat_delete_eq _ _ _ Hst).
    + rewrite (stat_insert_eq _ _ _ _ Hst). intros [= <-]. rewrite Hstat.
      split; [|done]. destruct (analyzeImage _ _); simpl; lia.
  - destruct (stat_shrinks fs _ (getJobPath jobId) (GET_shrinks fs now id)) as [-> | ->];
      [done|]. intros -> [= ->]. done.
  - destruct (stat_shrinks fs _ (getJobPath jobId) (cleanup_shrinks fs now)) as [-> | ->];
      [done|]. intros -> [= ->]. done.
  - rewrite (stat_other_create _ _ _ _ _ _ Hc Hne). intros -> [= ->]. done.
  - rewrite stat_other_update by done. intros -> [= ->]. done.
Qed.

End Lifecycle.

(** C5.  In every state that a submission reaches after [POST] has created
    its job, the record of the job, when there is one, has the status of
    the phase: pending until [POST] resumes, processing while the task runs,
    completed or failed once it has ended; it has at most one of result and
    error, a result only when completed and an error only when failed.
    Along every step the status does not move back, and a record in a
    terminal state is not changed. *)
Theorem job_lifecycle (Number_toString : jstring -> jstring) (jobId : jstring)
    (s : store * phase) :
  reachable Number_toString jobId s ->
  (forall j, record s.1 jobId = Some j -> phase_ok s.2 j /\ consistent j)
  /\ (forall s' j j',
        step Number_toString jobId s s' ->
        record s.1 jobId = Some j -> record s'.1 jobId = Some j' ->
        (rank (job_status j) <= rank (job_status j'))%nat
        /\ (terminal (job_status j) = true -> j' = j)).
Proof.
  intros Hinv%reachable_inv. split.
  - intros j Hrec. assert (Hok : phase_ok s.2 j).
    { unfold lifecycle_inv, record in *.
      destruct (stat s.1 (getJobPath jobId)) as [| |[|[|j0]]]; try done.
      by injection Hrec as <-. }
    split; [done|by eapply phase_ok_consistent].
  - intros s' j j' Hstep. by eapply step_forward.
Qed.

Lemma pair_eta {A B} (p : A * B) (b : B) : p.2 = b -> p = (p.1, b).
Proof. destruct p. simpl. by intros ->. Qed.

Lemma triple_eta {A B C} (p : A * B * C) (b : B) (c : C) :
  p.1.2 = b -> p.2 = c -> p = (p.1.1, b, c).
Proof. destruct p as [[? ?] ?]. simpl. by intros -> ->. Qed.

Lemma job_lifecycle_witness :
  let image := FormFile (lit "image/png") [137%N; 80%N] in
  let fs1 := (POST_begin ∅ (Return [(lit "image", image)]) (lit "u-1") 10).1 in
  let fs2 := (POST_resume fs1 (lit "u-1") image 11 12).1.1 in
  let fs3 := pipeline_task (fun l => l) fs2 (lit "u-1")
               (Return (Some (jtext "{'ingredients':[]}"))) 20 21 22 in
  reachable (fun l => l) (lit "u-1") (fs2, Running)
  /\ step (fun l => l) (lit "u-1") (fs2, Running) (fs3, Done)
  /\ record fs2 (lit "u-1") = Some (mkJob processing None None 12)
  /\ record fs3 (lit "u-1")
     = Some (mkJob completed (Some (JObj [(lit "ingredients", JArr [])])) None 22)
  /\ consistent (mkJob processing None None 12)
  /\ (rank processing <= rank completed)%nat.
Proof.
  intros image fs1 fs2 fs3.
  assert (Hreach : reachable (fun l => l) (lit "u-1") (fs2, Running)).
  { apply (reach_step _ _ (fs1, AwaitingBuffer image)).
    - apply (reach_created _ _ ∅ (Return [(lit "image", image)]) 10).
      apply pair_eta. by vm_compute.
    - apply (step_resume _ _ fs1 image 11 12 fs2
               (mkResponse 200 (JobIdBody (lit "u-1")))).
      apply triple_eta; by vm_compute. }
  assert (Hstep : step (fun l => l) (lit "u-1") (fs2, Running) (fs3, Done))
    by apply step_task.
  assert (Hrec2 : record fs2 (lit "u-1") = Some (mkJob processing None None 12))
    by (by vm_compute).
  assert (Hrec3 : record fs3 (lit "u-1")
            = Some (mkJob completed (Some (JObj [(lit "ingredients", JArr [])])) None 22))
    by (by vm_compute).
  destruct (job_lifecycle (fun l => l) (lit "u-1") (fs2, Running) Hreach)
    as [Hstate Hforward].
  split; [exact Hreach|]. split; [exact Hstep|]. split; [exact Hrec2|].
  split; [exact Hrec3|]. split.
  - exact (proj2 (Hstate _ Hrec2)).
  - exact (proj1 (Hforward (fs3, Done) _ _ Hstep Hrec2 Hrec3)).
Defined.

(** ** Some responses, parsed *)

Example JSON_parse_values :
  JSON_parse (jtext " {'a': [1, -2.5e3, 'xA\n', true, null], 'a': {}} ")
  = Some (JObj [(lit "a", JObj [])])
  /\ JSON_parse (jtext "[01]") = None
  /\ JSON_parse (jtext "{'a':1,}") = None
  /\ JSON_parse (jtext "[[[[[[[[[[1]]]]]]]]]]") <> None.
Proof. by vm_compute. Qed.

(** The fence is removed when it opens the response; after a line feed, the
    second alternative of the pattern matches first and the word json stays,
    so that the direct parse fails. *)
Example cleanJsonResponse_fences :
  cleanJsonResponse (fence_json ++ 10%N :: jtext "{'a':1}" ++ 10%N :: fence)
  = jtext "{'a':1}"
  /\ cleanJsonResponse (10%N :: fence_json ++ 10%N :: jtext "{'a':1}" ++ 10%N :: fence)
     = lit "json" ++ 10%N :: jtext "{'a':1}"
  /\ extractJsonFromText
       (Some (10%N :: fence_json ++ 10%N :: jtext "{'a':1}" ++ 10%N :: fence))
     = JObj [(lit "a", JNum (lit "1"))]
  /\ extractJsonFromText (Some (lit "null")) = JNull
  /\ extractJsonFromText None = JNull.
Proof. by vm_compute. Qed.

Example encodeURIComponent_values :
  encodeURIComponent (lit "High Fructose/Corn & (E-150)")
  = Some (lit "High%20Fructose%2FCorn%20%26%20(E-150)")
  /\ encodeURIComponent [233%N; 20013%N; 55357%N; 56832%N]
     = Some (lit "%C3%A9%E4%B8%AD%F0%9F%98%80")
  /\ encodeURIComponent [55357%N] = None.
Proof. by vm_compute. Qed.

Example getJobPath_values :
  getJobPath (lit "x") = [lit "tmp"; lit "analysis-jobs"; lit "x.json"]
  /\ getJobPath (lit "./x") = [lit "tmp"; lit "analysis-jobs"; lit "x.json"]
  /\ getJobPath (lit "a/../../x") = [lit "tmp"; lit "x.json"]
  /\ getJobPath (lit "a/b") = [lit "tmp"; lit "analysis-jobs"; lit "a"; lit "b.json"]
  /\ createJob ∅ 0 (lit "a/b") = Throw ENOENT.
Proof. by vm_compute. Qed.

(** * Further properties *)

Import Config TwoCall Client OlderPage Upload.

(** * Further properties of the store *)

(** ** What a reader sees *)

Lemma record_None_getJob (fs : store) (t : Z) (id : jstring) :
  record fs id = None -> getJob fs t id = (fs, None).
Proof.
  unfold record. rewrite getJob_unfold.
  by destruct (stat fs (getJobPath id)) as [| |[|[|j]]].
Qed.

Lemma getJob_None_record (fs : store) (now : Z) (id : jstring) :
  (getJob fs now id).2 = None -> record (getJob fs now id).1 id = None.
Proof.
  unfold record. rewrite getJob_unfold.
  destruct (stat fs (getJobPath id)) as [| |[|[|j]]] eqn:Hst; simpl; rewrite ?Hst; try done.
  destruct (now - job_timestamp j >? retention); simpl; [|done].
  by rewrite (stat_delete_eq _ _ _ Hst).
Qed.

Lemma getJob_Some_inv (fs : store) (now : Z) (id : jstring) (j : AnalysisJob) :
  (getJob fs now id).2 = Some j ->
  record fs id = Some j /\ now - job_timestamp j <= 3600000
  /\ getJob fs now id = (fs, Some j).
Proof.
  unfold record. rewrite getJob_unfold.
  destruct (stat fs (getJobPath id)) as [| |[|[|j']]]; try done.
  unfold retention. destruct (Z.gtb_spec (now - job_timestamp j') (60 * 60 * 1000)); [done|].
  simpl. intros [= ->]. split; [done|]. split; [lia|done].
Qed.

Lemma getJob_live (fs : store) (now : Z) (id : jstring) (j : AnalysisJob) :
  record fs id = Some j -> now - job_timestamp j <= 3600000 ->
  getJob fs now id = (fs, Some j).
Proof.
  unfold record. rewrite getJob_unfold.
  destruct (stat fs (getJobPath id)) as [| |[|[|j']]]; try done.
  intros [= ->] Hage. unfold retention.
  destruct (Z.gtb_spec (now - job_timestamp j) (60 * 60 * 1000)); [lia|done].
Qed.

Lemma getJob_expired (fs : store) (now : Z) (id : jstring) (j : AnalysisJob) :
  record fs id = Some j -> now - job_timestamp j > 3600000 ->
  getJob fs now id = (delete (getJobPath id) fs, None).
Proof.
  unfold record. rewrite getJob_unfold.
  destruct (stat fs (getJobPath id)) as [| |[|[|j']]]; try done.
  intros [= ->] Hage. unfold retention.
  destruct (Z.gtb_spec (now - job_timestamp j) (60 * 60 * 1000)); [done|lia].
Qed.

Lemma getJob_result (fs : store) (t : Z) (id : jstring) :
  (getJob fs t id).2 =
  match stat fs (getJobPath id) with
  | File (Readable (JobJson j)) =>
      if t - job_timestamp j >? retention then None else Some j
  | _ => None
  end.
Proof.
  rewrite getJob_unfold.
  destruct (stat fs (getJobPath id)) as [| |[|[|j]]]; try done.
  by destruct (t - job_timestamp j >? retention).
Qed.

(** A path that holds no job holds none after a call that is not a
    [createJob] for that path: [updateJob] writes only over a job it has
    read. *)
Lemma run_op_keeps_jobless (fs : store) (op : store_op) (p : path) :
  (forall j, stat fs p <> File (Readable (JobJson j))) ->
  (forall id now, op = OpCreate id now -> getJobPath id <> p) ->
  forall j, stat (run_op fs op) p <> File (Readable (JobJson j)).
Proof.
  intros Hp Hop j. destruct op as [id now|id t_read t_write u|id now|now]; cbn [run_op].
  - destruct (createJob fs now id) as [[fs' id']|] eqn:Hc; [|apply Hp].
    rewrite (stat_other_create _ _ _ _ _ _ Hc); [apply Hp|]. by eapply Hop.
  - rewrite updateJob_unfold.
    destruct (stat fs (getJobPath id)) as [| |[|[|j0]]] eqn:Hst; try apply Hp.
    assert (getJobPath id <> p) by (intros E; rewrite E in Hst; by eapply Hp).
    destruct (t_read - job_timestamp j0 >? retention).
    + rewrite stat_delete_ne by done. apply Hp.
    + rewrite stat_insert_ne by done. apply Hp.
  - destruct (stat_shrinks fs _ p (getJob_shrinks fs now id)) as [-> | ->]; [done|apply Hp].
  - destruct (stat_shrinks fs _ p (cleanup_shrinks fs now)) as [-> | ->]; [done|apply Hp].
Qed.

Lemma run_ops_keeps_jobless (ops : list store_op) :
  forall (fs : store) (p : path),
  (forall j, stat fs p <> File (Readable (JobJson j))) ->
  (forall id, id ∈ created_ids ops -> getJobPath id <> p) ->
  forall j, stat (run_ops fs ops) p <> File (Readable (JobJson j)).
Proof.
  induction ops as [|op ops IH]; intros fs p Hp Hids; [done|].
  simpl. apply IH.
  - apply run_op_keeps_jobless; [done|]. intros id now ->.
    apply Hids, created_ids_spec. exists now. by left.
  - intros id (now & Hin)%created_ids_spec. apply Hids, created_ids_spec.
    exists now. by right.
Qed.

Lemma record_None_stat (fs : store) (id : jstring) :
  record fs id = None <-> forall j, stat fs (getJobPath id) <> File (Readable (JobJson j)).
Proof.
  unfold record. destruct (stat fs (getJobPath id)) as [| |[|[|j']]]; split; try done.
  intros H. by destruct (H j').
Qed.

(** X1.  Not found is final.  Once [getJob] has returned nothing for an id,
    whatever the reason (no file, an unreadable or unparsable file, a job
    older than one hour, which it removes), it returns nothing for that id
    after any later calls of the store, at any clock readings, as long as
    [createJob] is not called for an id that names the same file; and it no
    longer changes the store. *)
Theorem not_found_is_final (fs : store) (now : Z) (id : jstring)
    (ops : list store_op) (t : Z) :
  (getJob fs now id).2 = None ->
  (forall id', id' ∈ created_ids ops -> getJobPath id' <> getJobPath id) ->
  getJob (run_ops (getJob fs now id).1 ops) t id
  = (run_ops (getJob fs now id).1 ops, None).
Proof.
  intros Hnone Hids. apply record_None_getJob, record_None_stat.
  apply run_ops_keeps_jobless; [|done].
  by apply record_None_stat, getJob_None_record.
Qed.

Lemma not_found_is_final_witness :
  let fs := run_ops ∅ [OpCreate (lit "a") 0] in
  let ops := [OpUpdate (lit "a") 1 2 (mkUpdate (Some completed) None None None);
              OpCreate (lit "b") 3; OpCleanup 4] in
  (getJob fs 3600001 (lit "a")).2 = None
  /\ (getJob (run_ops (getJob fs 3600001 (lit "a")).1 ops) 5 (lit "a")).2 = None.
Proof.
  intros fs ops.
  assert (Hnone : (getJob fs 3600001 (lit "a")).2 = None) by (by vm_compute).
  split; [exact Hnone|].
  rewrite (not_found_is_final fs 3600001 (lit "a") ops 5 Hnone); [reflexivity|].
  intros id' Hin. vm_compute in Hin. apply list_elem_of_singleton in Hin.
  subst id'. by vm_compute.
Defined.

(** ** The sweep and the readers *)

Lemma swept_later (now t : Z) (e : entry filedata) :
  now <= t -> swept now e = true -> swept t e = true.
Proof.
  intros Hle. destruct e as [|[|j]]; simpl; try done.
  intros ?%Z.ltb_lt. apply Z.ltb_lt. lia.
Qed.

Lemma swept_max (a b : Z) (e : entry filedata) :
  swept (Z.max a b) e = swept a e || swept b e.
Proof.
  destruct e as [|[|j]]; simpl; try done.
  destruct (Z.ltb_spec (job_timestamp j) (a - retention)),
           (Z.ltb_spec (job_timestamp j) (b - retention)),
           (Z.ltb_spec (job_timestamp j) (Z.max a b - retention)); simpl; try done; lia.
Qed.

(** X2.  The sweep is invisible to readers.  For every id, [getJob] at a
    clock reading not earlier than that of a sweep returns after the sweep
    what it would have returned without it: the sweep removes only files
    for which [getJob] returns nothing anyway. *)
Theorem cleanup_unseen_by_getJob (fs : store) (now t : Z) (id : jstring) :
  now <= t ->
  (getJob (cleanup fs now) t id).2 = (getJob fs t id).2.
Proof.
  intros Hle. rewrite !getJob_result. unfold stat.
  destruct (is_dir (getJobPath id)); [done|].
  destruct (is_dir (removelast (getJobPath id))); [|done].
  rewrite cleanup_lookup.
  destruct (fs !! getJobPath id) as [e|]; [|done].
  destruct (in_store_dir (getJobPath id) && swept now e) eqn:Hsw; [|done].
  apply andb_true_iff in Hsw as [_ Hsw]. apply (swept_later now t) in Hsw; [|done].
  destruct e as [|[|j]]; try done. simpl in Hsw. apply Z.ltb_lt in Hsw.
  destruct (Z.gtb_spec (t - job_timestamp j) retention); [done|lia].
Qed.

Lemma cleanup_unseen_by_getJob_witness :
  let fs := run_ops ∅ [OpCreate (lit "a") 0; OpCreate (lit "b") 5000] in
  (getJob (cleanup fs 3600001) 3600002 (lit "a")).2 = (getJob fs 3600002 (lit "a")).2
  /\ (getJob (cleanup fs 3600001) 3600002 (lit "b")).2 = Some (mkJob pending None None 5000)
  /\ cleanup fs 3600001 <> fs.
Proof.
  intros fs. split; [|split].
  - apply cleanup_unseen_by_getJob. lia.
  - by vm_compute.
  - intros E. apply (f_equal (fun s : store => stat s (getJobPath (lit "a")))) in E.
    vm_compute in E. discriminate.
Defined.

(** X3.  Two sweeps, in either order, leave what one sweep at the later of
    their two clock readings leaves; in particular a sweep repeated at the
    same reading changes nothing more. *)
Theorem cleanup_twice (fs : store) (a b : Z) :
  cleanup (cleanup fs a) b = cleanup fs (Z.max a b).
Proof.
  apply map_eq. intros p. rewrite !cleanup_lookup.
  destruct (fs !! p) as [e|]; [|done].
  rewrite swept_max.
  destruct (in_store_dir p); simpl; [|done].
  destruct (swept a e) eqn:Ha; simpl; [done|].
  by destruct (swept b e).
Qed.

(** ** Calls for one job and the files of the others *)

(** X4.  A call of [createJob], [updateJob] or [getJob] for an id changes no
    file but the one the id names.  Hence, among ids without a slash (such
    as the ids [crypto.randomUUID] gives), what [getJob] returns for one id
    does not depend on the calls made for another. *)
Theorem store_calls_are_local (fs : store) (op : store_op) (id : jstring) :
  (exists now, op = OpCreate id now)
  \/ (exists t_read t_write u, op = OpUpdate id t_read t_write u)
  \/ (exists now, op = OpGet id now) ->
  (forall p, p <> getJobPath id -> run_op fs op !! p = fs !! p)
  /\ (forall id' t, 47%N ∉ id -> 47%N ∉ id' -> id' <> id ->
        (getJob (run_op fs op) t id').2 = (getJob fs t id').2).
Proof.
  intros Hop.
  assert (Hframe : forall p, p <> getJobPath id -> run_op fs op !! p = fs !! p).
  { intros p Hp. destruct Hop as [[now ->]|[(t_read & t_write & u & ->)|[now ->]]];
      cbn [run_op].
    - rewrite createJob_unfold.
      destruct (stat fs (getJobPath id)) as [| |[|d]]; try done.
      + destruct (is_dir (removelast (getJobPath id))); [|done].
        by apply lookup_insert_ne.
      + by apply lookup_insert_ne.
    - rewrite updateJob_unfold.
      destruct (stat fs (getJobPath id)) as [| |[|[|j]]]; try done.
      destruct (t_read - job_timestamp j >? retention).
      + by apply lookup_delete_ne.
      + by apply lookup_insert_ne.
    - rewrite getJob_unfold.
      destruct (stat fs (getJobPath id)) as [| |[|[|j]]]; try done.
      destruct (now - job_timestamp j >? retention); [|done].
      by apply lookup_delete_ne. }
  split; [exact Hframe|].
  intros id' t Hid Hid' Hne. rewrite !getJob_result. unfold stat.
  rewrite Hframe; [done|].
  intros E. apply Hne. by apply getJobPath_plain_inj.
Qed.

Lemma store_calls_are_local_witness :
  let fs := run_ops ∅ [OpCreate (lit "a") 0; OpCreate (lit "b") 0] in
  let op := OpUpdate (lit "a") 1 2 (mkUpdate (Some failed) None (Some (lit "boom")) None) in
  (getJob (run_op fs op) 3 (lit "b")).2 = (getJob fs 3 (lit "b")).2
  /\ (getJob (run_op fs op) 3 (lit "a")).2 = Some (mkJob failed None (Some (lit "boom")) 2).
Proof.
  intros fs op. split; [|by vm_compute].
  apply (store_calls_are_local fs op (lit "a")).
  - right. left. by eexists _, _, _.
  - decide_closed.
  - decide_closed.
  - done.
Defined.

(** X5.  A job that is updated is kept for another hour.  After [updateJob]
    on a stored job not older than one hour, [getJob] returns, for as long
    as no more than one hour (3600000 ms) has passed since the clock reading
    of the write, the stored job with the supplied fields over it; its time
    stamp is that reading, whatever time stamp the update carried; and the
    read changes nothing. *)
Theorem updateJob_then_getJob (fs : store) (t_read t_write t : Z) (id : jstring)
    (u : JobUpdate) (j : AnalysisJob) :
  record fs id = Some j ->
  t_read - job_timestamp j <= 3600000 ->
  t - t_write <= 3600000 ->
  let fs' := updateJob fs t_read t_write id u in
  getJob fs' t id
  = (fs', Some {| job_status := default (job_status j) (upd_status u);
                  job_result := from_option Some (job_result j) (upd_result u);
                  job_error := from_option Some (job_error j) (upd_error u);
                  job_timestamp := t_write |}).
Proof.
  intros Hrec Hage Ht fs'.
  pose proof (record_updateJob_live fs t_read t_write id u j Hrec Hage) as Hrec'.
  by rewrite (getJob_live fs' t id _ Hrec' Ht).
Qed.

Lemma updateJob_then_getJob_witness :
  let fs := run_ops ∅ [OpCreate (lit "a") 1000] in
  let u := mkUpdate (Some completed) (Some (JObj [])) None (Some 77) in
  (getJob (updateJob fs 3601000 3601001 (lit "a") u) 7201001 (lit "a")).2
  = Some (mkJob completed (Some (JObj [])) None 3601001).
Proof.
  intros fs u.
  rewrite (updateJob_then_getJob fs 3601000 3601001 7201001 (lit "a") u
             (mkJob pending None None 1000)); [reflexivity|by vm_compute|simpl; lia|lia].
Defined.

(** * Further properties of the endpoints *)

(** An id without a slash names a place for a regular file: its path is no
    directory and lies in the store directory. *)
Lemma getJobPath_plain_place (id : jstring) :
  47%N ∉ id ->
  is_dir (getJobPath id) = false /\ is_dir (removelast (getJobPath id)) = true.
Proof.
  intros Hid. rewrite getJobPath_plain by done. split.
  - apply bool_decide_eq_false. unfold directories, storePath.
    rewrite !elem_of_cons, elem_of_nil. by intros [E|[E|[E|[]]]].
  - by rewrite removelast_snoc.
Qed.

Lemma createJob_plain (fs : store) (now : Z) (id : jstring) :
  47%N ∉ id -> fs !! getJobPath id <> Some Unreadable ->
  createJob fs now id
  = Return (<[getJobPath id := Readable (JobJson (mkJob pending None None now))]> fs, id).
Proof.
  intros Hid Hfile. destruct (getJobPath_plain_place id Hid) as [Hp Hd].
  rewrite createJob_unfold. unfold stat. rewrite Hp, Hd.
  by destruct (fs !! getJobPath id) as [[|d]|].
Qed.

Lemma GET_live (fs : store) (now : Z) (id : jstring) (j : AnalysisJob) :
  id <> [] -> record fs id = Some j -> now - job_timestamp j <= 3600000 ->
  GET fs now (Some id) = (fs, mkResponse 200 (JobBody j)).
Proof.
  intros Hid Hrec Hage. destruct id as [|c id]; [done|].
  unfold GET. by rewrite (getJob_live _ _ _ _ Hrec Hage).
Qed.

(** X6.  The status route.  It answers 400 exactly when the request has no
    job id or an empty one.  For any other id it answers 200 with the stored
    job, leaving the store as it is, when the id has a job not older than
    one hour; and 404 with [Job not found] in every other case, after which
    the id has no record.  It never answers anything else, and the only file
    it can change is the file the id names. *)
Theorem GET_answers (fs : store) (now : Z) (jobId : option jstring) :
  (http_status (GET fs now jobId).2 = 400 <-> jobId = None \/ jobId = Some [])
  /\ (forall id j, jobId = Some id -> id <> [] ->
        record fs id = Some j -> now - job_timestamp j <= 3600000 ->
        GET fs now jobId = (fs, mkResponse 200 (JobBody j)))
  /\ (forall id, jobId = Some id -> id <> [] ->
        (record fs id = None
         \/ exists j, record fs id = Some j /\ now - job_timestamp j > 3600000) ->
        (GET fs now jobId).2 = mkResponse 404 (ErrorBody (lit "Job not found"))
        /\ record (GET fs now jobId).1 id = None)
  /\ (forall id p, jobId = Some id -> p <> getJobPath id ->
        (GET fs now jobId).1 !! p = fs !! p)
  /\ (http_status (GET fs now jobId).2 = 200
      \/ http_status (GET fs now jobId).2 = 400
      \/ http_status (GET fs now jobId).2 = 404).
Proof.
  split_and!.
  - unfold GET. destruct jobId as [[|c id]|]; simpl.
    + split; [tauto|done].
    + destruct (getJob fs now (c :: id)) as [fs' [j|]]; simpl.
      * split; [done|]. by intros [|].
      * split; [done|]. by intros [|].
    + split; [tauto|done].
  - intros id j -> Hid Hrec Hage. by apply GET_live.
  - intros id -> Hid Hgone. destruct id as [|c id]; [done|]. unfold GET.
    destruct Hgone as [Hrec|(j & Hrec & Hage)].
    + by rewrite (record_None_getJob _ _ _ Hrec).
    + rewrite (getJob_expired _ _ _ _ Hrec Hage). simpl. split; [done|].
      unfold record in *.
      destruct (stat fs (getJobPath (c :: id))) as [| |e] eqn:Hst; try done.
      by rewrite (stat_delete_eq _ _ _ Hst).
  - intros id p -> Hp. unfold GET. destruct id as [|c id]; [done|].
    rewrite getJob_unfold.
    destruct (stat fs (getJobPath (c :: id))) as [| |[|[|j]]]; try done.
    destruct (now - job_timestamp j >? retention); simpl; [|done].
    by apply lookup_delete_ne.
  - unfold GET. destruct jobId as [[|c id]|]; simpl; try tauto.
    destruct (getJob fs now (c :: id)) as [fs' [j|]]; simpl; tauto.
Qed.

Lemma GET_answers_witness :
  let fs := run_ops ∅ [OpCreate (lit "a") 1000] in
  GET fs 2000 (Some (lit "a")) = (fs, mkResponse 200 (JobBody (mkJob pending None None 1000)))
  /\ (GET fs 3601001 (Some (lit "a"))).2 = mkResponse 404 (ErrorBody (lit "Job not found"))
  /\ record (GET fs 3601001 (Some (lit "a"))).1 (lit "a") = None
  /\ http_status (GET fs 2000 (Some [])).2 = 400.
Proof.
  intros fs.
  destruct (GET_answers fs 2000 (Some (lit "a"))) as (_ & Hlive & _).
  destruct (GET_answers fs 3601001 (Some (lit "a"))) as (_ & _ & Hgone & _).
  destruct (GET_answers fs 2000 (Some [])) as (Hbad & _).
  split; [|split_and!].
  - apply (Hlive (lit "a")); [done|done|by vm_compute|simpl; lia].
  - apply (Hgone (lit "a")); [done|done|].
    right. exists (mkJob pending None None 1000). split; [by vm_compute|simpl; lia].
  - apply (Hgone (lit "a")); [done|done|].
    right. exists (mkJob pending None None 1000). split; [by vm_compute|simpl; lia].
  - apply Hbad. by right.
Defined.

(** X7.  A submission, from end to end.  Take a request whose image field is
    a file, and an id without a slash whose file is not unreadable.  [POST]
    creates the job and answers 200 with the id.  As long as each step comes
    no more than one hour after the one before, a status check made while
    the task runs answers 200 with a processing job, and a status check made
    after the task has ended answers 200 with the terminal job: completed
    with the result of [analyzeImage], or failed with the message of what it
    threw; the time stamp is the clock reading of the last write. *)
Theorem submission_end_to_end (Number_toString : jstring -> jstring) (fs : store)
    (fields : list (jstring * form_value)) (type : jstring) (bytes : list N)
    (uuid : jstring) (service : service_outcome)
    (t_create t_read1 t_write1 t_poll1 t_lit t_read2 t_write2 t_poll2 : Z) :
  formData_get fields (lit "image") = Some (FormFile type bytes) ->
  uuid <> [] -> 47%N ∉ uuid -> fs !! getJobPath uuid <> Some Unreadable ->
  t_read1 - t_create <= 3600000 ->
  t_poll1 - t_write1 <= 3600000 ->
  t_read2 - t_write1 <= 3600000 ->
  t_poll2 - t_write2 <= 3600000 ->
  exists fs1 fs2,
    POST_begin fs (Return fields) uuid t_create = (fs1, Awaiting uuid (FormFile type bytes))
    /\ POST_resume fs1 uuid (FormFile type bytes) t_read1 t_write1
       = (fs2, mkResponse 200 (JobIdBody uuid), true)
    /\ GET fs2 t_poll1 (Some uuid)
       = (fs2, mkResponse 200 (JobBody (mkJob processing None None t_write1)))
    /\ let fs3 := pipeline_task Number_toString fs2 uuid service t_lit t_read2 t_write2 in
       GET fs3 t_poll2 (Some uuid)
       = (fs3, mkResponse 200 (JobBody
            match analyzeImage Number_toString service with
            | Return result => mkJob completed (Some result) None t_write2
            | Throw e => mkJob failed None (Some (error_message e)) t_write2
            end)).
Proof.
  intros Himage Hne Hplain Hfile H1 H2 H3 H4.
  set (fs1 := <[getJobPath uuid := Readable (JobJson (mkJob pending None None t_create))]> fs).
  set (u1 := mkUpdate (Some processing) None None None).
  exists fs1, (updateJob fs1 t_read1 t_write1 uuid u1).
  destruct (getJobPath_plain_place uuid Hplain) as [Hp Hd].
  assert (Hrec1 : record fs1 uuid = Some (mkJob pending None None t_create)).
  { unfold record, fs1. rewrite (stat_File_intro _ _ (Readable (JobJson (mkJob pending None None t_create)))); auto.
    apply lookup_insert_eq. }
  assert (Hrec2 : record (updateJob fs1 t_read1 t_write1 uuid u1) uuid
                  = Some (mkJob processing None None t_write1)).
  { by rewrite (record_updateJob_live _ _ _ _ _ _ Hrec1 H1). }
  split_and!.
  - unfold POST_begin. rewrite Himage. simpl. by rewrite createJob_plain.
  - done.
  - by apply GET_live.
  - intros fs3. apply GET_live; [done| |].
    + unfold fs3. rewrite pipeline_task_unfold.
      rewrite (record_updateJob_live _ _ _ _ _ _ Hrec2 H3).
      by destruct (analyzeImage Number_toString service).
    + by destruct (analyzeImage Number_toString service).
Qed.

Lemma submission_end_to_end_witness :
  let image := FormFile (lit "image/png") [137%N; 80%N] in
  exists fs1 fs2,
    POST_begin ∅ (Return [(lit "image", image)]) (lit "u-1") 10 = (fs1, Awaiting (lit "u-1") image)
    /\ POST_resume fs1 (lit "u-1") image 11 12
       = (fs2, mkResponse 200 (JobIdBody (lit "u-1")), true)
    /\ GET fs2 13 (Some (lit "u-1"))
       = (fs2, mkResponse 200 (JobBody (mkJob processing None None 12)))
    /\ (GET (pipeline_task (fun l => l) fs2 (lit "u-1")
               (Return (Some (jtext "{'ingredients':[]}"))) 20 21 22)
            23 (Some (lit "u-1"))).2
       = mkResponse 200 (JobBody
           (mkJob completed (Some (JObj [(lit "ingredients", JArr [])])) None 22)).
Proof.
  intros image.
  destruct (submission_end_to_end (fun l => l) ∅ [(lit "image", image)]
              (lit "image/png") [137%N; 80%N] (lit "u-1")
              (Return (Some (jtext "{'ingredients':[]}"))) 10 11 12 13 20 21 22 23)
    as (fs1 & fs2 & Hbegin & Hresume & Hpoll1 & Hpoll2);
    [by vm_compute|done|decide_closed|by rewrite lookup_empty|lia|lia|lia|lia|].
  exists fs1, fs2. split; [exact Hbegin|]. split; [exact Hresume|].
  split; [exact Hpoll1|]. cbv zeta in Hpoll2. rewrite Hpoll2. reflexivity.
Defined.

(** X8.  An image field that is text.  When the field [image] of the form
    is a non-empty text and not a file, [POST] still creates the job, then
    fails on [image.arrayBuffer] and answers 500 with [Failed to start
    analysis]: the store is left with a pending job that no task will ever
    update, and the answer does not carry its id.  When the field is the
    empty text, [POST] answers 400 with [No image provided] and creates
    nothing. *)
Theorem POST_text_image (fs : store) (fields : list (jstring * form_value))
    (text uuid : jstring) (t_create t_read t_write : Z) :
  formData_get fields (lit "image") = Some (FormText text) ->
  47%N ∉ uuid -> fs !! getJobPath uuid <> Some Unreadable ->
  match text with
  | [] =>
      POST_begin fs (Return fields) uuid t_create
      = (fs, Responded (mkResponse 400 (ErrorBody (lit "No image provided"))))
  | _ :: _ =>
      exists fs1,
        POST_begin fs (Return fields) uuid t_create = (fs1, Awaiting uuid (FormText text))
        /\ POST_resume fs1 uuid (FormText text) t_read t_write
           = (fs1, mkResponse 500 (ErrorBody (lit "Failed to start analysis")), false)
        /\ record fs1 uuid = Some (mkJob pending None None t_create)
  end.
Proof.
  intros Himage Hplain Hfile. destruct text as [|c text].
  - unfold POST_begin. by rewrite Himage.
  - eexists. unfold POST_begin. rewrite Himage. simpl.
    rewrite createJob_plain by done. split_and!; try done.
    destruct (getJobPath_plain_place uuid Hplain) as [Hp Hd].
    unfold record. rewrite (stat_File_intro _ _ (Readable (JobJson (mkJob pending None None t_create)))); auto.
    apply lookup_insert_eq.
Qed.

Lemma POST_text_image_witness :
  exists fs1,
    POST_begin ∅ (Return [(lit "image", FormText (lit "cat.png"))]) (lit "u-2") 10
    = (fs1, Awaiting (lit "u-2") (FormText (lit "cat.png")))
    /\ POST_resume fs1 (lit "u-2") (FormText (lit "cat.png")) 11 12
       = (fs1, mkResponse 500 (ErrorBody (lit "Failed to start analysis")), false)
    /\ record fs1 (lit "u-2") = Some (mkJob pending None None 10).
Proof.
  apply (POST_text_image ∅ [(lit "image", FormText (lit "cat.png"))]
           (lit "cat.png") (lit "u-2") 10 11 12);
    [by vm_compute|decide_closed|by rewrite lookup_empty].
Defined.

(** * Further properties of the pipeline *)

(** ** Trimming and cleaning *)

Lemma trim_start_head (s : jstring) :
  match trim_start s with
  | [] => Forall (fun c => is_js_space c = true) s
  | c :: _ => is_js_space c = false
  end.
Proof.
  induction s as [|c r IH]; [constructor|]. simpl.
  destruct (is_js_space c) eqn:Hc; [|done].
  destruct (trim_start r); [by constructor|done].
Qed.

Lemma trim_start_split (s : jstring) :
  exists ws, s = ws ++ trim_start s /\ Forall (fun c => is_js_space c = true) ws.
Proof.
  induction s as [|c r (ws & E & Hws)]; [by exists []|]. simpl.
  destruct (is_js_space c) eqn:Hc; [|by exists []].
  exists (c :: ws). split; [by rewrite E at 1|by constructor].
Qed.

(** [trim] takes white space off both ends, and nothing else. *)
Lemma trim_split (s : jstring) :
  exists ws1 ws2,
    s = ws1 ++ trim s ++ ws2
    /\ Forall (fun c => is_js_space c = true) ws1
    /\ Forall (fun c => is_js_space c = true) ws2.
Proof.
  unfold trim. destruct (trim_start_split s) as (ws1 & E1 & H1).
  destruct (trim_start_split (rev (trim_start s))) as (ws2 & E2 & H2).
  exists ws1, (rev ws2). split_and!; [|done|by apply Forall_rev].
  rewrite <- rev_app_distr, <- E2, rev_involutive. exact E1.
Qed.

Lemma trim_sublist (s : jstring) : sublist (trim s) s.
Proof.
  destruct (trim_split s) as (ws1 & ws2 & E & _). rewrite E at 2.
  apply sublist_inserts_l, sublist_inserts_r. done.
Qed.

(** [trim] gives the empty string exactly on white space, and otherwise a
    string with no white space at either end. *)
Lemma trim_cases (s : jstring) :
  (trim s = [] /\ Forall (fun c => is_js_space c = true) s)
  \/ (tight (trim s) /\ ~ Forall (fun c => is_js_space c = true) s).
Proof.
  unfold trim. pose proof (trim_start_head s) as H1.
  destruct (trim_start_split s) as (ws & Es & _).
  destruct (trim_start s) as [|x t] eqn:E1.
  - left. by split.
  - right. split.
    + pose proof (trim_start_head (rev (x :: t))) as H2.
      destruct (trim_start_split (rev (x :: t))) as (ws2 & E2 & _).
      destruct (trim_start (rev (x :: t))) as [|y u] eqn:E3.
      * apply Forall_rev in H2. rewrite rev_involutive in H2.
        apply Forall_cons in H2 as [H2 _]. congruence.
      * apply (f_equal (@rev N)) in E2.
        rewrite rev_involutive, rev_app_distr in E2.
        change (rev (y :: u)) with (rev u ++ [y]) in *.
        split; [|by exists (rev u), y].
        destruct (rev u) as [|z u'].
        -- by exists y, [].
        -- injection E2 as -> _. by exists z, (u' ++ [y]).
    + intros Hall. rewrite Es in Hall. apply Forall_app in Hall as [_ Hall].
      apply Forall_cons in Hall as [Hall _]. congruence.
Qed.

Lemma trim_tight (s : jstring) : tight s -> trim s = s.
Proof.
  intros Ht. rewrite <- (app_nil_r s) at 1. change s with ([] ++ s) at 1.
  rewrite <- app_assoc. by apply trim_JSON.
Qed.

Lemma trim_idemp (s : jstring) : trim (trim s) = trim s.
Proof.
  destruct (trim_cases s) as [[-> _]|[Ht _]]; [done|]. by apply trim_tight.
Qed.

Lemma remove_fences_sublist (s : jstring) :
  forall skip, sublist (remove_fences skip s) s.
Proof.
  induction s as [|c r IH]; intros skip; [done|]. simpl.
  destruct skip as [|k]; [|by apply sublist_cons].
  destruct (match_fence (c :: r)) as [[|k]|].
  - by apply sublist_skip.
  - by apply sublist_cons.
  - by apply sublist_skip.
Qed.

Lemma remove_fences_plain (s : jstring) : 96%N ∉ s -> remove_fences 0 s = s.
Proof.
  induction s as [|c r IH]; [done|].
  intros [Hc Hr]%not_elem_of_cons. cbn [remove_fences].
  rewrite match_fence_None.
  - by rewrite IH.
  - congruence.
  - intros _. destruct r as [|c' r']; [done|].
    apply not_elem_of_cons in Hr as [Hc' _]. simpl. congruence.
Qed.

(** X9.  Cleaning only removes.  What [cleanJsonResponse] returns is the
    response with some of its characters left out, none changed and none
    moved; it is empty or has no white space at either end.  A response
    without a backquote is only trimmed, and when it is JSON it parses to
    the same value after cleaning as before. *)
Theorem cleanJsonResponse_only_removes (text : jstring) :
  sublist (cleanJsonResponse text) text
  /\ (cleanJsonResponse text = [] \/ tight (cleanJsonResponse text))
  /\ (96%N ∉ text ->
      cleanJsonResponse text = trim text
      /\ forall v, JSON_parse text = Some v ->
                   JSON_parse (cleanJsonResponse text) = Some v).
Proof.
  unfold cleanJsonResponse. split_and!.
  - etrans; [apply trim_sublist|apply remove_fences_sublist].
  - destruct (trim_cases (remove_fences 0 text)) as [[-> _]|[Ht _]]; [by left|by right].
  - intros Hplain. rewrite remove_fences_plain by done. split; [done|].
    intros v. apply JSON_parse_trim.
Qed.

Lemma cleanJsonResponse_only_removes_witness :
  cleanJsonResponse (jtext "  {'a': 1} ") = trim (jtext "  {'a': 1} ")
  /\ JSON_parse (cleanJsonResponse (jtext "  {'a': 1} "))
     = Some (JObj [(lit "a", JNum (lit "1"))]).
Proof.
  destruct (cleanJsonResponse_only_removes (jtext "  {'a': 1} ")) as (_ & _ & Hplain).
  destruct Hplain as [Htrim Hparse]; [decide_closed|].
  split; [exact Htrim|]. apply Hparse. by vm_compute.
Defined.

(** ** All ingredients or none *)

Section Enrich.

Variable Number_toString : jstring -> jstring.

(** An ingredient that [with_papers] can enrich: it is not [null], and the
    string of its name has no lone surrogate. *)
Lemma with_papers_returns_iff (ingredient : json) :
  (exists item, with_papers Number_toString ingredient = Return item)
  <-> exists name text,
        get_property ingredient (lit "name") = Return name
        /\ ToString_opt Number_toString name = Some text
        /\ encodeURIComponent text <> None.
Proof.
  unfold with_papers, searchPubMedPapers. split.
  - intros [item Hitem].
    destruct (get_property ingredient (lit "name")) as [name|]; [|done]. simpl in Hitem.
    destruct (ToString_opt Number_toString name) as [text|] eqn:Htext; [|done].
    destruct (encodeURIComponent text) eqn:Henc; [|done].
    exists name, text. by rewrite Henc.
  - intros (name & text & -> & Htext & Henc). simpl. rewrite Htext.
    destruct (encodeURIComponent text); [|done]. simpl. by eexists.
Qed.

Lemma map_all_length {A B} (f : A -> completion B) (l : list A) (out : list B) :
  map_all f l = Return out -> length out = length l.
Proof. intros H%map_all_Return. symmetry. by eapply Forall2_length. Qed.

Lemma map_all_each {A B} (f : A -> completion B) (l : list A) (out : list B) :
  map_all f l = Return out -> Forall (fun x => exists y, f x = Return y) l.
Proof.
  intros H%map_all_Return.
  induction H as [|x y l out Hx _ IH]; constructor; eauto.
Qed.

End Enrich.

(** X10.  All ingredients or none.  Let the cleaned content parse to a
    value whose [ingredients] is an array.  [analyzeImage] returns exactly
    when every element of the array can be enriched: it is not [null], and
    the string of its name has no lone surrogate (for which
    [encodeURIComponent] throws).  It then returns as many ingredients as
    it received.  One element that cannot be enriched makes the whole
    analysis fail, with the error [Failed to parse analysis results]: no
    partial list is ever returned. *)
Theorem analyzeImage_all_or_nothing (Number_toString : jstring -> jstring)
    (text : jstring) (parsed : json) (items : list json) :
  text <> [] ->
  JSON_parse (cleanJsonResponse text) = Some parsed ->
  get_property parsed (lit "ingredients") = Return (Some (JArr items)) ->
  let enrichable := fun ingredient : json =>
    exists name s,
      get_property ingredient (lit "name") = Return name
      /\ ToString_opt Number_toString name = Some s
      /\ encodeURIComponent s <> None in
  (Forall enrichable items ->
   exists out,
     analyzeImage Number_toString (Return (Some text))
     = Return (JObj [(lit "ingredients", JArr out)])
     /\ length out = length items)
  /\ (~ Forall enrichable items ->
      analyzeImage Number_toString (Return (Some text)) = Throw generic_failure).
Proof.
  intros Hne Hparse Hing enrichable. destruct text as [|c text]; [done|].
  rewrite analyzeImage_content. unfold parse_and_enrich, ingredientsWithPapers.
  rewrite Hparse, Hing. simpl. split.
  - intros Hall.
    destruct (map_all_intro (with_papers Number_toString) items) as [out Hout].
    { eapply Forall_impl; [exact Hall|]. intros it Hit.
      by apply with_papers_returns_iff. }
    exists out. rewrite Hout. simpl. split; [done|]. by eapply map_all_length.
  - intros Hnot.
    destruct (map_all (with_papers Number_toString) items) as [out|] eqn:Hout; [|done].
    destruct Hnot. apply map_all_each in Hout.
    eapply Forall_impl; [exact Hout|]. intros it Hit.
    by apply with_papers_returns_iff.
Qed.

Lemma analyzeImage_all_or_nothing_witness :
  (exists out,
     analyzeImage (fun l => l)
       (Return (Some (jtext "{'ingredients':[{'name':'Salt'},'sugar',{'name':7}]}")))
     = Return (JObj [(lit "ingredients", JArr out)])
     /\ length out = 3%nat)
  /\ analyzeImage (fun l => l)
       (Return (Some (jtext "{'ingredients':[{'name':'Salt'},{'name':'\ud83d'}]}")))
     = Throw generic_failure.
Proof.
  split.
  - destruct (analyzeImage_all_or_nothing (fun l => l)
                (jtext "{'ingredients':[{'name':'Salt'},'sugar',{'name':7}]}")
                (JObj [(lit "ingredients",
                        JArr [JObj [(lit "name", JStr (lit "Salt"))]; JStr (lit "sugar");
                              JObj [(lit "name", JNum (lit "7"))]])])
                [JObj [(lit "name", JStr (lit "Salt"))]; JStr (lit "sugar");
                 JObj [(lit "name", JNum (lit "7"))]])
      as [Hall _]; [done|by vm_compute|by vm_compute|].
    apply Hall. repeat constructor.
    + by exists (Some (JStr (lit "Salt"))), (lit "Salt").
    + by exists None, (lit "undefined").
    + by exists (Some (JNum (lit "7"))), (lit "7").
  - destruct (analyzeImage_all_or_nothing (fun l => l)
                (jtext "{'ingredients':[{'name':'Salt'},{'name':'\ud83d'}]}")
                (JObj [(lit "ingredients",
                        JArr [JObj [(lit "name", JStr (lit "Salt"))];
                              JObj [(lit "name", JStr [55357%N])]])])
                [JObj [(lit "name", JStr (lit "Salt"))];
                 JObj [(lit "name", JStr [55357%N])]])
      as [_ Hnone]; [done|by vm_compute|by vm_compute|].
    apply Hnone. intros Hall. apply Forall_cons in Hall as [_ Hall].
    apply Forall_cons in Hall as [(name & s & Hname & Hs & Henc) _].
    injection Hname as <-. injection Hs as <-. by apply Henc.
Defined.

(** ** The address of a citation *)

Lemma hex_digit_unreserved (n : N) : (n < 16)%N -> uri_unreserved (hex_digit n) = true.
Proof.
  intros Hn.
  assert (H : forall k, (k <= 16)%nat -> forall m, (m < N.of_nat k)%N ->
            uri_unreserved (hex_digit m) = true).
  { intros k Hk. induction k as [|k IH]; intros m Hm; [lia|].
    destruct (decide (m = N.of_nat k)) as [->|Hne]; [|apply IH; lia].
    do 17 (destruct k as [|k]; [by vm_compute|]). lia. }
  apply (H 16%nat); [lia|done].
Qed.

Lemma percent_safe (byte : N) :
  (byte < 256)%N ->
  Forall (fun c => uri_unreserved c = true \/ c = 37%N) (percent byte).
Proof.
  intros Hb. unfold percent.
  apply Forall_cons. split; [by right|].
  apply Forall_cons. split.
  { left. apply hex_digit_unreserved. apply N.Div0.div_lt_upper_bound. lia. }
  apply Forall_cons. split; [|constructor].
  left. apply hex_digit_unreserved. apply N.mod_lt. lia.
Qed.

Lemma utf8_bytes (cp : N) :
  (cp < 1114112)%N -> Forall (fun b => (b < 256)%N) (utf8 cp).
Proof.
  intros Hcp. unfold utf8.
  pose proof (N.mod_lt cp 64 ltac:(lia)).
  pose proof (N.mod_lt (cp / 64) 64 ltac:(lia)).
  pose proof (N.mod_lt (cp / 4096) 64 ltac:(lia)).
  destruct (N.ltb_spec cp 128); [repeat constructor; lia|].
  destruct (N.ltb_spec cp 2048).
  { assert (cp / 64 < 32)%N by (apply N.Div0.div_lt_upper_bound; lia).
    repeat constructor; lia. }
  destruct (N.ltb_spec cp 65536).
  { assert (cp / 4096 < 16)%N by (apply N.Div0.div_lt_upper_bound; lia).
    repeat constructor; lia. }
  assert (cp / 262144 < 5)%N by (apply N.Div0.div_lt_upper_bound; lia).
  repeat constructor; lia.
Qed.

Lemma escape_code_point_safe (cp : N) :
  (cp < 1114112)%N ->
  Forall (fun c => uri_unreserved c = true \/ c = 37%N) (escape_code_point cp).
Proof.
  intros Hcp. unfold escape_code_point.
  pose proof (utf8_bytes cp Hcp) as Hb.
  induction Hb as [|b bs Hb _ IH]; [constructor|].
  cbn [map concat]. apply Forall_app. split; [by apply percent_safe|done].
Qed.

Lemma encodeURIComponent_safe (s : jstring) :
  Forall (fun c => (c < 65536)%N) s ->
  forall term, encodeURIComponent s = Some term ->
  Forall (fun c => uri_unreserved c = true \/ c = 37%N) term.
Proof.
  induction s as [s IH] using (induction_ltof1 _ (@length N)). unfold ltof in IH.
  intros Hs term. destruct s as [|c r]; [by intros [= <-]|].
  apply Forall_cons in Hs as [Hc Hr]. cbn [encodeURIComponent].
  destruct (uri_unreserved c) eqn:Hu.
  - destruct (encodeURIComponent r) as [t|] eqn:Ht; [|done]. intros [= <-].
    constructor; [by left|]. apply (IH r); [simpl; lia|done|done].
  - destruct (is_low_surrogate c); [done|].
    destruct (is_high_surrogate c) eqn:Hh.
    + destruct r as [|d r']; [done|].
      destruct (is_low_surrogate d) eqn:Hl; [|done].
      destruct (encodeURIComponent r') as [t|] eqn:Ht; [|done]. intros [= <-].
      apply Forall_cons in Hr as [Hd Hr'].
      apply Forall_app. split.
      * apply escape_code_point_safe.
        unfold is_high_surrogate in Hh. unfold is_low_surrogate in Hl.
        apply andb_true_iff in Hh as [?%N.leb_le ?%N.leb_le].
        apply andb_true_iff in Hl as [?%N.leb_le ?%N.leb_le]. lia.
      * apply (IH r'); [simpl; lia|done|done].
    + destruct (encodeURIComponent r) as [t|] eqn:Ht; [|done]. intros [= <-].
      apply Forall_app. split.
      * apply escape_code_point_safe. lia.
      * apply (IH r); [simpl; lia|done|done].
Qed.

(** X11.  The address of a citation cannot be broken by the name.  For a
    name that is a string (of 16-bit code units), the citation that
    [searchPubMedPapers] returns has the address of the PubMed search
    followed only by letters, digits, the marks [- _ . ! ~ * ' ( )] and
    the percent sign of the escapes: no space, quote, slash, ampersand,
    question mark or number sign of the name reaches the address.  The
    function throws exactly when the name has a lone surrogate. *)
Theorem citation_address_is_safe (Number_toString : jstring -> jstring) (name : jstring) :
  Forall (fun c => (c < 65536)%N) name ->
  match searchPubMedPapers Number_toString (Some (JStr name)) with
  | Return papers =>
      exists term,
        encodeURIComponent name = Some term
        /\ papers = JArr [JObj [(lit "title", JStr (lit "Research about " ++ name));
                                (lit "url", JStr (baseUrl ++ term))]]
        /\ Forall (fun c => uri_unreserved c = true \/ c = 37%N) term
        /\ Forall (fun c => c <> 32 /\ c <> 34 /\ c <> 47 /\ c <> 38 /\ c <> 63
                            /\ c <> 35 /\ c <> 60 /\ c <> 62)%N term
  | Throw _ => encodeURIComponent name = None
  end.
Proof.
  intros Hname. unfold searchPubMedPapers. simpl.
  destruct (encodeURIComponent name) as [term|] eqn:Hterm; [|done].
  pose proof (encodeURIComponent_safe name Hname term Hterm) as Hsafe.
  exists term. split_and!; try done.
  eapply Forall_impl; [exact Hsafe|]. intros c [Hc| ->]; [|done].
  repeat split; intros ->; by vm_compute in Hc.
Qed.

Lemma citation_address_is_safe_witness :
  exists term,
    encodeURIComponent (jtext "Red 40 & 'Blue' #1/2?") = Some term
    /\ Forall (fun c => uri_unreserved c = true \/ c = 37%N) term
    /\ term = lit "Red%2040%20%26%20%22Blue%22%20%231%2F2%3F".
Proof.
  pose proof (citation_address_is_safe (fun l => l) (jtext "Red 40 & 'Blue' #1/2?")) as H.
  destruct (searchPubMedPapers (fun l => l) (Some (JStr (jtext "Red 40 & 'Blue' #1/2?"))))
    as [papers|e] eqn:Hp; [|by vm_compute in Hp].
  destruct H as (term & Hterm & _ & Hsafe & _).
  { apply (bool_decide_unpack _). by vm_compute. }
  exists term. split; [exact Hterm|]. split; [exact Hsafe|].
  vm_compute in Hterm. by injection Hterm as <-.
Defined.

(** * The configuration and the two-call route *)

Lemma remove_quotes_elem (key : jstring) (c : N) :
  c ∈ remove_quotes key <-> c ∈ key /\ c <> 34%N /\ c <> 39%N.
Proof.
  unfold remove_quotes. rewrite !list_elem_of_In, filter_In, negb_true_iff, orb_false_iff.
  rewrite !N.eqb_neq. tauto.
Qed.

Lemma remove_quotes_sublist (key : jstring) : sublist (remove_quotes key) key.
Proof.
  induction key as [|c key IH]; [done|]. unfold remove_quotes in *. simpl.
  destruct (negb _); [by apply sublist_skip|by apply sublist_cons].
Qed.

Lemma remove_quotes_id (key : jstring) :
  34%N ∉ key -> 39%N ∉ key -> remove_quotes key = key.
Proof.
  induction key as [|c key IH]; [done|].
  intros [H1 H1']%not_elem_of_cons [H2 H2']%not_elem_of_cons.
  unfold remove_quotes in *. simpl.
  destruct (N.eqb_spec c 34); [congruence|].
  destruct (N.eqb_spec c 39); [congruence|]. simpl. by rewrite IH.
Qed.

Lemma sublist_elem_of {A} (l k : list A) (x : A) : sublist l k -> x ∈ l -> x ∈ k.
Proof. intros Hs Hx. by eapply elem_of_sublist. Qed.

Lemma apiKey_clean_key (key : jstring) : apiKey (Some key) = trim (remove_quotes key).
Proof. unfold apiKey. simpl. by destruct (trim (remove_quotes key)). Qed.

Lemma trim_nil_iff (s : jstring) :
  trim s = [] <-> Forall (fun c => is_js_space c = true) s.
Proof.
  destruct (trim_cases s) as [[E H]|[Ht Hn]]; [done|]. split; [|done].
  intros E. rewrite E in Ht. by destruct Ht as [(? & ? & ? & _) _].
Qed.

Lemma validateEnv_cases (env : option jstring) :
  validateEnv env = Return tt \/ validateEnv env = Throw key_required.
Proof. unfold validateEnv. destruct (apiKey env); auto. Qed.

(** X12.  Which keys pass.  [validateEnv] returns exactly when the variable
    of the API key is set and has some character that is neither a quote
    (double or single) nor white space; in every other case (the variable is
    not set, is empty, or holds only quotes and white space) it throws the
    error that the key is required. *)
Theorem validateEnv_accepts_iff (env : option jstring) :
  (validateEnv env = Return tt <->
   exists key c, env = Some key /\ c ∈ key /\ c <> 34%N /\ c <> 39%N
                 /\ is_js_space c = false)
  /\ (validateEnv env = Return tt \/ validateEnv env = Throw key_required).
Proof.
  split; [|apply validateEnv_cases].
  unfold validateEnv. destruct env as [key|]; [|split; [done|by intros (? & ? & [=] & _)]].
  rewrite apiKey_clean_key.
  destruct (trim (remove_quotes key)) as [|x t] eqn:E.
  - split; [done|]. intros (? & c & [= <-] & Hc & H34 & H39 & Hsp).
    apply trim_nil_iff in E. rewrite Forall_forall in E.
    rewrite (E c) in Hsp; [done|]. apply remove_quotes_elem. tauto.
  - split; [|done]. intros _. exists key.
    assert (Hn : ~ Forall (fun c => is_js_space c = true) (remove_quotes key)).
    { intros H%trim_nil_iff. congruence. }
    apply not_Forall_Exists in Hn; [|intros c; apply _].
    apply Exists_exists in Hn as (c & Hc & Hsp).
    apply remove_quotes_elem in Hc as (Hc & H34 & H39).
    exists c. split_and!; try done. by apply not_true_is_false.
Qed.

Lemma validateEnv_accepts_iff_witness :
  validateEnv (Some (jtext " 'sk-abc' ")) = Return tt
  /\ validateEnv (Some (jtext " '' ")) = Throw key_required
  /\ validateEnv None = Throw key_required.
Proof.
  split; [|by vm_compute].
  apply (validateEnv_accepts_iff (Some (jtext " 'sk-abc' "))).
  exists (jtext " 'sk-abc' "), 115%N. split_and!; try done. decide_closed.
Defined.

(** X13.  The key that is used.  The API key of the configuration is the
    variable with characters left out, none changed: it has no quote in it,
    double or single, wherever the quote stood, and no white space at
    either end.  A variable without quotes and without white space at its
    ends is used as it is, and cleaning a cleaned key changes nothing. *)
Theorem apiKey_is_clean (env : option jstring) :
  (34%N ∉ apiKey env) /\ (39%N ∉ apiKey env)
  /\ (apiKey env = [] \/ tight (apiKey env))
  /\ sublist (apiKey env) (default [] env)
  /\ apiKey (Some (apiKey env)) = apiKey env
  /\ (forall key, env = Some key -> 34%N ∉ key -> 39%N ∉ key -> tight key ->
        apiKey env = key).
Proof.
  destruct env as [key|]; [|by split_and!; try done; try apply not_elem_of_nil; left].
  rewrite !apiKey_clean_key. simpl.
  assert (Hsub : sublist (trim (remove_quotes key)) (remove_quotes key))
    by apply trim_sublist.
  assert (H34 : 34%N ∉ trim (remove_quotes key)).
  { intros H. apply (sublist_elem_of _ _ _ Hsub), remove_quotes_elem in H. tauto. }
  assert (H39 : 39%N ∉ trim (remove_quotes key)).
  { intros H. apply (sublist_elem_of _ _ _ Hsub), remove_quotes_elem in H. tauto. }
  split_and!; try done.
  - destruct (trim_cases (remove_quotes key)) as [[-> _]|[Ht _]]; [by left|by right].
  - etrans; [exact Hsub|apply remove_quotes_sublist].
  - rewrite (remove_quotes_id _ H34 H39). apply trim_idemp.
  - intros ? [= <-] K34 K39 Ht. rewrite remove_quotes_id by done. by apply trim_tight.
Qed.

Lemma apiKey_is_clean_witness :
  apiKey (Some (jtext " 'sk-'a b'' ")) = lit "sk-a b"
  /\ apiKey (Some (lit "sk-a b")) = lit "sk-a b".
Proof.
  split; [by vm_compute|].
  destruct (apiKey_is_clean (Some (lit "sk-a b"))) as (_ & _ & _ & _ & _ & Hid).
  apply Hid; [done|decide_closed|decide_closed|].
  split; [by exists 115%N, (lit "k-a b")|by exists (lit "sk-a "), 98%N].
Defined.

(** ** The two-call route *)

Section TwoCallTable.

Variable Number_is_zero : jstring -> bool.
Variable String_of_error : exn -> jstring.
Variable development : bool.

Abbreviation caught := (TwoCall.caught String_of_error development).

(** [POST], row by row. *)
Lemma two_call_POST_table (env : option jstring) (req : request)
    (textExtraction analysis : service_outcome) :
  TwoCall.POST Number_is_zero String_of_error development env req textExtraction analysis =
  match validateEnv env with
  | Throw e => caught e
  | Return _ =>
      match req with
      | Throw e => caught e
      | Return fields =>
          match formData_get fields (lit "image") with
          | None | Some (FormText []) =>
              mkReply 400 (Failure (lit "No image provided") None)
          | Some (FormText (_ :: _)) =>
              caught (ErrorObj (lit "image.arrayBuffer is not a function"))
          | Some (FormFile _ _) =>
              match textExtraction with
              | Throw e => caught e
              | Return extractedText =>
                  match analysis with
                  | Throw e => caught e
                  | Return analysisText =>
                      if truthy_json Number_is_zero (extractJsonFromText analysisText)
                      then mkReply 200 (Analysed (extractJsonFromText analysisText)
                                                 extractedText)
                      else caught parse_failure
                  end
              end
          end
      end
  end.
Proof.
  unfold TwoCall.POST, POST_try.
  destruct (validateEnv env) as [[]|e0]; [|done]. cbn [mbind completion_bind bind].
  destruct req as [fields|e]; [|done]. cbn [mbind completion_bind bind]. cbv zeta.
  destruct (formData_get fields (lit "image")) as [[[|c s]|type bytes]|]; try done.
  cbn [truthy negb]. cbv iota.
  destruct textExtraction as [extractedText|e1]; [|done].
  destruct analysis as [analysisText|e2]; [|done].
  cbn [mbind completion_bind bind]. cbv zeta.
  by destruct (truthy_json Number_is_zero (extractJsonFromText analysisText)).
Qed.

End TwoCallTable.

(** X14.  The answers of the two-call route.  The key is checked first: when
    [validateEnv] throws, the answer is 500 with the message that the key is
    required, whatever the request.  The answer is 200 exactly when the key
    passes, the form has a file as its image, both calls to the service
    return, and what [extractJsonFromText] makes of the second text is not a
    falsy value; the body then carries that value and the text of the first
    call.  A second text that is JSON but falsy ([null], [false], zero, the
    empty string) is answered like one that does not parse: 500 with
    [Failed to parse analysis results].  No other status than 200, 400 and
    500 is answered, and 400 exactly when the key passes and the form data
    is read but has no image. *)
Theorem two_call_POST_answers (Number_is_zero : jstring -> bool)
    (String_of_error : exn -> jstring) (development : bool)
    (env : option jstring) (req : request) (textExtraction analysis : service_outcome) :
  let answer := TwoCall.POST Number_is_zero String_of_error development
                  env req textExtraction analysis in
  let details e := if development then Some (String_of_error e) else None in
  (validateEnv env = Throw key_required ->
   answer = mkReply 500
              (Failure (lit "OPENAI_API_KEY is required. Please check your .env file and ensure it contains your API key.")
                       (details key_required)))
  /\ (reply_status answer = 200 <->
      exists fields type bytes extractedText analysisText,
        validateEnv env = Return tt /\ req = Return fields
        /\ formData_get fields (lit "image") = Some (FormFile type bytes)
        /\ textExtraction = Return extractedText /\ analysis = Return analysisText
        /\ truthy_json Number_is_zero (extractJsonFromText analysisText) = true
        /\ answer = mkReply 200 (Analysed (extractJsonFromText analysisText) extractedText))
  /\ (forall fields type bytes extractedText analysisText,
        validateEnv env = Return tt -> req = Return fields ->
        formData_get fields (lit "image") = Some (FormFile type bytes) ->
        textExtraction = Return extractedText -> analysis = Return analysisText ->
        truthy_json Number_is_zero (extractJsonFromText analysisText) = false ->
        answer = mkReply 500 (Failure (lit "Failed to parse analysis results")
                                      (details parse_failure)))
  /\ (reply_status answer = 400 <->
      exists fields,
        validateEnv env = Return tt /\ req = Return fields
        /\ truthy (formData_get fields (lit "image")) = false
        /\ answer = mkReply 400 (Failure (lit "No image provided") None))
  /\ (reply_status answer = 200 \/ reply_status answer = 400 \/ reply_status answer = 500).
Proof.
  intros answer details. unfold answer. rewrite two_call_POST_table.
  unfold TwoCall.caught.
  destruct (validateEnv_cases env) as [Hkey|Hkey]; rewrite Hkey.
  2: { split_and!; [done| | |  |by right; right].
       - split; [done|]. by intros (? & ? & ? & ? & ? & [=] & _).
       - by intros ? ? ? ? ? [=].
       - split; [done|]. by intros (? & [=] & _). }
  destruct req as [fields|e].
  2: { split_and!; [done| | | |by right; right].
       - split; [done|]. by intros (? & ? & ? & ? & ? & _ & [=] & _).
       - by intros ? ? ? ? ? _ [=].
       - split; [done|]. by intros (? & _ & [=] & _). }
  destruct (formData_get fields (lit "image")) as [[[|c s]|type bytes]|] eqn:Himage.
  - split_and!; [done| | | |by right; left].
    + split; [done|]. intros (? & ? & ? & ? & ? & _ & [= <-] & H & _). congruence.
    + intros ? ? ? ? ? _ [= <-] H. congruence.
    + split; [|done]. intros _. exists fields. by rewrite Himage.
  - split_and!; [done| | | |by right; right].
    + split; [done|]. intros (? & ? & ? & ? & ? & _ & [= <-] & H & _). congruence.
    + intros ? ? ? ? ? _ [= <-] H. congruence.
    + split; [done|]. intros (? & _ & [= <-] & H & _). by rewrite Himage in H.
  - destruct textExtraction as [extractedText|e1].
    2: { split_and!; [done| | | |by right; right].
         - split; [done|]. by intros (? & ? & ? & ? & ? & _ & _ & _ & [=] & _).
         - by intros ? ? ? ? ? _ _ _ [=].
         - split; [done|]. intros (? & _ & [= <-] & H & _). by rewrite Himage in H. }
    destruct analysis as [analysisText|e2].
    2: { split_and!; [done| | | |by right; right].
         - split; [done|]. by intros (? & ? & ? & ? & ? & _ & _ & _ & _ & [=] & _).
         - by intros ? ? ? ? ? _ _ _ _ [=].
         - split; [done|]. intros (? & _ & [= <-] & H & _). by rewrite Himage in H. }
    destruct (truthy_json Number_is_zero (extractJsonFromText analysisText)) eqn:Ht.
    + split_and!; [done| | | |by left].
      * split; [|done]. intros _.
        by exists fields, type, bytes, extractedText, analysisText.
      * intros ? ? ? ? ? _ _ _ _ [= <-]. congruence.
      * split; [done|]. intros (? & _ & [= <-] & H & _). by rewrite Himage in H.
    + split_and!; [done| | | |by right; right].
      * split; [done|]. intros (? & ? & ? & ? & ? & _ & _ & _ & _ & [= <-] & H & _).
        congruence.
      * done.
      * split; [done|]. intros (? & _ & [= <-] & H & _). by rewrite Himage in H.
  - split_and!; [done| | | |by right; left].
    + split; [done|]. intros (? & ? & ? & ? & ? & _ & [= <-] & H & _). congruence.
    + intros ? ? ? ? ? _ [= <-] H. congruence.
    + split; [|done]. intros _. exists fields. by rewrite Himage.
Qed.

Lemma two_call_POST_answers_witness :
  let image := FormFile (lit "image/png") [137%N; 80%N] in
  let post := TwoCall.POST (fun l => bool_decide (l = lit "0")) (fun _ => lit "Error")
                false (Some (lit "sk-abc")) (Return [(lit "image", image)])
                (Return (Some (lit "Sugar, salt"))) in
  post (Return (Some (jtext "Here it is: {'ingredients':[]} Enjoy.")))
  = mkReply 200 (Analysed (JObj [(lit "ingredients", JArr [])]) (Some (lit "Sugar, salt")))
  /\ post (Return (Some (lit "false")))
     = mkReply 500 (Failure (lit "Failed to parse analysis results") None)
  /\ reply_status (TwoCall.POST (fun l => bool_decide (l = lit "0")) (fun _ => lit "Error")
                     false None (Return [(lit "image", image)])
                     (Return (Some (lit "Sugar, salt")))
                     (Return (Some (jtext "{'ingredients':[]}")))) = 500.
Proof.
  intros image post. split_and!.
  - by vm_compute.
  - unfold post.
    destruct (two_call_POST_answers (fun l => bool_decide (l = lit "0"))
                (fun _ => lit "Error") false (Some (lit "sk-abc"))
                (Return [(lit "image", image)]) (Return (Some (lit "Sugar, salt")))
                (Return (Some (lit "false")))) as (_ & _ & Hfalsy & _).
    by apply (Hfalsy [(lit "image", image)] (lit "image/png") [137%N; 80%N]
                (Some (lit "Sugar, salt")) (Some (lit "false"))).
  - destruct (two_call_POST_answers (fun l => bool_decide (l = lit "0"))
                (fun _ => lit "Error") false None
                (Return [(lit "image", image)]) (Return (Some (lit "Sugar, salt")))
                (Return (Some (jtext "{'ingredients':[]}")))) as (Hkey & _).
    cbv zeta in Hkey. by rewrite Hkey.
Defined.

(** * The page *)

(** ** Counting and sorting the ingredients *)

Lemma is_class_unique (c : option json) (a b : jstring) :
  is_class c a = true -> is_class c b = true -> a = b.
Proof.
  destruct c as [[]|]; try done. simpl.
  intros ->%eqs_true ->%eqs_true. done.
Qed.

Lemma getRiskLevel_cases (c : option json) :
  (getRiskLevel c = 3 /\ is_class c (lit "high_risk") = true
   /\ is_class c (lit "moderate_risk") = false /\ is_class c (lit "healthy") = false)
  \/ (getRiskLevel c = 2 /\ is_class c (lit "high_risk") = false
      /\ is_class c (lit "moderate_risk") = true /\ is_class c (lit "healthy") = false)
  \/ (getRiskLevel c = 1 /\ is_class c (lit "high_risk") = false
      /\ is_class c (lit "moderate_risk") = false /\ is_class c (lit "healthy") = true)
  \/ (getRiskLevel c = 0 /\ is_class c (lit "high_risk") = false
      /\ is_class c (lit "moderate_risk") = false /\ is_class c (lit "healthy") = false).
Proof.
  unfold getRiskLevel.
  destruct (is_class c (lit "high_risk")) eqn:H3.
  { left. split_and!; try done.
    - destruct (is_class c (lit "moderate_risk")) eqn:H2; [|done].
      by pose proof (is_class_unique _ _ _ H3 H2).
    - destruct (is_class c (lit "healthy")) eqn:H1; [|done].
      by pose proof (is_class_unique _ _ _ H3 H1). }
  destruct (is_class c (lit "moderate_risk")) eqn:H2.
  { right. left. split_and!; try done.
    destruct (is_class c (lit "healthy")) eqn:H1; [|done].
    by pose proof (is_class_unique _ _ _ H2 H1). }
  destruct (is_class c (lit "healthy")) eqn:H1; tauto.
Qed.

(** Reading the classification of an ingredient that is not [null]. *)
Lemma classification_risk (x : json) :
  x <> JNull ->
  exists c, get_property x (lit "classification") = Return c
            /\ getRiskLevel c = risk_level x.
Proof. intros Hx. destruct x; try done; by eexists. Qed.

Lemma of_level_cons (k : Z) (x : json) (l : list json) :
  of_level k (x :: l) = if risk_level x =? k then x :: of_level k l else of_level k l.
Proof. done. Qed.

Lemma count_classified (acc : SummaryStats) (x : json) (c : option json) :
  get_property x (lit "classification") = Return c ->
  count acc x
  = Return {| total := total acc + 1;
              highRisk := highRisk acc + one_if (is_class c (lit "high_risk"));
              moderateRisk := moderateRisk acc + one_if (is_class c (lit "moderate_risk"));
              healthy := healthy acc + one_if (is_class c (lit "healthy")) |}%nat.
Proof. unfold count. by intros ->. Qed.

Lemma reduce_count (l : list json) :
  forall acc,
  match reduce count l acc with
  | Return stats =>
      (JNull ∉ l)
      /\ total stats = (total acc + length l)%nat
      /\ highRisk stats = (highRisk acc + length (of_level 3 l))%nat
      /\ moderateRisk stats = (moderateRisk acc + length (of_level 2 l))%nat
      /\ healthy stats = (healthy acc + length (of_level 1 l))%nat
  | Throw e => JNull ∈ l /\ e = ErrorObj (lit "Cannot read properties of null")
  end.
Proof.
  induction l as [|x l IH]; intros acc.
  - simpl. split_and!; try lia. apply not_elem_of_nil.
  - assert (x = JNull \/ x <> JNull) as [->|Hx] by (destruct x; auto).
    { simpl. split; [by left|done]. }
    destruct (classification_risk x Hx) as (c & Hc & Hlevel).
    cbn [reduce]. rewrite (count_classified _ _ _ Hc). cbn [mbind completion_bind bind].
    match goal with |- context [reduce count l ?a] => specialize (IH a) end.
    destruct (reduce count l _) as [stats|e].
    + destruct IH as (Hnull & Ht & H3 & H2 & H1). cbn [total highRisk moderateRisk healthy] in *.
      rewrite !of_level_cons, <- Hlevel.
      split; [by apply not_elem_of_cons|].
      destruct (getRiskLevel_cases c) as [(E & C3 & C2 & C1)|[(E & C3 & C2 & C1)
        |[(E & C3 & C2 & C1)|(E & C3 & C2 & C1)]]];
        rewrite E, C3, C2, C1 in *; simpl in *; lia.
    + destruct IH as [Hin ->]. split; [by right|done].
Qed.

Lemma risk_level_range (x : json) :
  risk_level x = 3 \/ risk_level x = 2 \/ risk_level x = 1 \/ risk_level x = 0.
Proof.
  destruct x; simpl; auto.
  destruct (getRiskLevel_cases (obj_get props (lit "classification")))
    as [(-> & _)|[(-> & _)|[(-> & _)|(-> & _)]]]; auto.
Qed.

Lemma of_level_partition (l : list json) :
  length l = (length (of_level 3 l) + length (of_level 2 l)
              + length (of_level 1 l) + length (of_level 0 l))%nat.
Proof.
  induction l as [|x l IH]; [done|]. rewrite !of_level_cons.
  destruct (risk_level_range x) as [-> |[-> |[-> | ->]]]; simpl; lia.
Qed.

(** X15.  The summary of an analysis.  [calculateStats] throws exactly when
    an ingredient is [null].  Otherwise the total is the number of
    ingredients, and each of the three counters is the number of ingredients
    whose classification is the string of that class.  The three counters
    need not add up to the total: the difference is the number of
    ingredients whose classification is missing, is not a string, or is some
    other string. *)
Theorem calculateStats_counts (ingredients : list json) :
  match calculateStats ingredients with
  | Return stats =>
      (JNull ∉ ingredients)
      /\ total stats = length ingredients
      /\ highRisk stats = length (of_level 3 ingredients)
      /\ moderateRisk stats = length (of_level 2 ingredients)
      /\ healthy stats = length (of_level 1 ingredients)
      /\ total stats = (highRisk stats + moderateRisk stats + healthy stats
                        + length (of_level 0 ingredients))%nat
  | Throw _ => JNull ∈ ingredients
  end.
Proof.
  unfold calculateStats. pose proof (reduce_count ingredients (mkStats 0 0 0 0)) as H.
  destruct (reduce count ingredients _) as [stats|e]; [|tauto].
  destruct H as (Hnull & Ht & H3 & H2 & H1). simpl in *.
  split_and!; try done. rewrite Ht, H3, H2, H1. apply of_level_partition.
Qed.

(** ** Levels *)

Lemma null_in_or_not (l : list json) : JNull ∈ l \/ JNull ∉ l.
Proof.
  induction l as [|x l [IH|IH]].
  - right. apply not_elem_of_nil.
  - left. by right.
  - assert (x = JNull \/ x <> JNull) as [->|Hx] by (destruct x; auto).
    + left. by left.
    + right. apply not_elem_of_cons. split; [congruence|done].
Qed.

Lemma of_level_of_level (k j : Z) (l : list json) :
  of_level k (of_level j l) = if j =? k then of_level j l else [].
Proof.
  induction l as [|x l IH]; [by destruct (j =? k)|].
  rewrite (of_level_cons j). destruct (Z.eqb_spec (risk_level x) j) as [Ex|Ex].
  - rewrite of_level_cons, IH. subst j. by destruct (risk_level x =? k).
  - done.
Qed.

Lemma of_level_outside (k : Z) (l : list json) :
  k <> 3 -> k <> 2 -> k <> 1 -> k <> 0 -> of_level k l = [].
Proof.
  intros K3 K2 K1 K0. induction l as [|x l IH]; [done|]. rewrite of_level_cons, IH.
  destruct (Z.eqb_spec (risk_level x) k) as [E|E]; [|done].
  destruct (risk_level_range x) as [?|[?|[?|?]]]; congruence.
Qed.

(** Sorting keeps each level as it was received. *)
Lemma of_level_by_level (k : Z) (l : list json) :
  of_level k (by_level l) = of_level k l.
Proof.
  unfold by_level, of_level at 1. rewrite !List.filter_app.
  fold (of_level k (of_level 3 l)). fold (of_level k (of_level 2 l)).
  fold (of_level k (of_level 1 l)). fold (of_level k (of_level 0 l)).
  rewrite !of_level_of_level.
  destruct (Z.eqb_spec 3 k) as [<-|K3]; [by rewrite !app_nil_r|].
  destruct (Z.eqb_spec 2 k) as [<-|K2]; [by rewrite !app_nil_r|].
  destruct (Z.eqb_spec 1 k) as [<-|K1]; [by rewrite !app_nil_r|].
  destruct (Z.eqb_spec 0 k) as [<-|K0]; [done|].
  simpl. symmetry. apply of_level_outside; congruence.
Qed.

Lemma by_level_Permutation (l : list json) : by_level l ≡ₚ l.
Proof.
  unfold by_level. induction l as [|x l IH]; [done|]. rewrite !of_level_cons.
  destruct (risk_level_range x) as [-> |[-> |[-> | ->]]]; simpl (_ =? _); cbv iota.
  - simpl. by constructor.
  - rewrite <- app_comm_cons, <- Permutation_middle. by constructor.
  - rewrite <- app_comm_cons, (app_assoc (of_level 3 l)), <- Permutation_middle,
      <- app_assoc.
    by constructor.
  - rewrite !app_assoc, <- Permutation_middle, <- !app_assoc. by constructor.
Qed.

Lemma by_level_null (l : list json) : JNull ∈ by_level l <-> JNull ∈ l.
Proof. by rewrite by_level_Permutation. Qed.

Lemma of_level_elem (k : Z) (l : list json) (x : json) :
  x ∈ of_level k l -> x ∈ l /\ risk_level x = k.
Proof.
  unfold of_level. rewrite !list_elem_of_In, filter_In. intros [Hin Hk].
  split; [done|]. by apply Z.eqb_eq.
Qed.

(** ** Sorting *)

Lemma compare_risk_level (a b : json) :
  a <> JNull -> b <> JNull ->
  compare_risk a b = Return (risk_level b - risk_level a).
Proof.
  intros Ha Hb. unfold compare_risk.
  destruct (classification_risk a Ha) as (ca & -> & <-).
  by destruct (classification_risk b Hb) as (cb & -> & <-).
Qed.

Lemma compare_risk_null (a b : json) :
  a = JNull \/ b = JNull -> exists e, compare_risk a b = Throw e.
Proof.
  unfold compare_risk. intros [-> | ->]; [|by eexists].
  destruct b; simpl; by eexists.
Qed.

Lemma insert_by_skip (a : json) (l1 l : list json) :
  a <> JNull ->
  Forall (fun b => b <> JNull /\ risk_level a < risk_level b) l1 ->
  insert_by compare_risk a (l1 ++ l)
  = (rest ← insert_by compare_risk a l; Return (l1 ++ rest)).
Proof.
  intros Ha. induction 1 as [|b l1 [Hb Hlt] _ IH].
  - simpl. by destruct (insert_by compare_risk a l).
  - cbn [app insert_by]. rewrite compare_risk_level by done.
    cbn [mbind completion_bind bind].
    destruct (Z.leb_spec (risk_level b - risk_level a) 0); [lia|].
    rewrite IH. by destruct (insert_by compare_risk a l).
Qed.

Lemma insert_by_here (a : json) (l : list json) :
  a <> JNull ->
  Forall (fun b => b <> JNull /\ risk_level b <= risk_level a) l ->
  insert_by compare_risk a l = Return (a :: l).
Proof.
  intros Ha. destruct 1 as [|b l [Hb Hle] _]; [done|].
  cbn [insert_by]. rewrite compare_risk_level by done.
  cbn [mbind completion_bind bind].
  by destruct (Z.leb_spec (risk_level b - risk_level a) 0); [|lia].
Qed.

(** Without [null], sorting groups the ingredients by level. *)
Lemma sort_by_level (l : list json) :
  JNull ∉ l -> sort compare_risk l = Return (by_level l).
Proof.
  induction l as [|x l IH]; [done|]. intros [Hx Hl]%not_elem_of_cons.
  cbn [sort]. rewrite IH by done. cbn [mbind completion_bind bind].
  assert (Ha : x <> JNull) by congruence.
  assert (Hgt : forall k, risk_level x < k ->
            Forall (fun b => b <> JNull /\ risk_level x < risk_level b) (of_level k l)).
  { intros k Hk. apply Forall_forall. intros b [Hb <-]%of_level_elem.
    split; [|done]. by intros ->. }
  assert (Hle : forall k, k <= risk_level x ->
            Forall (fun b => b <> JNull /\ risk_level b <= risk_level x) (of_level k l)).
  { intros k Hk. apply Forall_forall. intros b [Hb <-]%of_level_elem.
    split; [|done]. by intros ->. }
  unfold by_level. rewrite !of_level_cons.
  destruct (risk_level_range x) as [E|[E|[E|E]]]; rewrite E; simpl (_ =? _);
    cbv iota.
  - rewrite insert_by_here; [done|done|].
    rewrite !Forall_app. split_and!; apply Hle; lia.
  - rewrite insert_by_skip by (try done; apply Hgt; lia).
    rewrite insert_by_here; [done|done|].
    rewrite !Forall_app. split_and!; apply Hle; lia.
  - do 2 rewrite insert_by_skip by (try done; apply Hgt; lia).
    rewrite insert_by_here; [done|done|].
    rewrite !Forall_app. split_and!; apply Hle; lia.
  - do 3 rewrite insert_by_skip by (try done; apply Hgt; lia).
    rewrite insert_by_here; [done|done|]. apply Hle; lia.
Qed.

(** With two or more ingredients every ingredient is compared, and a
    comparison with [null] throws. *)
Lemma sort_null (l : list json) :
  JNull ∈ l -> (2 <= length l)%nat -> exists e, sort compare_risk l = Throw e.
Proof.
  induction l as [|a r IH]; [by intros ?%elem_of_nil|]. intros Hin Hlen.
  cbn [sort]. destruct (null_in_or_not r) as [Hr|Hr].
  - destruct r as [|x [|y r']]; [by apply elem_of_nil in Hr| |].
    + apply list_elem_of_singleton in Hr as <-.
      cbn [sort insert_by mbind completion_bind bind].
      destruct (compare_risk_null a JNull) as [e ->]; [by right|]. by eexists.
    + destruct IH as [e ->]; [done|simpl; lia|]. by eexists.
  - assert (a = JNull) as ->.
    { apply elem_of_cons in Hin as [?|?]; [done|contradiction]. }
    rewrite sort_by_level by done. cbn [mbind completion_bind bind].
    destruct (by_level r) as [|b rest] eqn:Eb.
    + pose proof (by_level_Permutation r) as Hp. rewrite Eb in Hp.
      apply Permutation_nil_l in Hp. subst r. simpl in Hlen. lia.
    + cbn [insert_by].
      destruct (compare_risk_null JNull b) as [e ->]; [by left|]. by eexists.
Qed.

Lemma calculateStats_value (l : list json) :
  JNull ∉ l ->
  calculateStats l
  = Return (mkStats (length l) (length (of_level 3 l)) (length (of_level 2 l))
                    (length (of_level 1 l))).
Proof.
  intros Hl. unfold calculateStats.
  pose proof (reduce_count l (mkStats 0 0 0 0)) as H.
  destruct (reduce count l _) as [[t h m he]|e]; [|tauto].
  destruct H as (_ & Ht & H3 & H2 & H1). simpl in *. by subst.
Qed.

(** X16.  The order of the list.  [sortByRisk] throws exactly when the list
    has two or more ingredients, one of them [null].  Otherwise it returns
    the ingredients of high risk, then those of moderate risk, then the
    healthy ones, then the ingredients of no known class, and in each of
    the four groups the ingredients stand in the order received.  The
    result has the same ingredients, and the summary that [calculateStats]
    makes of it is the summary of the list as received. *)
Theorem sortByRisk_by_level (ingredients : list json) :
  match sortByRisk ingredients with
  | Return sorted =>
      sorted = of_level 3 ingredients ++ of_level 2 ingredients
               ++ of_level 1 ingredients ++ of_level 0 ingredients
      /\ (forall k, of_level k sorted = of_level k ingredients)
      /\ sorted ≡ₚ ingredients
      /\ calculateStats sorted = calculateStats ingredients
      /\ (JNull ∈ ingredients -> ingredients = [JNull])
  | Throw _ => JNull ∈ ingredients /\ (2 <= length ingredients)%nat
  end.
Proof.
  unfold sortByRisk. destruct (null_in_or_not ingredients) as [Hin|Hnot].
  - destruct ingredients as [|x [|y l]]; [by apply elem_of_nil in Hin| |].
    + apply list_elem_of_singleton in Hin as <-. simpl. by split_and!.
    + destruct (sort_null (x :: y :: l) Hin) as [e ->]; [simpl; lia|].
      split; [done|simpl; lia].
  - rewrite sort_by_level by done. fold (by_level ingredients). split_and!; try done.
    + intros k. apply of_level_by_level.
    + apply by_level_Permutation.
    + rewrite !calculateStats_value; [|done|by rewrite by_level_null].
      rewrite !of_level_by_level. by rewrite by_level_Permutation.
Qed.

(** ** Polling *)

Lemma poll_GET (fs : store) (now : Z) (id : jstring) :
  id <> [] ->
  poll (Return (GET fs now (Some id)).2) =
  match (getJob fs now id).2 with
  | None => ShowError (lit "Analysis job not found - please try again")
  | Some job =>
      match job_status job with
      | pending | processing => KeepPolling
      | completed => ShowAnalysis (job_result job)
      | failed => ShowError (or_else (job_error job) (lit "Analysis failed"))
      end
  end.
Proof.
  intros Hid. destruct id as [|c id]; [done|]. unfold GET.
  destruct (getJob fs now (c :: id)) as [fs' [job|]]; [|done]. simpl.
  by destruct (job_status job).
Qed.

(** X17.  What the page does at a tick of the polling.  Take any state that
    a submission reaches after [POST] has created its job, and let the page
    poll the status route for the id of the job.  The page keeps polling
    only while the job is stored, not older than one hour, and pending or
    processing.  It shows an analysis only once the task has ended, and the
    analysis is then the result stored with the completed job: never a
    missing one.  It shows an error when the job is not found (no record,
    or one older than one hour), or when the task has ended in failure, and
    then the stored message, or [Analysis failed] if that message is
    empty. *)
Theorem page_follows_the_job (Number_toString : jstring -> jstring) (jobId : jstring)
    (s : store * phase) (now : Z) :
  jobId <> [] ->
  reachable Number_toString jobId s ->
  match poll (Return (GET s.1 now (Some jobId)).2) with
  | KeepPolling =>
      s.2 <> Done
      /\ exists job, getJob s.1 now jobId = (s.1, Some job)
                     /\ (job_status job = pending \/ job_status job = processing)
  | ShowAnalysis analysis =>
      s.2 = Done
      /\ exists job result,
           getJob s.1 now jobId = (s.1, Some job)
           /\ job_status job = completed
           /\ job_result job = Some result /\ analysis = Some result
  | ShowError message =>
      (message = lit "Analysis job not found - please try again"
       /\ (getJob s.1 now jobId).2 = None)
      \/ (s.2 = Done
          /\ exists job stored,
               getJob s.1 now jobId = (s.1, Some job)
               /\ job_status job = failed
               /\ job_error job = Some stored
               /\ message = or_else (Some stored) (lit "Analysis failed"))
  end.
Proof.
  intros Hid Hinv%reachable_inv. rewrite poll_GET by done.
  destruct (getJob s.1 now jobId).2 as [job|] eqn:Hget; [|by left].
  apply getJob_Some_inv in Hget as (Hrec & Hage & Hget).
  unfold lifecycle_inv, record in *.
  destruct (stat s.1 (getJobPath jobId)) as [| |[|[|j]]]; try done.
  injection Hrec as ->. destruct s as [fs ph]. simpl in *.
  destruct ph; simpl in Hinv.
  - destruct Hinv as (Hst & _). rewrite Hst. split; [done|]. exists job. auto.
  - destruct Hinv as (Hst & _). rewrite Hst. split; [done|]. exists job. auto.
  - destruct Hinv as [(Hst & Hres & _)|(Hst & _ & Herr)]; rewrite Hst.
    + destruct (job_result job) as [result|] eqn:Eres; [|done].
      split; [done|]. by exists job, result.
    + destruct (job_error job) as [stored|] eqn:Eerr; [|done].
      right. split; [done|]. by exists job, stored.
  - destruct Hinv as (Hst & _). rewrite Hst. split; [done|]. exists job. auto.
Qed.

Lemma page_follows_the_job_witness :
  let image := FormFile (lit "image/png") [137%N; 80%N] in
  let fs1 := (POST_begin ∅ (Return [(lit "image", image)]) (lit "u-1") 10).1 in
  let fs2 := (POST_resume fs1 (lit "u-1") image 11 12).1.1 in
  let fs3 := pipeline_task (fun l => l) fs2 (lit "u-1")
               (Return (Some (jtext "{'ingredients':[]}"))) 20 21 22 in
  poll (Return (GET fs2 13 (Some (lit "u-1"))).2) = KeepPolling
  /\ poll (Return (GET fs3 23 (Some (lit "u-1"))).2)
     = ShowAnalysis (Some (JObj [(lit "ingredients", JArr [])]))
  /\ match poll (Return (GET fs3 23 (Some (lit "u-1"))).2) with
     | ShowAnalysis analysis => exists result, analysis = Some result
     | _ => False
     end.
Proof.
  intros image fs1 fs2 fs3.
  assert (Hreach2 : reachable (fun l => l) (lit "u-1") (fs2, Running)).
  { apply (reach_step _ _ (fs1, AwaitingBuffer image)).
    - apply (reach_created _ _ ∅ (Return [(lit "image", image)]) 10).
      apply pair_eta. by vm_compute.
    - apply (step_resume _ _ fs1 image 11 12 fs2
               (mkResponse 200 (JobIdBody (lit "u-1")))).
      apply triple_eta; by vm_compute. }
  assert (Hreach3 : reachable (fun l => l) (lit "u-1") (fs3, Done)).
  { apply (reach_step _ _ (fs2, Running)); [exact Hreach2|apply step_task]. }
  split; [by vm_compute|]. split; [by vm_compute|].
  assert (Hid : lit "u-1" <> []) by done.
  pose proof (page_follows_the_job (fun l => l) (lit "u-1") (fs3, Done) 23 Hid Hreach3)
    as H.
  change ((fs3, Done).1) with fs3 in H.
  destruct (poll (Return (GET fs3 23 (Some (lit "u-1"))).2)) as [|analysis|message].
  - by destruct H.
  - destruct H as (_ & job & result & _ & _ & _ & ->). by exists result.
  - destruct H as [[_ Hnone]|[_ (job & stored & Hget & Hfailed & _)]].
    + by vm_compute in Hnone.
    + apply (f_equal snd) in Hget. vm_compute in Hget. injection Hget as <-.
      discriminate Hfailed.
Defined.

(** ** The sweep and the ids *)

Lemma in_store_dir_plain (id : jstring) :
  47%N ∉ id -> in_store_dir (getJobPath id) = true.
Proof.
  intros Hid. destruct (getJobPath_plain_place id Hid) as [Hp _].
  unfold in_store_dir.
  rewrite (proj2 (child_name_Some storePath (getJobPath id) (id ++ lit ".json"))); [done|].
  split_and!; [by apply getJobPath_plain|by apply json_name_valid|done].
Qed.

(** X18.  What a sweep leaves.  For an id without a slash, the job that the
    store holds for the id after [cleanup] is exactly the job that [getJob]
    would have returned at the clock reading of the sweep: a job not older
    than one hour survives every sweep unchanged, and a job older than one
    hour, like an unreadable or unparsable file, is gone after the next
    one.  The age tests of the sweep and of the reader agree, also at
    exactly one hour. *)
Theorem cleanup_leaves_what_getJob_returns (fs : store) (now : Z) (id : jstring) :
  47%N ∉ id ->
  record (cleanup fs now) id = (getJob fs now id).2
  /\ (forall j, record fs id = Some j -> now - job_timestamp j <= 3600000 ->
        record (cleanup fs now) id = Some j)
  /\ (forall j, record fs id = Some j -> now - job_timestamp j > 3600000 ->
        stat (cleanup fs now) (getJobPath id) = Missing).
Proof.
  intros Hid. destruct (getJobPath_plain_place id Hid) as [Hp Hd].
  pose proof (in_store_dir_plain id Hid) as Hin.
  assert (Hstat : stat (cleanup fs now) (getJobPath id) =
            match fs !! getJobPath id with
            | Some e => if swept now e then Missing else File e
            | None => Missing
            end).
  { unfold stat. rewrite Hp, Hd, cleanup_lookup, Hin. simpl.
    destruct (fs !! getJobPath id) as [e|]; [|done]. by destruct (swept now e). }
  assert (Hfs : stat fs (getJobPath id) =
            match fs !! getJobPath id with Some e => File e | None => Missing end).
  { unfold stat. by rewrite Hp, Hd. }
  split_and!.
  - unfold record. rewrite getJob_result, Hstat, Hfs.
    destruct (fs !! getJobPath id) as [[|[|j]]|]; try done. simpl. unfold retention.
    destruct (Z.ltb_spec (job_timestamp j) (now - 60 * 60 * 1000)),
             (Z.gtb_spec (now - job_timestamp j) (60 * 60 * 1000)); try done; lia.
  - unfold record. rewrite Hstat, Hfs.
    destruct (fs !! getJobPath id) as [[|[|j']]|]; try done. intros j [= ->] Hage.
    simpl. unfold retention.
    by destruct (Z.ltb_spec (job_timestamp j) (now - 60 * 60 * 1000)); [lia|].
  - unfold record. rewrite Hstat, Hfs.
    destruct (fs !! getJobPath id) as [[|[|j']]|]; try done. intros j [= ->] Hage.
    simpl. unfold retention.
    by destruct (Z.ltb_spec (job_timestamp j) (now - 60 * 60 * 1000)); [|lia].
Qed.

Lemma cleanup_leaves_what_getJob_returns_witness :
  let fs := run_ops ∅ [OpCreate (lit "a") 0; OpCreate (lit "b") 1] in
  record (cleanup fs 3600001) (lit "a") = None
  /\ record (cleanup fs 3600001) (lit "b") = Some (mkJob pending None None 1).
Proof.
  intros fs.
  destruct (cleanup_leaves_what_getJob_returns fs 3600001 (lit "a")) as (Ha & _);
    [decide_closed|].
  destruct (cleanup_leaves_what_getJob_returns fs 3600001 (lit "b")) as (_ & Hb & _);
    [decide_closed|].
  split.
  - rewrite Ha. by vm_compute.
  - apply Hb; [by vm_compute|simpl; lia].
Defined.

(** ** The page of the two-call route *)

(** X19.  What the older page shows.  The page that waits for the answer of
    the two-call route shows an analysis exactly when the route answers
    200, and it is then the value that [extractJsonFromText] made of the
    second text of the service.  In every other case it shows an error
    text: the word [Error], a cause that is never empty (the message of the
    route, or [Failed to analyze image] when the route's message is empty),
    and the advice to check the API key, whatever the cause was. *)
Theorem older_page_shows (Number_is_zero : jstring -> bool)
    (String_of_error : exn -> jstring) (development : bool)
    (env : option jstring) (req : request) (textExtraction analysis : service_outcome) :
  let answer := TwoCall.POST Number_is_zero String_of_error development
                  env req textExtraction analysis in
  match OlderPage.handleUpload (Return answer) with
  | Analysis shown =>
      reply_status answer = 200
      /\ exists analysisText,
           analysis = Return analysisText
           /\ shown = Some (extractJsonFromText analysisText)
           /\ truthy_json Number_is_zero (extractJsonFromText analysisText) = true
  | ErrorShown text =>
      reply_status answer <> 200
      /\ exists cause,
           cause <> []
           /\ text = lit "Error: " ++ cause
                     ++ lit ". Please check your API key and try again."
           /\ (forall error details,
                 reply_body_of answer = Failure error details -> error <> [] ->
                 cause = error)
  end.
Proof.
  intros answer. unfold answer. rewrite two_call_POST_table.
  assert (Hcaught : forall e,
    match OlderPage.handleUpload (Return (TwoCall.caught String_of_error development e)) with
    | Analysis _ => False
    | ErrorShown text =>
        exists cause,
          cause <> []
          /\ text = lit "Error: " ++ cause
                    ++ lit ". Please check your API key and try again."
          /\ (forall error details,
                reply_body_of (TwoCall.caught String_of_error development e)
                = Failure error details -> error <> [] -> cause = error)
    end).
  { intros e. unfold OlderPage.handleUpload, TwoCall.caught, replied_ok, advice. simpl.
    destruct e as [[|c m]|]; simpl.
    - exists (lit "Failed to analyze image"). split_and!; try done.
      by intros ? ? [= <- _].
    - exists (c :: m). split_and!; try done. by intros ? ? [= <- _].
    - exists (lit "Failed to analyze image"). split_and!; try done.
      by intros ? ? [= <- _]. }
  assert (Hfail : forall e,
    match OlderPage.handleUpload (Return (TwoCall.caught String_of_error development e)) with
    | Analysis shown =>
        reply_status (TwoCall.caught String_of_error development e) = 200
        /\ exists analysisText,
             analysis = Return analysisText
             /\ shown = Some (extractJsonFromText analysisText)
             /\ truthy_json Number_is_zero (extractJsonFromText analysisText) = true
    | ErrorShown text =>
        reply_status (TwoCall.caught String_of_error development e) <> 200
        /\ exists cause,
             cause <> []
             /\ text = lit "Error: " ++ cause
                       ++ lit ". Please check your API key and try again."
             /\ (forall error details,
                   reply_body_of (TwoCall.caught String_of_error development e)
                   = Failure error details -> error <> [] -> cause = error)
    end).
  { intros e. specialize (Hcaught e).
    destruct (OlderPage.handleUpload (Return (TwoCall.caught String_of_error development e)));
      [done|]. split; [done|exact Hcaught]. }
  assert (Hnone :
    match OlderPage.handleUpload (Return (mkReply 400 (Failure (lit "No image provided") None))) with
    | Analysis shown => False
    | ErrorShown text =>
        400 <> 200
        /\ exists cause,
             cause <> []
             /\ text = lit "Error: " ++ cause
                       ++ lit ". Please check your API key and try again."
             /\ (forall error details,
                   Failure (lit "No image provided") None = Failure error details ->
                   error <> [] -> cause = error)
    end).
  { simpl. split; [done|]. exists (lit "No image provided"). split_and!; try done.
    by intros ? ? [= <- _]. }
  destruct (validateEnv env) as [[]|e0]; [|apply Hfail].
  destruct req as [fields|e]; [|apply Hfail].
  destruct (formData_get fields (lit "image")) as [[[|c s]|type bytes]|];
    [exact Hnone|apply Hfail| |exact Hnone].
  destruct textExtraction as [extractedText|e1]; [|apply Hfail].
  destruct analysis as [analysisText|e2]; [|apply Hfail].
  destruct (truthy_json Number_is_zero (extractJsonFromText analysisText)) eqn:Ht;
    [|apply Hfail].
  simpl. split; [done|]. by exists analysisText.
Qed.

(** * Ids that leave the store directory *)

Lemma split_slash_app (a b : jstring) :
  47%N ∉ a -> split_slash (a ++ 47%N :: b) = a :: split_slash b.
Proof.
  induction a as [|c a IH]; intros Ha.
  - simpl. done.
  - apply not_elem_of_cons in Ha as [Hc Ha]. simpl.
    destruct (N.eqb_spec c 47) as [->|_]; [done|]. by rewrite IH.
Qed.

(** The id that starts with the parent directory and goes on with a name
    names a file of the directory above the store. *)
Lemma getJobPath_parent (name : jstring) :
  47%N ∉ name -> getJobPath (lit "../" ++ name) = [lit "tmp"; name ++ lit ".json"].
Proof.
  intros Hname. unfold getJobPath, path_join.
  change ((lit "../" ++ name) ++ lit ".json")
    with (lit ".." ++ 47%N :: (name ++ lit ".json")).
  rewrite split_slash_app by decide_closed.
  rewrite split_slash_plain.
  - cbn [fold_left]. change (push_segment storePath (lit "..")) with [lit "tmp"].
    by rewrite push_segment_name by (by apply json_name_valid).
  - rewrite elem_of_app. intros [?|Hin]; [done|].
    vm_compute in Hin. repeat (apply elem_of_cons in Hin as [Hin|Hin]; [done|]).
    by apply elem_of_nil in Hin.
Qed.

Lemma parent_place (name : jstring) :
  is_dir [lit "tmp"; name ++ lit ".json"] = false
  /\ is_dir (removelast [lit "tmp"; name ++ lit ".json"]) = true
  /\ in_store_dir [lit "tmp"; name ++ lit ".json"] = false.
Proof.
  assert (Hne : name ++ lit ".json" <> lit "analysis-jobs").
  { intros E. apply (f_equal (@rev N)) in E. rewrite rev_app_distr in E.
    vm_compute in E. discriminate. }
  split_and!.
  - apply bool_decide_eq_false. unfold directories, storePath.
    rewrite !elem_of_cons, elem_of_nil. intros [E|[E|[E|[]]]]; try done.
    injection E as E. done.
  - done.
  - unfold in_store_dir.
    destruct (child_name storePath [lit "tmp"; name ++ lit ".json"]) as [n|] eqn:Hn;
      [|done].
    apply child_name_Some in Hn as (E & _). by apply (f_equal length) in E.
Qed.

Lemma GET_expired (fs : store) (now : Z) (id : jstring) (j : AnalysisJob) :
  id <> [] -> record fs id = Some j -> now - job_timestamp j > 3600000 ->
  GET fs now (Some id)
  = (delete (getJobPath id) fs, mkResponse 404 (ErrorBody (lit "Job not found"))).
Proof.
  intros Hid Hrec Hage. destruct id as [|c id]; [done|].
  unfold GET. by rewrite (getJob_expired _ _ _ _ Hrec Hage).
Qed.

(** X20.  The id is not confined to the store directory.  [path.join]
    resolves the dots of an id: the id made of the parent directory, a
    slash and a name without a slash names the file of that name in the
    directory above the store.  The status route reads that file like the
    file of a job: it answers 200 with the job stored there when it is not
    older than one hour, and when it is older the route removes the file and
    answers 404.  The sweep never reaches the file. *)
Theorem status_route_leaves_store_directory (fs : store) (now : Z) (name : jstring)
    (j : AnalysisJob) :
  47%N ∉ name ->
  fs !! [lit "tmp"; name ++ lit ".json"] = Some (Readable (JobJson j)) ->
  let id := lit "../" ++ name in
  let p := [lit "tmp"; name ++ lit ".json"] in
  getJobPath id = p
  /\ in_store_dir p = false
  /\ (forall t, cleanup fs t !! p = fs !! p)
  /\ (now - job_timestamp j <= 3600000 ->
      GET fs now (Some id) = (fs, mkResponse 200 (JobBody j)))
  /\ (now - job_timestamp j > 3600000 ->
      GET fs now (Some id)
      = (delete p fs, mkResponse 404 (ErrorBody (lit "Job not found")))).
Proof.
  intros Hname Hfile id p. subst id p.
  pose proof (getJobPath_parent name Hname) as Hpath.
  destruct (parent_place name) as (Hp & Hd & Hin).
  assert (Hrec : record fs (lit "../" ++ name) = Some j).
  { unfold record. rewrite Hpath. by rewrite (stat_File_intro _ _ _ Hp Hd Hfile). }
  split_and!; try done.
  - intros t. rewrite cleanup_lookup. by rewrite Hin, Hfile.
  - intros Hage. by apply GET_live.
  - intros Hage. rewrite <- Hpath. by apply (GET_expired _ _ _ j).
Qed.

Lemma status_route_leaves_store_directory_witness :
  let fs : store := <[[lit "tmp"; lit "x.json"] := Readable (JobJson (mkJob completed None None 5))]> ∅ in
  getJobPath (lit "../x") = [lit "tmp"; lit "x.json"]
  /\ GET fs 6 (Some (lit "../x")) = (fs, mkResponse 200 (JobBody (mkJob completed None None 5)))
  /\ (GET fs 3600006 (Some (lit "../x"))).2
     = mkResponse 404 (ErrorBody (lit "Job not found")).
Proof.
  intros fs.
  destruct (status_route_leaves_store_directory fs 6 (lit "x")
              (mkJob completed None None 5)) as (Hpath & _ & _ & Hlive & _);
    [decide_closed|by vm_compute|].
  destruct (status_route_leaves_store_directory fs 3600006 (lit "x")
              (mkJob completed None None 5)) as (_ & _ & _ & _ & Hold);
    [decide_closed|by vm_compute|].
  split; [exact Hpath|]. split.
  - apply Hlive. simpl. lia.
  - assert (Hage : 3600006 - job_timestamp (mkJob completed None None 5) > 3600000)
      by (simpl; lia).
    exact (f_equal snd (Hold Hage)).
Defined.

(** * The start of an upload *)

Lemma POST_answer_file (fs : store) (type : jstring) (bytes : list N)
    (uuid : jstring) (t_create t_read t_write : Z) :
  47%N ∉ uuid -> fs !! getJobPath uuid <> Some Unreadable ->
  POST_answer fs (Return [(lit "image", FormFile type bytes)]) uuid
    t_create t_read t_write
  = (updateJob
       (<[getJobPath uuid := Readable (JobJson (mkJob pending None None t_create))]> fs)
       t_read t_write uuid (mkUpdate (Some processing) None None None),
     mkResponse 200 (JobIdBody uuid)).
Proof.
  intros Hplain Hfile. unfold POST_answer, POST_begin.
  change (formData_get [(lit "image", FormFile type bytes)] (lit "image"))
    with (Some (FormFile type bytes)).
  cbn [truthy negb]. by rewrite createJob_plain by done.
Qed.

(** X21.  What the page starts with.  Without a file the page sends
    nothing and asks for an image.  With a file, an id without a slash whose
    file is not unreadable, and the processing update made within one hour
    of the creation, the page starts polling, for exactly the id under which
    [POST] has stored the job; the job is then in processing, so that the
    first tick of the polling finds it. *)
Theorem page_starts_polling (fs : store) (file : option (jstring * list N))
    (uuid : jstring) (t_create t_read t_write : Z) :
  47%N ∉ uuid -> uuid <> [] -> fs !! getJobPath uuid <> Some Unreadable ->
  t_read - t_create <= 3600000 ->
  let server req := (POST_answer fs req uuid t_create t_read t_write).2 in
  match file with
  | None =>
      Upload.handleUpload None (fun req => Return (server req))
      = StartError (lit "Please select an image first")
  | Some (type, bytes) =>
      let image := FormFile type bytes in
      Upload.handleUpload (Some image) (fun req => Return (server req))
      = Polling (Some uuid)
      /\ record (POST_answer fs (Return [(lit "image", image)]) uuid
                   t_create t_read t_write).1 uuid
         = Some (mkJob processing None None t_write)
  end.
Proof.
  intros Hplain Hne Hfile Hage server. destruct file as [[type bytes]|]; [|done].
  intros image. unfold server, image, Upload.handleUpload.
  rewrite !POST_answer_file by done. split; [done|].
  destruct (getJobPath_plain_place uuid Hplain) as [Hp Hd].
  cbn [fst].
  apply (record_updateJob_live _ t_read t_write uuid
           (mkUpdate (Some processing) None None None)
           (mkJob pending None None t_create)); [|done].
  unfold record.
  rewrite (stat_File_intro _ _ (Readable (JobJson (mkJob pending None None t_create))));
    auto.
  apply lookup_insert_eq.
Qed.

Lemma page_starts_polling_witness :
  let image := FormFile (lit "image/png") [137%N; 80%N] in
  Upload.handleUpload (Some image)
    (fun req => Return (POST_answer ∅ req (lit "u-1") 10 11 12).2)
  = Polling (Some (lit "u-1"))
  /\ record (POST_answer ∅ (Return [(lit "image", image)]) (lit "u-1") 10 11 12).1
       (lit "u-1")
     = Some (mkJob processing None None 12).
Proof.
  apply (page_starts_polling ∅ (Some (lit "image/png", [137%N; 80%N])) (lit "u-1") 10 11 12);
    [decide_closed|done|by rewrite lookup_empty|lia].
Defined.
